(** * video-stream: the rendition pipeline of [app.py]

    A shallow embedding of the pure and file-system parts of the Flask
    application [src/app.py]: rendition planning, the CRF step table, segment
    enumeration, bit-rate estimation, manifest persistence, the catalog listing
    and the playlist summary, together with the properties the design document
    states about them.

    Conventions.
    - Python [int] is [Z].  A Python [float] (a duration, an epoch, a bit
      rate) is given by the rational [Q] it denotes; NaN and the infinities are
      outside the model.  Float arithmetic is not exact: the divisions and the
      rounding of the bit rate are the interpreter's, operations of the
      environment.
    - A [dict] read with [.get] is a record of [option] fields: [None] is an
      absent key.  Where the catalog listing reads a manifest from disk, a
      member may hold a value of another JSON type than the code expects.
      A [str] is a [string] of bytes (UTF-8); byte order is code-point order.
    - [sorted] / [list.sort] are stable; they are modelled by a stable
      insertion sort, which computes the same list as any stable sort.
    - Exceptions are an explicit result type; the file system is an explicit
      state. *)

From Stdlib Require Import ZArith QArith Qround Qabs Lia Ascii.
From Stdlib Require Import Sorting.Sorted Permutation.
From stdpp Require Import base option list gmap strings pretty sorting.

Local Open Scope Z_scope.

(** * Part I: the program *)

(** ** Python built-ins used by the code *)

Module Py.

Section StableSort.
Context {A : Type} (le : A → A → bool).

(** [x] goes in front of the first element it is [le] to; elements it ties
    with therefore stay behind it, as they were in the input. *)
Fixpoint insert_sorted (x : A) (l : list A) : list A :=
  match l with
  | [] => [x]
  | y :: l' => if le x y then x :: y :: l' else y :: insert_sorted x l'
  end.

Definition stable_sort (l : list A) : list A := foldr insert_sorted [] l.
End StableSort.

(** [sorted(l, key=key, reverse=True)] with integer keys: descending keys,
    ties in input order. *)
Definition sorted_by_rev {A} (key : A → Z) : list A → list A :=
  stable_sort (λ a b, key b <=? key a).

(** The same with float keys. *)
Definition sorted_by_rev_Q {A} (key : A → Q) : list A → list A :=
  stable_sort (λ a b, Qle_bool (key b) (key a)).

(** [sorted(l)] on strings and on paths of one directory: code-point order. *)
Definition sorted_by_str {A} (key : A → string) : list A → list A :=
  stable_sort (λ a b, String.leb (key a) (key b)).

(** [sorted(set(l), reverse=True)] on integers. *)
Definition sorted_set_rev (l : list Z) : list Z :=
  sorted_by_rev id (elements (list_to_set l : gset Z)).

(** [enumerate(l, start=k)] *)
Fixpoint enumerate {A} (start : Z) (l : list A) : list (Z * A) :=
  match l with
  | [] => []
  | x :: l' => (start, x) :: enumerate (start + 1) l'
  end.

(** Truthiness of numbers and strings, [x or d], [str(n)]. *)
Definition truthy_Z (z : Z) : bool := negb (z =? 0).
Definition truthy_Q (q : Q) : bool := negb (Qeq_bool q 0).
Definition truthy_str (s : string) : bool := negb (String.eqb s "").

Definition or_str (o : option string) (d : string) : string :=
  match o with
  | Some s => if truthy_str s then s else d
  | None => d
  end.

Definition str (z : Z) : string := pretty z.

(** Rounding of an exact value to the nearest integer and to the nearest
    multiple of 1/100, halves to the even one: the decimal step of
    [round(x, 2)]. *)
Definition round_half_even (q : Q) : Z :=
  let f := Qfloor q in
  match Qcompare (q - inject_Z f) (1 # 2) with
  | Lt => f
  | Gt => f + 1
  | Eq => if Z.even f then f else f + 1
  end.

Definition round2 (q : Q) : Q := (inject_Z (round_half_even (q * 100)) / 100)%Q.

(** [PurePath(name).stem] for a single path component. *)
Fixpoint rfind_dot (s : string) (pos : nat) (acc : option nat) : option nat :=
  match s with
  | EmptyString => acc
  | String c s' =>
      rfind_dot s' (S pos) (if Ascii.eqb c "."%char then Some pos else acc)
  end.

Definition stem (name : string) : string :=
  match rfind_dot name 0 None with
  | Some i =>
      if bool_decide (0 < i < String.length name - 1)%nat
      then String.substring 0 i name else name
  | None => name
  end.

End Py.

(** ** Documents: the dictionaries of the manifest *)

(** One chunk record, as [segment_video] builds it. *)
Record segment := Segment {
  seg_index : Z;
  seg_path : string;
  seg_size_bytes : Z;
  seg_duration : Z;
  seg_label : string
}.

(** A variant dictionary.  [None] is an absent key. *)
Record variant := MkVariant {
  v_label : option string;
  v_height : option Z;
  v_width : option Z;
  v_duration : option Q;
  v_file : option string;
  v_segments : option (list segment);
  v_is_master : option bool;
  v_size_bytes : option Z;
  v_bitrate_kbps : option Q
}.

Record source_info := SourceInfo {
  s_filename : option string;
  s_path : option string;
  s_width : option Z;
  s_height : option Z;
  s_duration : option Q
}.

Record manifest := Manifest {
  m_playlist_id : option string;
  m_created_at : option string;
  m_created_at_ts : option Q;
  m_segment_duration : option Z;
  m_requested_resolutions : option (list Z);
  m_skipped_resolutions : option (list Z);
  m_source : option source_info;
  m_variants : option (list variant)
}.

(** ** [crf_for_height] *)

Definition crf_for_height (height : Z) : Z :=
  if 2160 <=? height then 20
  else if 1440 <=? height then 21
  else if 1080 <=? height then 22
  else if 720 <=? height then 23
  else if 480 <=? height then 24
  else 25.

(** ** Rendition planning: [upload], between the probe and the loop *)

Record plan_result := Plan {
  requested_resolutions : list Z;
  eligible_resolutions : list Z;
  skipped_resolutions : list Z;
  targets : list Z
}.

Definition plan (source_height : Z) (requested : list Z) : plan_result :=
  let requested_resolutions := Py.sorted_set_rev requested in
  let eligible_resolutions :=
    filter (λ res, res ≤ source_height) requested_resolutions in
  let skipped_resolutions :=
    filter (λ res, res > source_height) requested_resolutions in
  let targets :=
    source_height :: filter (λ res, res < source_height) eligible_resolutions in
  Plan requested_resolutions eligible_resolutions skipped_resolutions targets.

(** ** Bit rate of a variant: [upload], inside the loop *)

Definition variant_duration
    (duration : Q) (segment_duration : Z) (variant_segments : list segment) : Q :=
  if Py.truthy_Q duration then duration
  else inject_Z (segment_duration * Z.max (Z.of_nat (length variant_segments)) 1).

(** [segment_duration = max(5, min(segment_duration, 600))] *)
Definition clamp_segment_duration (segment_duration : Z) : Z :=
  Z.max 5 (Z.min segment_duration 600).

(** ** Exceptions *)

Definition path := list string.

Inductive exn :=
| ProcessingError (msg : string)
| FileExistsError (p : path)
| FileNotFoundError (p : path)
| NotADirectoryError (p : path)
| IsADirectoryError (p : path)
| UnicodeDecodeError
| AttributeError
| ValueError
| TypeError
| OverflowError.

Inductive result (A : Type) :=
| Ok (a : A)
| Raise (e : exn).
Arguments Ok {A} a.
Arguments Raise {A} e.

(** ** [summarise_manifest] *)

(** The [enriched] dictionary built for each variant. *)
Record variant_view := VariantView {
  e_label : string;
  e_height : option Z;
  e_width : option Z;
  e_duration : option Q;
  e_file : option string;
  e_segments : list segment;
  e_segment_count : nat;
  e_is_master : bool;
  e_bitrate_kbps : option Q
}.

Definition enriched (variant : variant) : variant_view :=
  {| e_label := default "" (v_label variant);
     e_height := v_height variant;
     e_width := v_width variant;
     e_duration := v_duration variant;
     e_file := v_file variant;
     e_segments := default [] (v_segments variant);
     e_segment_count := length (default [] (v_segments variant));
     e_is_master := default false (v_is_master variant);
     e_bitrate_kbps := v_bitrate_kbps variant |}.

(** The dictionary built from [variants_data[0]] when no variant is flagged. *)
Definition fallback_master (fallback : variant) : variant_view :=
  {| e_label := default "Master" (v_label fallback);
     e_height := v_height fallback;
     e_width := v_width fallback;
     e_duration := v_duration fallback;
     e_file := v_file fallback;
     e_segments := default [] (v_segments fallback);
     e_segment_count := length (default [] (v_segments fallback));
     e_is_master := true;
     e_bitrate_kbps := v_bitrate_kbps fallback |}.

(** One turn of the [for variant in variants_data] loop, on the pair
    [(master_variant, other_variants)]. *)
Definition summarise_step
    (acc : option variant_view * list variant_view) (variant : variant)
  : option variant_view * list variant_view :=
  let '(master_variant, other_variants) := acc in
  let enriched := enriched variant in
  match master_variant with
  | None =>
      if e_is_master enriched then (Some enriched, other_variants)
      else (master_variant, other_variants ++ [enriched])
  | Some _ => (master_variant, other_variants ++ [enriched])
  end.

(** The master of the summary: the master dictionary with ["filename"] added. *)
Record master_view := MasterView {
  mv_variant : variant_view;
  mv_filename : option string
}.

Record source_view := SourceView {
  sv_filename : option string;
  sv_height : option Z;
  sv_width : option Z;
  sv_duration : option Q
}.

Record summary := Summary {
  sm_playlist_id : option string;
  sm_created_at : option string;
  sm_segment_duration : option Z;
  sm_skipped_resolutions : list Z;
  sm_master : option master_view;
  sm_variants : list variant_view;
  sm_source : source_view
}.

Definition empty_source : source_info := SourceInfo None None None None None.

(** The sort key of [other_variants]: [item.get("height") or 0]. *)
Definition height_key (item : variant_view) : Z := default 0 (e_height item).

Definition summarise_manifest (manifest : manifest) : summary :=
  let source := default empty_source (m_source manifest) in
  let variants_data := default [] (m_variants manifest) in
  let '(master_variant, other_variants) :=
    fold_left summarise_step variants_data (None, []) in
  let master_variant :=
    match master_variant, variants_data with
    | None, fallback :: _ => Some (fallback_master fallback)
    | _, _ => master_variant
    end in
  let other_variants := Py.sorted_by_rev height_key other_variants in
  let master_variant :=
    match master_variant with
    | Some mv =>
        Some {| mv_variant := mv;
                mv_filename :=
                  match s_filename source with
                  | Some f => Some f
                  | None => e_file mv
                  end |}
    | None => None
    end in
  {| sm_playlist_id := m_playlist_id manifest;
     sm_created_at := m_created_at manifest;
     sm_segment_duration := m_segment_duration manifest;
     sm_skipped_resolutions := default [] (m_skipped_resolutions manifest);
     sm_master := master_variant;
     sm_variants := other_variants;
     sm_source :=
       {| sv_filename := s_filename source;
          sv_height := s_height source;
          sv_width := s_width source;
          sv_duration := s_duration source |} |}.

(** ** [list_manifests] *)

(** A manifest as [json.load] returns it where it is a JSON object: the
    members [list_manifests] reads.  A member the code takes for an object,
    iterates over or converts to a float may hold a value of another JSON
    type; the other members are read as data only.

    ["source"]: absent, an object, or any other value ([null] included). *)
Inductive source_member :=
| SourceAbsent
| SourceObject (source : source_info)
| SourceNotObject.

(** What iterating over ["variants"] yields: an object, or any other value. *)
Inductive variant_item :=
| VariantObject (variant : variant)
| VariantNotObject.

(** ["variants"]: absent; the values iterating over it yields (the elements
    of an array, the characters of a string, the keys of an object); or a
    value that cannot be iterated over ([null], a number, a boolean). *)
Inductive variants_member :=
| VariantsAbsent
| VariantsIterable (items : list variant_item)
| VariantsNotIterable.

(** ["created_at_ts"] where it is not [null]: a number, or a value of another
    type, given by what [float(value or 0.0)] does with it (a numeric string
    converts, any other string raises [ValueError], an array or object that is
    not empty raises [TypeError]; an integer beyond the range of floats counts
    here too, with [OverflowError]). *)
Inductive epoch :=
| EpochNumber (ts : Q)
| EpochOther (as_float : result Q).

Record manifest_document := ManifestDocument {
  md_playlist_id : option string;
  md_source : source_member;
  md_created_at : option string;
  md_created_at_ts : option epoch;
  md_variants : variants_member
}.

(** A manifest whose members have the types of the schema. *)
Definition document_of (data : manifest) : manifest_document :=
  {| md_playlist_id := m_playlist_id data;
     md_source :=
       match m_source data with
       | Some source => SourceObject source
       | None => SourceAbsent
       end;
     md_created_at := m_created_at data;
     md_created_at_ts := EpochNumber <$> m_created_at_ts data;
     md_variants :=
       match m_variants data with
       | Some variants => VariantsIterable (VariantObject <$> variants)
       | None => VariantsAbsent
       end |}.

(** What [open] followed by [json.load] does on one [manifest.json]. *)
Inductive load_outcome :=
| RaisesOSError
| RaisesJSONDecodeError
| RaisesUnicodeDecodeError
| LoadsNonObject
| Loads (data : manifest_document).

(** One path of [root.glob("*/manifest.json")]: the playlist directory's name,
    what loading the file does, and [stat().st_mtime] ([None]: [OSError]). *)
Record manifest_file := ManifestFile {
  mf_parent_name : string;
  mf_load : load_outcome;
  mf_st_mtime : option Q
}.

Record catalog_entry := CatalogEntry {
  ce_id : string;
  ce_title : string;
  ce_created_at : option string;
  ce_resolutions : list string;
  ce_created_at_ts : epoch
}.

(** The [for variant in variants] loop collecting the labels. *)
Definition resolution_labels (variants : list variant) : list string :=
  fold_left
    (λ resolutions variant,
       match v_height variant with
       | Some height =>
           if Py.truthy_Z height then
             let label := Py.str height +:+ "p" in
             if bool_decide (label ∈ resolutions) then resolutions
             else resolutions ++ [label]
           else resolutions
       | None => resolutions
       end)
    variants [].

(** The entry of a manifest whose members have the types of the schema. *)
Definition catalog_entry_of (f : manifest_file) (data : manifest) : catalog_entry :=
  let playlist_id := Py.or_str (m_playlist_id data) (mf_parent_name f) in
  let source := default empty_source (m_source data) in
  let filename := Py.or_str (s_filename source) playlist_id in
  let numeric_created_at :=
    match m_created_at_ts data with
    | Some ts => ts
    | None => default 0%Q (mf_st_mtime f)
    end in
  {| ce_id := playlist_id;
     ce_title := filename;
     ce_created_at := m_created_at data;
     ce_resolutions := resolution_labels (default [] (m_variants data));
     ce_created_at_ts := EpochNumber numeric_created_at |}.

Definition result_bind {A B : Type} (r : result A) (k : A → result B) : result B :=
  match r with
  | Ok a => k a
  | Raise e => Raise e
  end.

(** The same loop over what ["variants"] yields: [variant.get] raises on a
    value that is not an object. *)
Fixpoint collect_resolutions
    (items : list variant_item) (resolutions : list string)
  : result (list string) :=
  match items with
  | [] => Ok resolutions
  | VariantNotObject :: _ => Raise AttributeError
  | VariantObject variant :: items' =>
      collect_resolutions items'
        match v_height variant with
        | Some height =>
            if Py.truthy_Z height then
              let label := Py.str height +:+ "p" in
              if bool_decide (label ∈ resolutions) then resolutions
              else resolutions ++ [label]
            else resolutions
        | None => resolutions
        end
  end.

(** The body of the loop after the [try]: the lines from [playlist_id = ...]
    to [manifests.append]. *)
Definition catalog_entry_of_document
    (f : manifest_file) (data : manifest_document) : result catalog_entry :=
  let playlist_id := Py.or_str (md_playlist_id data) (mf_parent_name f) in
  result_bind
    match md_source data with
    | SourceAbsent => Ok empty_source
    | SourceObject source => Ok source
    | SourceNotObject => Raise AttributeError
    end
    (λ source,
       let filename := Py.or_str (s_filename source) playlist_id in
       let created_at := md_created_at data in
       let numeric_created_at :=
         match md_created_at_ts data with
         | Some value => value
         | None => EpochNumber (default 0%Q (mf_st_mtime f))
         end in
       result_bind
         match md_variants data with
         | VariantsAbsent => Ok []
         | VariantsIterable items => collect_resolutions items []
         | VariantsNotIterable => Raise TypeError
         end
         (λ resolutions,
            Ok {| ce_id := playlist_id;
                  ce_title := filename;
                  ce_created_at := created_at;
                  ce_resolutions := resolutions;
                  ce_created_at_ts := numeric_created_at |})).

(** The [for manifest_path in sorted(...)] loop; [manifests] is the list built
    so far.  Only [OSError] and [JSONDecodeError] are caught, and only around
    the load. *)
Fixpoint scan_manifests
    (files : list manifest_file) (manifests : list catalog_entry)
  : result (list catalog_entry) :=
  match files with
  | [] => Ok manifests
  | f :: files' =>
      match mf_load f with
      | RaisesOSError | RaisesJSONDecodeError => scan_manifests files' manifests
      | RaisesUnicodeDecodeError => Raise UnicodeDecodeError
      | LoadsNonObject => Raise AttributeError
      | Loads data =>
          result_bind (catalog_entry_of_document f data)
            (λ entry, scan_manifests files' (manifests ++ [entry]))
      end
  end.

(** [float(item.get("created_at_ts") or 0.0)] *)
Definition sort_key (item : catalog_entry) : result Q :=
  match ce_created_at_ts item with
  | EpochNumber ts => Ok (if Py.truthy_Q ts then ts else 0%Q)
  | EpochOther as_float => as_float
  end.

(** [list.sort(key=sort_key)] computes the key of every item, in order, before
    it compares any. *)
Fixpoint sort_keys (items : list catalog_entry) : result (list (Q * catalog_entry)) :=
  match items with
  | [] => Ok []
  | item :: items' =>
      result_bind (sort_key item)
        (λ key, result_bind (sort_keys items') (λ keyed, Ok ((key, item) :: keyed)))
  end.

(** [root] is [None] when the upload root does not exist. *)
Definition list_manifests (root : option (list manifest_file))
  : result (list catalog_entry) :=
  match root with
  | None => Ok []
  | Some files =>
      result_bind (scan_manifests (Py.sorted_by_str mf_parent_name files) [])
        (λ manifests,
           result_bind (sort_keys manifests)
             (λ keyed, Ok (Py.sorted_by_rev_Q fst keyed).*2))
  end.

(** ** The file system under [UPLOAD_ROOT] *)

(** A path is the list of its components below the upload root; the root
    itself is [[]] and always a directory. *)
Inductive node :=
| Dir
| Blob (size : Z)
| Text (content : string).

Abbreviation fs := (gmap path node).

Definition st_size (n : node) : Z :=
  match n with
  | Dir => 4096
  | Blob size => size
  | Text content => Z.of_nat (String.length content)
  end.

Definition lookup_node (p : path) (σ : fs) : option node :=
  match p with
  | [] => Some Dir
  | _ => σ !! p
  end.

Definition parent (p : path) : path := take (length p - 1) p.

Definition is_dir (p : path) (σ : fs) : bool :=
  match lookup_node p σ with
  | Some Dir => true
  | _ => false
  end.

Definition path_exists (p : path) (σ : fs) : bool :=
  match lookup_node p σ with
  | Some _ => true
  | None => false
  end.

(** [path.relative_to(UPLOAD_ROOT).as_posix()] *)
Definition to_relative (p : path) : string := String.concat "/" p.

(** Code that reads and writes files and may raise. *)
Definition M (A : Type) : Type := fs → result A * fs.

#[global] Instance M_ret : MRet M := λ A a σ, (Ok a, σ).

#[global] Instance M_bind : MBind M := λ A B f m σ,
  match m σ with
  | (Ok a, σ') => f a σ'
  | (Raise e, σ') => (Raise e, σ')
  end.

Definition raise {A} (e : exn) : M A := λ σ, (Raise e, σ).
Definition get_fs : M fs := λ σ, (Ok σ, σ).
Definition modify_fs (f : fs → fs) : M unit := λ σ, (Ok (), f σ).

Definition try_except {A} (body : M A) (handler : exn → M A) : M A := λ σ,
  match body σ with
  | (Ok a, σ') => (Ok a, σ')
  | (Raise e, σ') => handler e σ'
  end.

(** [os.mkdir] *)
Definition os_mkdir (p : path) : M unit := λ σ,
  match lookup_node p σ with
  | Some _ => (Raise (FileExistsError p), σ)
  | None =>
      match lookup_node (parent p) σ with
      | None => (Raise (FileNotFoundError p), σ)
      | Some Dir => (Ok (), <[p := Dir]> σ)
      | Some _ => (Raise (NotADirectoryError p), σ)
      end
  end.

(** [Path.mkdir(parents=False, exist_ok=exist_ok)] *)
Definition mkdir_leaf (exist_ok : bool) (p : path) : M unit := λ σ,
  match os_mkdir p σ with
  | (Ok u, σ') => (Ok u, σ')
  | (Raise (FileNotFoundError q), _) => (Raise (FileNotFoundError q), σ)
  | (Raise e, _) => if exist_ok && is_dir p σ then (Ok (), σ) else (Raise e, σ)
  end.

(** [Path.mkdir(parents=True, exist_ok=exist_ok)], on the reversed path: a
    missing parent is created first, with [exist_ok=True]. *)
Fixpoint mkdir_rev (exist_ok : bool) (rp : list string) : M unit := λ σ,
  match os_mkdir (rev rp) σ with
  | (Ok u, σ') => (Ok u, σ')
  | (Raise (FileNotFoundError q), _) =>
      match rp with
      | [] => (Raise (FileNotFoundError q), σ)
      | _ :: rparent =>
          match mkdir_rev true rparent σ with
          | (Ok _, σ1) => mkdir_leaf exist_ok (rev rp) σ1
          | (Raise e, σ1) => (Raise e, σ1)
          end
      end
  | (Raise e, _) =>
      if exist_ok && is_dir (rev rp) σ then (Ok (), σ) else (Raise e, σ)
  end.

Definition mkdir (exist_ok : bool) (p : path) : M unit := mkdir_rev exist_ok (rev p).

(** [open(p, "w")] and [open(p, "wb")]: create or truncate. *)
Definition open_w (p : path) (empty : node) : M unit := λ σ,
  match lookup_node (parent p) σ with
  | None => (Raise (FileNotFoundError p), σ)
  | Some Dir =>
      match lookup_node p σ with
      | Some Dir => (Raise (IsADirectoryError p), σ)
      | _ => (Ok (), <[p := empty]> σ)
      end
  | Some _ => (Raise (NotADirectoryError p), σ)
  end.

(** [handle.write(chunk)] on a text file opened at [p]. *)
Definition handle_write (p : path) (chunk : string) : M unit :=
  modify_fs (λ σ,
    match σ !! p with
    | Some (Text content) => <[p := Text (content +:+ chunk)]> σ
    | _ => σ
    end).

(** [uploaded_file.save(p)] *)
Definition save_upload (p : path) (size : Z) : M unit :=
  open_w p (Blob 0) ;; modify_fs (<[p := Blob size]>).

(** [p.stat().st_size] *)
Definition stat_size (p : path) : M Z := λ σ,
  match lookup_node p σ with
  | Some n => (Ok (st_size n), σ)
  | None => (Raise (FileNotFoundError p), σ)
  end.

(** [shutil.rmtree] *)
Definition rmtree (p : path) : M unit := λ σ,
  match lookup_node p σ with
  | Some Dir => (Ok (), filter (λ kv, ¬ p `prefix_of` kv.1) σ)
  | Some _ => (Raise (NotADirectoryError p), σ)
  | None => (Raise (FileNotFoundError p), σ)
  end.

Definition cleanup_playlist (p : path) : M unit := λ σ,
  if path_exists p σ then rmtree p σ else (Ok (), σ).

(** The entries of directory [dir]: name and node. *)
Fixpoint strip_dir (dir p : path) : option path :=
  match dir, p with
  | [], _ => Some p
  | d :: dir', c :: p' => if String.eqb d c then strip_dir dir' p' else None
  | _ :: _, [] => None
  end.

Definition iterdir (dir : path) (σ : fs) : list (string * node) :=
  omap (λ kv, match strip_dir dir kv.1 with
              | Some [name] => Some (name, kv.2)
              | _ => None
              end)
       (map_to_list σ).

Definition ends_with (suffix s : string) : bool :=
  String.prefix (String.rev suffix) (String.rev s).

(** [dir.glob("*.mp4")] *)
Definition glob_mp4 (dir : path) (σ : fs) : list (string * node) :=
  filter (λ item, ends_with ".mp4" item.1 = true) (iterdir dir σ).

(** ** What lies outside [app.py] *)

(** The fields of ffprobe's JSON output that [probe_video] reads; [None] is a
    missing stream or field, or a duration [float()] rejects. *)
Record ffprobe_payload := FfprobePayload {
  fp_width : option Z;
  fp_height : option Z;
  fp_duration : option Q
}.

(** The interpreter's [int()] and float arithmetic, werkzeug, the clock, the
    FFmpeg binaries and [json.dump].  A float is given by the rational it
    denotes; [py_truediv a b] is the float [a / b] of two numbers ([b] not
    zero) and [py_round2 x] the float [round(x, 2)], as the interpreter
    computes them in binary64.  A tool answers [inl stderr_tail] when
    [run_command] raises. *)
Record env := Env {
  py_int : string → option Z;
  py_truediv : Q → Q → Q;
  py_round2 : Q → Q;
  secure_filename : string → string;
  utcnow_stamp : string;
  utcnow_iso : string;
  utcnow_ts : Q;
  upload_size : Z;
  ffprobe : path → string + ffprobe_payload;
  (** source, output, target height, CRF, segment duration ↦ size of the output *)
  ffmpeg_transcode : path → path → Z → Z → Z → string + Z;
  (** source, segment duration ↦ sizes of the chunks, in chunk order *)
  ffmpeg_segment : path → Z → string + list Z;
  (** [json.dump(payload, handle, indent=2)]: the pieces of the serialised
      document, in the order and size in which they reach the file *)
  json_dump : manifest → list string
}.

Record video_info := VideoInfo {
  vi_width : Z;
  vi_height : Z;
  vi_duration : Q
}.

(** [bitrate_kbps = 0.0], replaced by
    [(variant_size_bytes * 8) / 1000 / variant_duration] under
    [if variant_duration:]. *)
Definition bitrate_kbps (e : env) (variant_size_bytes : Z) (variant_duration : Q) : Q :=
  if Py.truthy_Q variant_duration
  then py_truediv e (py_truediv e (inject_Z (variant_size_bytes * 8)) 1000)
         variant_duration
  else 0%Q.

(** [round(bitrate_kbps, 2)] *)
Definition recorded_bitrate
    (e : env) (variant_size_bytes : Z) (duration : Q) (segment_duration : Z)
    (variant_segments : list segment) : Q :=
  py_round2 e
    (bitrate_kbps e variant_size_bytes
       (variant_duration duration segment_duration variant_segments)).

(** ** [probe_video], [transcode_variant], [segment_video] *)

Definition probe_video (e : env) (p : path) : M video_info :=
  match ffprobe e p with
  | inl msg => raise (ProcessingError msg)
  | inr payload =>
      let width := default 0 (fp_width payload) in
      let height := default 0 (fp_height payload) in
      let duration := default 0%Q (fp_duration payload) in
      if negb (Py.truthy_Z width) || negb (Py.truthy_Z height)
      then raise (ProcessingError "Unable to determine source video resolution.")
      else mret (VideoInfo width height duration)
  end.

Definition transcode_variant
    (e : env) (source_path output_path : path) (target_height segment_duration : Z)
  : M video_info :=
  mkdir true (parent output_path) ;;
  match ffmpeg_transcode e source_path output_path target_height
          (crf_for_height target_height) segment_duration with
  | inl msg => raise (ProcessingError msg)
  | inr size =>
      modify_fs (<[output_path := Blob size]>) ;;
      probe_video e output_path
  end.

(** [%03d] *)
Definition pad3 (k : nat) : string :=
  let digits := pretty (Z.of_nat k) in
  String.concat "" (replicate (3 - String.length digits) "0") +:+ digits.

(** The chunk files the segmenter writes for [pattern]. *)
Fixpoint write_chunks (dir : path) (stem : string) (k : nat) (sizes : list Z) (σ : fs) : fs :=
  match sizes with
  | [] => σ
  | size :: sizes' =>
      write_chunks dir stem (S k) sizes'
        (<[dir ++ [stem +:+ "_part_" +:+ pad3 k +:+ ".mp4"] := Blob size]> σ)
  end.

(** The dictionary appended for one [(index, item)] of the enumeration. *)
Definition segment_entry
    (destination_dir : path) (segment_duration : Z) (entry : Z * (string * node))
  : segment :=
  let '(index, item) := entry in
  {| seg_index := index;
     seg_path := to_relative (destination_dir ++ [item.1]);
     seg_size_bytes := st_size item.2;
     seg_duration := segment_duration;
     seg_label := "Segment " +:+ Py.str index |}.

(** The loop of [segment_video] over the sorted, enumerated directory. *)
Definition segment_entries (destination_dir : path) (segment_duration : Z) (σ : fs)
  : list segment :=
  map (segment_entry destination_dir segment_duration)
      (Py.enumerate 1 (Py.sorted_by_str fst (glob_mp4 destination_dir σ))).

Definition segment_video
    (e : env) (source_path destination_dir : path) (segment_duration : Z)
  : M (list segment) :=
  mkdir true destination_dir ;;
  match ffmpeg_segment e source_path segment_duration with
  | inl msg => raise (ProcessingError msg)
  | inr sizes =>
      modify_fs (write_chunks destination_dir
                   (Py.stem (default "" (last source_path))) 0 sizes) ;;
      σ ← get_fs;
      mret (segment_entries destination_dir segment_duration σ)
  end.

(** ** [sanitize_basename], [allowed_file] *)

Definition is_alnum (c : ascii) : bool :=
  let n := nat_of_ascii c in
  ((48 <=? n) && (n <=? 57) || (65 <=? n) && (n <=? 90) || (97 <=? n) && (n <=? 122))%nat.

Definition is_slug_char (c : ascii) : bool := is_alnum c || Ascii.eqb c "-"%char.

Definition lower_ascii (c : ascii) : ascii :=
  let n := nat_of_ascii c in
  if ((65 <=? n) && (n <=? 90))%nat then ascii_of_nat (n + 32) else c.

Fixpoint lower (s : string) : string :=
  match s with
  | EmptyString => EmptyString
  | String c s' => String (lower_ascii c) (lower s')
  end.

(** [re.sub(r"[^A-Za-z0-9-]+", "-", s)]; [in_run] tells that the previous
    character was already replaced. *)
Fixpoint sub_runs (in_run : bool) (s : string) : string :=
  match s with
  | EmptyString => EmptyString
  | String c s' =>
      if is_slug_char c then String c (sub_runs false s')
      else if in_run then sub_runs true s'
      else String "-"%char (sub_runs true s')
  end.

Fixpoint lstrip_dash (s : string) : string :=
  match s with
  | String c s' => if Ascii.eqb c "-"%char then lstrip_dash s' else s
  | EmptyString => EmptyString
  end.

Definition strip_dash (s : string) : string :=
  String.rev (lstrip_dash (String.rev (lstrip_dash s))).

Definition sanitize_basename (filename : string) : string :=
  let stem := Py.stem filename in
  let slug := lower (strip_dash (sub_runs false stem)) in
  if Py.truthy_str slug then slug else "playlist".

Definition RESOLUTION_PRESETS : list Z := [2160; 1440; 1080; 720; 480; 360].
Definition ALLOWED_EXTENSIONS : list string := ["mp4"; "mov"; "mkv"; "webm"].

(** [filename.rsplit(".", 1)[1]] when the name has a dot. *)
Definition extension (filename : string) : option string :=
  match Py.rfind_dot filename 0 None with
  | Some i => Some (String.substring (S i) (String.length filename - S i) filename)
  | None => None
  end.

Definition allowed_file (filename : string) : bool :=
  match extension filename with
  | Some ext => bool_decide (lower ext ∈ ALLOWED_EXTENSIONS)
  | None => false
  end.

(** ** [upload] *)

(** The submitted form: the file part's name ([None]: no file part), the
    values of [resolutions], the value of [segment_duration] if present. *)
Record upload_form := UploadForm {
  video_file : option string;
  form_resolutions : list string;
  form_segment_duration : option string
}.

Inductive flash :=
| FlashError (message : string)
| FlashUnexpected (e : exn)
| FlashSuccess (safe_filename : string) (renditions : nat)
| FlashInfo (skipped : list Z).

(** Every path of [upload] answers with a redirect to [home]; what differs is
    what was flashed and whether the session records the playlist. *)
Record response := Response {
  flashes : list flash;
  last_upload_id : option string
}.

Definition rejected (message : string) : response :=
  Response [FlashError message] None.

(** The loop over [request.form.getlist("resolutions")]. *)
Fixpoint parse_resolutions (e : env) (values : list string) : list Z :=
  match values with
  | [] => []
  | value :: values' =>
      match py_int e value with
      | None => parse_resolutions e values'
      | Some resolution =>
          if bool_decide (resolution ∈ RESOLUTION_PRESETS)
          then resolution :: parse_resolutions e values'
          else parse_resolutions e values'
      end
  end.

(** [int(request.form.get("segment_duration", 30))] *)
Definition parse_segment_duration (e : env) (form : upload_form) : option Z :=
  match form_segment_duration form with
  | None => Some 30
  | Some value => py_int e value
  end.

(** One turn of [for target in targets]. *)
Definition process_target
    (e : env) (variants_dir segments_dir original_path : path)
    (base_stem : string) (source_height segment_duration target : Z)
  : M variant :=
  let variant_dir := variants_dir ++ [Py.str target +:+ "p"] in
  mkdir true variant_dir ;;
  let variant_filename := base_stem +:+ "_" +:+ Py.str target +:+ "p.mp4" in
  let variant_path := variant_dir ++ [variant_filename] in
  variant_info ← transcode_variant e original_path variant_path target segment_duration;
  variant_segments ←
    segment_video e variant_path (segments_dir ++ [Py.str target +:+ "p"])
      segment_duration;
  variant_size_bytes ← stat_size variant_path;
  mret {| v_label :=
            Some (Py.str target +:+ "p" +:+
                  (if target =? source_height then " (master)" else ""));
          v_height := Some (vi_height variant_info);
          v_width := Some (vi_width variant_info);
          v_duration := Some (vi_duration variant_info);
          v_file := Some (to_relative variant_path);
          v_segments := Some variant_segments;
          v_is_master := Some (target =? source_height);
          v_size_bytes := Some variant_size_bytes;
          v_bitrate_kbps :=
            Some (recorded_bitrate e variant_size_bytes (vi_duration variant_info)
                    segment_duration variant_segments) |}.

(** [with manifest_path.open("w") as handle: json.dump(payload, handle)] as
    the list of its file operations, and run in sequence. *)
Definition save_manifest_steps (manifest_path : path) (chunks : list string)
  : list (M unit) :=
  open_w manifest_path (Text "") :: map (handle_write manifest_path) chunks.

Fixpoint run_steps (steps : list (M unit)) : M unit :=
  match steps with
  | [] => mret ()
  | step :: steps' => step ;; run_steps steps'
  end.

Definition save_manifest (manifest_path : path) (chunks : list string) : M unit :=
  run_steps (save_manifest_steps manifest_path chunks).

(** The body of the [try] block. *)
Definition upload_body
    (e : env) (playlist_id safe_filename : string)
    (requested : list Z) (segment_duration : Z)
  : M response :=
  let playlist_dir := [playlist_id] in
  let source_dir := playlist_dir ++ ["source"] in
  let variants_dir := playlist_dir ++ ["variants"] in
  let segments_dir := playlist_dir ++ ["segments"] in
  let manifest_path := playlist_dir ++ ["manifest.json"] in
  mkdir false source_dir ;;
  mkdir false variants_dir ;;
  mkdir false segments_dir ;;
  let original_path := source_dir ++ [safe_filename] in
  save_upload original_path (upload_size e) ;;
  source_info ← probe_video e original_path;
  let source_height := vi_height source_info in
  let p := plan source_height requested in
  let base_stem := Py.stem safe_filename in
  manifest_variants ←
    mapM (process_target e variants_dir segments_dir original_path base_stem
            source_height segment_duration)
         (targets p);
  let manifest_payload :=
    {| m_playlist_id := Some playlist_id;
       m_created_at := Some (utcnow_iso e +:+ "Z");
       m_created_at_ts := Some (utcnow_ts e);
       m_segment_duration := Some segment_duration;
       m_requested_resolutions := Some (requested_resolutions p);
       m_skipped_resolutions := Some (skipped_resolutions p);
       m_source :=
         Some {| s_filename := Some safe_filename;
                 s_path := Some (to_relative original_path);
                 s_width := Some (vi_width source_info);
                 s_height := Some (vi_height source_info);
                 s_duration := Some (vi_duration source_info) |};
       m_variants := Some manifest_variants |} in
  save_manifest manifest_path (json_dump e manifest_payload) ;;
  mret {| flashes :=
            FlashSuccess safe_filename (length manifest_variants) ::
            match skipped_resolutions p with
            | [] => []
            | skipped => [FlashInfo skipped]
            end;
          last_upload_id := Some playlist_id |}.

(** The [try] with its two [except] clauses; both roll the playlist back. *)
Definition upload_pipeline
    (e : env) (playlist_id safe_filename : string)
    (requested : list Z) (segment_duration : Z)
  : M response :=
  try_except
    (upload_body e playlist_id safe_filename requested segment_duration)
    (λ exc,
       cleanup_playlist [playlist_id] ;;
       mret (Response
               [match exc with
                | ProcessingError msg => FlashError msg
                | _ => FlashUnexpected exc
                end]
               None)).

Definition playlist_id_of (e : env) (safe_filename : string) : string :=
  sanitize_basename safe_filename +:+ "-" +:+ utcnow_stamp e.

(** What the checks before the [try] block hand to it. *)
Record accepted := Accepted {
  acc_requested : list Z;
  acc_segment_duration : Z;
  acc_safe_filename : string;
  acc_playlist_id : string
}.

(** The checks of [upload] before any file is touched: the message flashed on
    rejection, or the values the pipeline runs with. *)
Definition validate_upload (e : env) (form : upload_form) : string + accepted :=
  match video_file form with
  | None => inl "Choose a video file to upload."
  | Some filename =>
      if negb (Py.truthy_str filename)
      then inl "Choose a video file to upload."
      else if negb (allowed_file filename)
      then inl "Unsupported file type. Please upload MP4, MOV, MKV, or WEBM."
      else
        match parse_resolutions e (form_resolutions form) with
        | [] => inl "Select at least one target resolution."
        | requested =>
            match parse_segment_duration e form with
            | None => inl "Provide a valid segment duration in seconds."
            | Some segment_duration =>
                let segment_duration := clamp_segment_duration segment_duration in
                let safe_filename := secure_filename e filename in
                if negb (Py.truthy_str safe_filename)
                then inl "Could not determine a safe filename for the upload."
                else
                  inr {| acc_requested := requested;
                         acc_segment_duration := segment_duration;
                         acc_safe_filename := safe_filename;
                         acc_playlist_id := playlist_id_of e safe_filename |}
            end
        end
  end.

Definition upload (e : env) (form : upload_form) : M response :=
  match validate_upload e form with
  | inl message => mret (rejected message)
  | inr a =>
      upload_pipeline e (acc_playlist_id a) (acc_safe_filename a)
        (acc_requested a) (acc_segment_duration a)
  end.

(** The states a reader may find while [steps] run: the file system after
    each step, up to the first one that raises. *)
Fixpoint run_trace (steps : list (M unit)) (σ : fs) : list fs :=
  match steps with
  | [] => []
  | step :: steps' =>
      match step σ with
      | (Ok _, σ') => σ' :: run_trace steps' σ'
      | (Raise _, σ') => [σ']
      end
  end.

(** What a file holding [content] holds after each of the writes of [chunks]. *)
Fixpoint written (content : string) (chunks : list string) : list string :=
  match chunks with
  | [] => []
  | chunk :: chunks' => (content +:+ chunk) :: written (content +:+ chunk) chunks'
  end.

(** ** [build_player_payload] *)

(** A segment as the player payload reads it: a dictionary, or the bare path
    string of an older manifest. *)
Inductive segment_doc :=
| SegPath (segment_path : string)
| SegDict (index : option Z) (path label : option string)
          (size_bytes duration : option Z).

(** The keys of a variant and of the manifest that [build_player_payload]
    reads. *)
Record player_variant := PlayerVariant {
  pv_label : option string;
  pv_height : option Z;
  pv_duration : option Q;
  pv_file : option string;
  pv_segments : option (list segment_doc);
  pv_is_master : option bool;
  pv_bitrate_kbps : option Q;
  pv_size_bytes : option Z
}.

Record player_manifest := PlayerManifest {
  pm_playlist_id : option string;
  pm_segment_duration : option Z;
  pm_variants : option (list player_variant)
}.

Record segment_payload := SegmentPayload {
  sp_index : Z;
  sp_label : string;
  sp_url : string;
  sp_size_bytes : option Z;
  sp_duration : option Z
}.

Record variant_payload := VariantPayload {
  vp_label : string;
  vp_height : option Z;
  vp_duration : option Q;
  vp_file : string;
  vp_segments : list segment_payload;
  vp_is_master : bool;
  vp_key : string;
  vp_bitrate_kbps : option Q;
  vp_size_bytes : option Z
}.

Record player_payload := PlayerPayload {
  pp_playlist_id : option string;
  pp_segment_duration : option Z;
  pp_variants : list variant_payload
}.

(** One turn of the loop over the segments: [None] is [continue]. *)
Definition segment_payload_of
    (url_for : string → string) (manifest_segment_duration : option Z)
    (entry : Z * segment_doc) : option segment_payload :=
  let '(segment_index, segment) := entry in
  let '(segment_path, segment_label, segment_size, segment_duration,
        segment_idx_value) :=
    match segment with
    | SegDict index path label size_bytes duration =>
        (path,
         Py.or_str label ("Segment " +:+ Py.str (default segment_index index)),
         size_bytes, duration, default segment_index index)
    | SegPath segment_path =>
        (Some segment_path, "Segment " +:+ Py.str segment_index,
         None, manifest_segment_duration, segment_index)
    end in
  match segment_path with
  | Some segment_path =>
      if Py.truthy_str segment_path
      then Some {| sp_index := segment_idx_value;
                   sp_label := segment_label;
                   sp_url := url_for segment_path;
                   sp_size_bytes := segment_size;
                   sp_duration := segment_duration |}
      else None
  | None => None
  end.

(** [str(variant.get("height") or variant.get("label") or variant_index)] *)
Definition variant_key (variant : player_variant) (variant_index : Z) : string :=
  match pv_height variant with
  | Some height =>
      if Py.truthy_Z height then Py.str height
      else Py.or_str (pv_label variant) (Py.str variant_index)
  | None => Py.or_str (pv_label variant) (Py.str variant_index)
  end.

(** One turn of the loop over the variants: [None] is [continue]. *)
Definition variant_payload_of
    (url_for : string → string) (manifest_segment_duration : option Z)
    (entry : Z * player_variant) : option variant_payload :=
  let '(variant_index, variant) := entry in
  let segments_payload :=
    omap (segment_payload_of url_for manifest_segment_duration)
         (Py.enumerate 1 (default [] (pv_segments variant))) in
  match pv_file variant with
  | Some variant_file =>
      if Py.truthy_str variant_file
      then Some {| vp_label := default "" (pv_label variant);
                   vp_height := pv_height variant;
                   vp_duration := pv_duration variant;
                   vp_file := url_for variant_file;
                   vp_segments := segments_payload;
                   vp_is_master := default false (pv_is_master variant);
                   vp_key := variant_key variant variant_index;
                   vp_bitrate_kbps := pv_bitrate_kbps variant;
                   vp_size_bytes := pv_size_bytes variant |}
      else None
  | None => None
  end.

(** [url_for] is Flask's [url_for("media", filename=...)]. *)
Definition build_player_payload
    (url_for : string → string) (manifest : player_manifest) : player_payload :=
  let variants_payload :=
    omap (variant_payload_of url_for (pm_segment_duration manifest))
         (Py.enumerate 1 (default [] (pm_variants manifest))) in
  {| pp_playlist_id := pm_playlist_id manifest;
     pp_segment_duration := pm_segment_duration manifest;
     pp_variants :=
       Py.sorted_by_rev (λ item, default 0 (vp_height item)) variants_payload |}.

(** The manifest [upload] writes, as [build_player_payload] reads it. *)
Definition player_segment (s : segment) : segment_doc :=
  SegDict (Some (seg_index s)) (Some (seg_path s)) (Some (seg_label s))
    (Some (seg_size_bytes s)) (Some (seg_duration s)).

Definition player_view (manifest : manifest) : player_manifest :=
  {| pm_playlist_id := m_playlist_id manifest;
     pm_segment_duration := m_segment_duration manifest;
     pm_variants :=
       map (λ v, {| pv_label := v_label v;
                    pv_height := v_height v;
                    pv_duration := v_duration v;
                    pv_file := v_file v;
                    pv_segments := map player_segment <$> v_segments v;
                    pv_is_master := v_is_master v;
                    pv_bitrate_kbps := v_bitrate_kbps v;
                    pv_size_bytes := v_size_bytes v |})
       <$> m_variants manifest |}.

(** ** A sample environment *)

(** A decimal reader for the examples: an optional sign and ASCII digits. *)
Fixpoint digits_value (s : string) (acc : Z) : option Z :=
  match s with
  | EmptyString => Some acc
  | String c s' =>
      let n := nat_of_ascii c in
      if ((48 <=? n) && (n <=? 57))%nat
      then digits_value s' (10 * acc + Z.of_nat (n - 48))
      else None
  end.

Definition decimal_int (s : string) : option Z :=
  match s with
  | EmptyString => None
  | String "-" (String _ _ as s') => Z.opp <$> digits_value s' 0
  | String "+" (String _ _ as s') => digits_value s' 0
  | _ => digits_value s 0
  end.

(** The binary64 number nearest to a rational, ties to the even significand
    (subnormals included, no overflow to infinity). *)
Definition binary64 (q : Q) : Q :=
  if Qeq_bool q 0 then 0%Q
  else
    let a := Qabs q in
    let e0 := Z.log2 (Qnum a) - Z.log2 (Zpos (Qden a)) - 52 in
    let e1 := if Qle_bool (2 ^ 52) (a / 2 ^ e0) then e0 else e0 - 1 in
    let e := Z.max e1 (-1074) in
    let m := Py.round_half_even (a / 2 ^ e) in
    Qred ((if Qle_bool 0 q then 1 else -1) * inject_Z m * 2 ^ e)%Q.

(** A 1920x1080 source of 120 seconds; every rendition keeps the requested
    height and splits into four chunks.  Division is correctly rounded, as
    IEEE 754 has it, and [round(x, 2)] is the float nearest to the decimal
    rounding of the exact value of [x], as CPython computes it. *)
Definition sample_env : env :=
  {| py_int := decimal_int;
     py_truediv := λ a b, binary64 (a / b);
     py_round2 := λ x, binary64 (Py.round2 x);
     secure_filename := id;
     utcnow_stamp := "20240101120000";
     utcnow_iso := "2024-01-01T12:00:00";
     utcnow_ts := 1704110400%Q;
     upload_size := 5000000;
     ffprobe := λ p,
       match p with
       | [_; "source"; _] => inr (FfprobePayload (Some 1920) (Some 1080) (Some 120%Q))
       | [_; "variants"; "1080p"; _] => inr (FfprobePayload (Some 1920) (Some 1080) (Some 120%Q))
       | [_; "variants"; "720p"; _] => inr (FfprobePayload (Some 1280) (Some 720) (Some 120%Q))
       | [_; "variants"; "480p"; _] => inr (FfprobePayload (Some 854) (Some 480) (Some 120%Q))
       | _ => inl "No such file or directory"
       end;
     ffmpeg_transcode := λ _ _ target_height _ _, inr (target_height * 3000);
     ffmpeg_segment := λ _ _, inr [400; 400; 400; 300];
     json_dump := λ payload,
       ["{"; "playlist_id: "; default "" (m_playlist_id payload); "}"] |}.

(** The same, with an encoder that exits non-zero on the 720p target. *)
Definition failing_env : env :=
  {| py_int := py_int sample_env;
     py_truediv := py_truediv sample_env;
     py_round2 := py_round2 sample_env;
     secure_filename := secure_filename sample_env;
     utcnow_stamp := utcnow_stamp sample_env;
     utcnow_iso := utcnow_iso sample_env;
     utcnow_ts := utcnow_ts sample_env;
     upload_size := upload_size sample_env;
     ffprobe := ffprobe sample_env;
     ffmpeg_transcode := λ source_path output_path target_height crf segment_duration,
       if target_height =? 720 then inl "Conversion failed!"
       else ffmpeg_transcode sample_env source_path output_path target_height
              crf segment_duration;
     ffmpeg_segment := ffmpeg_segment sample_env;
     json_dump := json_dump sample_env |}.

Definition sample_form : upload_form :=
  {| video_file := Some "clip.mp4";
     form_resolutions := ["2160"; "1080"; "720"; "480"; "abc"; "999"];
     form_segment_duration := Some "30" |}.

(** ** Notions and sample data used by the statements *)

(** [evaluated t as H] adds [H : t = v], [v] being the value of [t]. *)
Tactic Notation "evaluated" constr(t) "as" ident(H) :=
  let v := eval vm_compute in t in
  assert (t = v) as H by (vm_compute; reflexivity).

Ltac crf_cases :=
  repeat match goal with
         | |- context [(?a <=? ?b)] => destruct (Z.leb_spec0 a b)
         end;
  first [reflexivity | lia].

(** A variant is flagged when its ["is_master"] is true. *)
Definition flagged (variant : variant) : bool := default false (v_is_master variant).

Definition two_masters : manifest :=
  {| m_playlist_id := Some "clip-20240101120000";
     m_created_at := None; m_created_at_ts := None;
     m_segment_duration := Some 30;
     m_requested_resolutions := None; m_skipped_resolutions := None;
     m_source := None;
     m_variants :=
       Some [MkVariant (Some "480p") (Some 480) None None (Some "v/480.mp4")
               None (Some false) None None;
             MkVariant (Some "1080p") (Some 1080) None None (Some "v/1080.mp4")
               None (Some true) None None;
             MkVariant (Some "720p") (Some 720) None None (Some "v/720.mp4")
               None (Some true) None None] |}.

(** A legacy manifest: no variant carries ["is_master"]. *)
Definition legacy_first : variant :=
  MkVariant None (Some 1080) None None (Some "v/a.mp4") None None None None.

Definition legacy_second : variant :=
  MkVariant None (Some 720) None None (Some "v/b.mp4") None None None None.

Definition legacy_pair : manifest :=
  {| m_playlist_id := Some "legacy";
     m_created_at := None; m_created_at_ts := None;
     m_segment_duration := None;
     m_requested_resolutions := None; m_skipped_resolutions := None;
     m_source := None;
     m_variants := Some [legacy_first; legacy_second] |}.

Definition one_master : manifest :=
  {| m_playlist_id := Some "clip-20240101120000";
     m_created_at := None; m_created_at_ts := None;
     m_segment_duration := Some 30;
     m_requested_resolutions := None; m_skipped_resolutions := None;
     m_source := None;
     m_variants :=
       Some [MkVariant (Some "1080p (master)") (Some 1080) None None
               (Some "v/1080.mp4") None (Some true) None None;
             MkVariant (Some "480p") (Some 480) None None (Some "v/480.mp4")
               None (Some false) None None;
             MkVariant (Some "720p") None None None (Some "v/720.mp4")
               None (Some false) None None] |}.

Definition sample_variant_path : path := ["clip"; "variants"; "720p"; "clip_720p.mp4"].
Definition sample_segments_dir : path := ["clip"; "segments"; "720p"].

(** The effective duration in the design document's words: the measured
    duration when it is positive, the nominal length otherwise. *)
Definition effective_duration_as_claimed
    (duration : Q) (segment_duration : Z) (segment_count : nat) : Q :=
  if Qle_bool duration 0
  then inject_Z (segment_duration * Z.max (Z.of_nat segment_count) 1)
  else duration.

(** The file-part checks that precede the resolutions. *)
Definition file_checks_pass (form : upload_form) : Prop :=
  ∃ filename, video_file form = Some filename ∧ filename ≠ "" ∧
              allowed_file filename = true.

(** The manifests that make the listing fail: a file that is not UTF-8 text,
    a document that is not a JSON object, and an object whose ["source"] is
    not an object, whose ["variants"] cannot be iterated over or yield a value
    that is not an object, or whose ["created_at_ts"] does not convert to a
    float. *)
Definition malformed_document (data : manifest_document) : bool :=
  match md_source data with SourceNotObject => true | _ => false end
  || match md_variants data with
     | VariantsNotIterable => true
     | VariantsIterable items =>
         existsb (λ item, match item with
                          | VariantNotObject => true
                          | VariantObject _ => false
                          end) items
     | VariantsAbsent => false
     end
  || match md_created_at_ts data with
     | Some (EpochOther (Raise _)) => true
     | _ => false
     end.

Definition uncaught (f : manifest_file) : bool :=
  match mf_load f with
  | RaisesOSError | RaisesJSONDecodeError => false
  | RaisesUnicodeDecodeError | LoadsNonObject => true
  | Loads data => malformed_document data
  end.

(** The entry of a file whose document loads as an object. *)
Definition loaded_entry (f : manifest_file) : option catalog_entry :=
  match mf_load f with
  | Loads data =>
      match catalog_entry_of_document f data with
      | Ok entry => Some entry
      | Raise _ => None
      end
  | _ => None
  end.

(** The epoch an entry is sorted by. *)
Definition epoch_key (item : catalog_entry) : Q :=
  match sort_key item with
  | Ok key => key
  | Raise _ => 0%Q
  end.

(** A manifest holding nothing but, possibly, its epoch. *)
Definition epoch_manifest (ts : option Q) : manifest :=
  {| m_playlist_id := None; m_created_at := None; m_created_at_ts := ts;
     m_segment_duration := None; m_requested_resolutions := None;
     m_skipped_resolutions := None; m_source := None; m_variants := None |}.

(** A catalog of five playlists: two carry the same epoch, one has no epoch
    field, one is not JSON and one cannot be opened. *)
Definition sample_catalog : list manifest_file :=
  [ManifestFile "e" (Loads (document_of (epoch_manifest (Some 200%Q)))) (Some 1%Q);
   ManifestFile "d" RaisesOSError None;
   ManifestFile "c" RaisesJSONDecodeError (Some 500%Q);
   ManifestFile "b" (Loads (document_of (epoch_manifest (Some 200%Q)))) (Some 2%Q);
   ManifestFile "a" (Loads (document_of (epoch_manifest None))) (Some 300%Q)].

(** A catalog of two playlists: the manifest of the first is in order, that
    of the second is not UTF-8 text. *)
Definition corrupt_catalog : list manifest_file :=
  [ManifestFile "a" (Loads (document_of (epoch_manifest (Some 200%Q)))) (Some 1%Q);
   ManifestFile "b" RaisesUnicodeDecodeError (Some 2%Q)].

(** The playlist directory alone, and with a manifest left by an earlier save. *)
Definition playlist_only : fs := {[ ["clip"] := Dir ]}.

Definition playlist_with_manifest : fs :=
  <[ ["clip"; "manifest.json"] := Text "{old}" ]> playlist_only.

(** The file system the first sample upload leaves. *)
Definition first_run_fs : fs := (upload sample_env sample_form ∅).2.

(** The characters of a string, and the characters of a slug: lower-case
    letters, digits and the dash. *)
Definition chars (s : string) : list ascii := String.list_ascii_of_string s.

(** The file of a variant and the path of a segment that
    [build_player_payload] keeps: present and not empty. *)
Definition kept_file (variant : player_variant) : option string :=
  match pv_file variant with
  | Some variant_file =>
      if Py.truthy_str variant_file then Some variant_file else None
  | None => None
  end.

Definition kept_path (segment : segment_doc) : option string :=
  match segment with
  | SegPath segment_path | SegDict _ (Some segment_path) _ _ _ =>
      if Py.truthy_str segment_path then Some segment_path else None
  | SegDict _ None _ _ _ => None
  end.

(** The label [list_manifests] derives from a variant: [None] where the
    height is missing or 0. *)
Definition resolution_label (variant : variant) : option string :=
  match v_height variant with
  | Some height => if height =? 0 then None else Some (Py.str height +:+ "p")
  | None => None
  end.

(** The name of the [k]-th chunk the segmenter writes, counted from 0, and
    the entry [segment_video] is expected to record for it. *)
Definition chunk_name (stem : string) (k : nat) : string :=
  stem +:+ "_part_" +:+ pad3 k +:+ ".mp4".

Definition chunk_entry
    (destination_dir : path) (stem : string) (segment_duration : Z)
    (k : nat) (size : Z) : segment :=
  {| seg_index := Z.of_nat k + 1;
     seg_path := to_relative (destination_dir ++ [chunk_name stem k]);
     seg_size_bytes := size;
     seg_duration := segment_duration;
     seg_label := "Segment " +:+ Py.str (Z.of_nat k + 1) |}.

Fixpoint chunk_files (stem : string) (k : nat) (sizes : list Z)
  : list (string * node) :=
  match sizes with
  | [] => []
  | size :: sizes' => (chunk_name stem k, Blob size) :: chunk_files stem (S k) sizes'
  end.

Definition is_digit (c : ascii) : bool :=
  let n := nat_of_ascii c in ((48 <=? n) && (n <=? 57))%nat.

Definition is_lower_slug_char (c : ascii) : bool :=
  let n := nat_of_ascii c in
  ((48 <=? n) && (n <=? 57) || (97 <=? n) && (n <=? 122))%nat
  || Ascii.eqb c "-"%char.

(** [keeps I m]: the code [m] leaves a file system satisfying [I] in one
    satisfying [I], whether it returns or raises. *)
Definition keeps {A : Type} (I : fs → Prop) (m : M A) : Prop :=
  ∀ σ r σ', I σ → m σ = (r, σ') → I σ'.

(** The file system [σ] has the playlist directory, and agrees with [σ0]
    everywhere outside it. *)
Definition inside (playlist_id : string) (σ0 σ : fs) : Prop :=
  lookup_node [playlist_id] σ = Some Dir ∧
  ∀ q : path, ¬ [playlist_id] `prefix_of` q →
              lookup_node q σ = lookup_node q σ0.

(** [kept A B σ0 σ]: every node of [σ0] that lies neither under [A] nor
    under [B] is in [σ], unchanged. *)
Definition kept (A B : path) (σ0 σ : fs) : Prop :=
  ∀ (q : path) (n : node),
    lookup_node q σ0 = Some n →
    ¬ A `prefix_of` q → ¬ B `prefix_of` q → lookup_node q σ = Some n.

(** [vacant D σ]: there is nothing at [D] nor under it. *)
Definition vacant (D : path) (σ : fs) : Prop :=
  ∀ q : path, D `prefix_of` q → lookup_node q σ = None.

(** A file system in which whatever is there lies in directories that are
    there: under a path that is free, every path is free. *)
Definition rooted (σ : fs) : Prop :=
  ∀ p q : path, p `prefix_of` q → lookup_node p σ = None → lookup_node q σ = None.

(** The manifest [upload] assembles from the probe of the source and the
    variant dictionaries. *)
Definition manifest_payload_of
    (e : env) (playlist_id safe_filename : string) (requested : list Z)
    (segment_duration : Z) (source_info : video_info) (variants : list variant)
  : manifest :=
  let p := plan (vi_height source_info) requested in
  {| m_playlist_id := Some playlist_id;
     m_created_at := Some (utcnow_iso e +:+ "Z");
     m_created_at_ts := Some (utcnow_ts e);
     m_segment_duration := Some segment_duration;
     m_requested_resolutions := Some (requested_resolutions p);
     m_skipped_resolutions := Some (skipped_resolutions p);
     m_source :=
       Some {| s_filename := Some safe_filename;
               s_path := Some (to_relative [playlist_id; "source"; safe_filename]);
               s_width := Some (vi_width source_info);
               s_height := Some (vi_height source_info);
               s_duration := Some (vi_duration source_info) |};
     m_variants := Some variants |}.

(** * Part II: properties *)

(** ** The stable sort *)

Section StableSortFacts.
Context {A : Type} (le : A → A → bool).
Implicit Types (x y : A) (l : list A).

Let R := λ x y, le x y = true.

Lemma insert_sorted_perm x l : Py.insert_sorted le x l ≡ₚ x :: l.
Proof.
  induction l as [|y l IH]; simpl; [done|].
  destruct (le x y); [done|]. rewrite IH. apply Permutation_swap.
Qed.

Lemma stable_sort_perm l : Py.stable_sort le l ≡ₚ l.
Proof.
  induction l as [|x l IH]; simpl; [done|].
  rewrite insert_sorted_perm. by f_equiv.
Qed.

Lemma stable_sort_elem_of x l : x ∈ Py.stable_sort le l ↔ x ∈ l.
Proof. by rewrite stable_sort_perm. Qed.

Lemma stable_sort_length l : length (Py.stable_sort le l) = length l.
Proof. by rewrite stable_sort_perm. Qed.

(** Stability: elements that are pairwise [le] to each other (such as those
    sharing one key) come out in the order they came in. *)
Lemma insert_sorted_filter (P : A → bool) x l :
  (∀ y z, P y = true → P z = true → le y z = true) →
  List.filter P (Py.insert_sorted le x l) = List.filter P (x :: l).
Proof.
  intros HP. induction l as [|y l IH]; [done|].
  cbn [Py.insert_sorted]. destruct (le x y) eqn:Hxy; [done|].
  cbn [List.filter] in *. rewrite IH.
  destruct (P x) eqn:Hx; [|done]. destruct (P y) eqn:Hy; [|done].
  rewrite HP in Hxy by done. done.
Qed.

Lemma stable_sort_stable (P : A → bool) l :
  (∀ y z, P y = true → P z = true → le y z = true) →
  List.filter P (Py.stable_sort le l) = List.filter P l.
Proof.
  intros HP. induction l as [|x l IH]; [done|].
  cbn [Py.stable_sort foldr]. rewrite insert_sorted_filter by done.
  cbn [List.filter]. fold (Py.stable_sort le l). by rewrite IH.
Qed.

Hypothesis le_total : ∀ x y, le x y = true ∨ le y x = true.

Lemma insert_sorted_Sorted x l :
  Sorted R l → Sorted R (Py.insert_sorted le x l).
Proof.
  induction 1 as [|y l Hl IH Hhd]; simpl.
  - by repeat constructor.
  - destruct (le x y) eqn:Hxy.
    + constructor; [by constructor|]. by constructor.
    + constructor; [done|].
      assert (R y x) as Hyx by (destruct (le_total x y); [congruence|done]).
      destruct Hhd as [|z l' Hyz]; simpl.
      * by constructor.
      * destruct (le x z); by constructor.
Qed.

Lemma stable_sort_Sorted l : Sorted R (Py.stable_sort le l).
Proof.
  induction l as [|x l IH]; simpl; [constructor|].
  by apply insert_sorted_Sorted.
Qed.

Hypothesis le_trans : ∀ x y z, le x y = true → le y z = true → le x z = true.

Lemma stable_sort_StronglySorted l : StronglySorted R (Py.stable_sort le l).
Proof.
  apply Sorted_StronglySorted; [|apply stable_sort_Sorted].
  intros x y z. apply le_trans.
Qed.

End StableSortFacts.

Lemma StronglySorted_filter {A} (R : relation A) (P : A → Prop)
    `{!∀ x, Decision (P x)} (l : list A) :
  StronglySorted R l → StronglySorted R (filter P l).
Proof.
  induction 1 as [|x l Hl IH Hx]; [constructor|].
  rewrite filter_cons. case_decide; [|done].
  constructor; [done|].
  apply Forall_forall. intros y [_ Hy]%list_elem_of_filter.
  by eapply Forall_forall in Hx.
Qed.

Lemma StronglySorted_mono {A} (R1 R2 : relation A) (l : list A) :
  (∀ x y, R1 x y → R2 x y) → StronglySorted R1 l → StronglySorted R2 l.
Proof.
  intros HR. induction 1 as [|x l Hl IH Hx]; constructor; [done|].
  eapply Forall_impl; [done|]. intros y. apply HR.
Qed.

Lemma StronglySorted_strict (l : list Z) :
  StronglySorted (λ a b, b ≤ a) l → NoDup l → StronglySorted Z.gt l.
Proof.
  induction 1 as [|x l Hl IH Hx]; intros Hnd; [constructor|].
  apply NoDup_cons in Hnd as [Hnotin Hnd].
  constructor; [by apply IH|].
  apply Forall_forall. intros y Hy.
  assert (y ≤ x) by (by eapply Forall_forall in Hx).
  assert (y ≠ x) by (intros ->; done). lia.
Qed.

Lemma StronglySorted_gt_NoDup (l : list Z) :
  StronglySorted Z.gt l → NoDup l.
Proof.
  induction 1 as [|x l Hl IH Hx]; [constructor|].
  apply NoDup_cons. split; [|done].
  intros Hin. eapply Forall_forall in Hx; [|done]. lia.
Qed.

(** [sorted(set(l), reverse=True)]: the elements of [l], strictly decreasing. *)
Lemma sorted_set_rev_elem_of (l : list Z) (x : Z) :
  x ∈ Py.sorted_set_rev l ↔ x ∈ l.
Proof.
  unfold Py.sorted_set_rev, Py.sorted_by_rev.
  rewrite stable_sort_elem_of, elem_of_elements. set_solver.
Qed.

Lemma sorted_set_rev_sorted (l : list Z) :
  StronglySorted Z.gt (Py.sorted_set_rev l).
Proof.
  apply StronglySorted_strict.
  - unfold Py.sorted_set_rev, Py.sorted_by_rev.
    eapply StronglySorted_mono; [|apply stable_sort_StronglySorted].
    + intros a b Hab. simpl in Hab. unfold id in Hab. lia.
    + intros x y. unfold id. lia.
    + intros x y z. unfold id. lia.
  - unfold Py.sorted_set_rev, Py.sorted_by_rev.
    rewrite stable_sort_perm. apply NoDup_elements.
Qed.

(** ** C6: the CRF step table *)

(** C6. [crf_for_height] returns 20 from 2160 up, 21 from 1440, 22 from 1080,
    23 from 720, 24 from 480 and 25 below, the first threshold reached from
    the top deciding; hence a taller rendition never gets a larger value:
    [h2 <= h1] gives [crf h1 <= crf h2]. *)
Theorem crf_for_height_table :
  (∀ h, crf_for_height h =
          if decide (2160 ≤ h) then 20
          else if decide (1440 ≤ h) then 21
          else if decide (1080 ≤ h) then 22
          else if decide (720 ≤ h) then 23
          else if decide (480 ≤ h) then 24
          else 25) ∧
  (∀ h, (2160 ≤ h → crf_for_height h = 20) ∧
        (1440 ≤ h < 2160 → crf_for_height h = 21) ∧
        (1080 ≤ h < 1440 → crf_for_height h = 22) ∧
        (720 ≤ h < 1080 → crf_for_height h = 23) ∧
        (480 ≤ h < 720 → crf_for_height h = 24) ∧
        (h < 480 → crf_for_height h = 25)) ∧
  (∀ h1 h2, h2 ≤ h1 → crf_for_height h1 ≤ crf_for_height h2).
Proof.
  split; [|split].
  - intros h. unfold crf_for_height.
    repeat case_decide; crf_cases.
  - intros h. unfold crf_for_height. repeat split; intros ?; crf_cases.
  - intros h1 h2 Hle. unfold crf_for_height. crf_cases.
Qed.

(** ** C1: the rendition plan *)

Example plan_scenario :
  skipped_resolutions (plan 1080 [2160; 1080; 720; 480]) = [2160] ∧
  targets (plan 1080 [2160; 1080; 720; 480]) = [1080; 720; 480].
Proof. by vm_compute. Qed.

Example plan_unrequested_source_height :
  targets (plan 900 [720; 1080; 720; 480]) = [900; 720; 480] ∧
  skipped_resolutions (plan 900 [720; 1080; 720; 480]) = [1080].
Proof. by vm_compute. Qed.

Lemma plan_lower_targets (H : Z) (R : list Z) :
  tail (targets (plan H R)) = filter (λ res, res < H) (Py.sorted_set_rev R).
Proof.
  cbn [plan targets tail]. rewrite list_filter_filter.
  apply list_filter_iff. intros x. lia.
Qed.

(** C1. For every source height [H] (positive or not) and every requested list
    [R]: the first target is [H]; the other targets are strictly decreasing,
    pairwise distinct, all below [H], and are the requested heights below [H];
    [skipped] holds exactly the elements of [R] above [H], strictly decreasing;
    no target is skipped. *)
Theorem plan_targets_and_skipped (H : Z) (R : list Z) :
  head (targets (plan H R)) = Some H ∧
  StronglySorted Z.gt (tail (targets (plan H R))) ∧
  NoDup (tail (targets (plan H R))) ∧
  Forall (λ t, t < H) (tail (targets (plan H R))) ∧
  (∀ r, r ∈ tail (targets (plan H R)) ↔ r ∈ R ∧ r < H) ∧
  (∀ r, r ∈ skipped_resolutions (plan H R) ↔ r ∈ R ∧ r > H) ∧
  StronglySorted Z.gt (skipped_resolutions (plan H R)) ∧
  (∀ r, r ∈ targets (plan H R) → r ∉ skipped_resolutions (plan H R)).
Proof.
  assert (Hsk : ∀ r, r ∈ skipped_resolutions (plan H R) ↔ r ∈ R ∧ r > H).
  { intros r. cbn [plan skipped_resolutions].
    rewrite list_elem_of_filter, sorted_set_rev_elem_of. tauto. }
  assert (Hlow : ∀ r, r ∈ tail (targets (plan H R)) ↔ r ∈ R ∧ r < H).
  { intros r. rewrite plan_lower_targets.
    rewrite list_elem_of_filter, sorted_set_rev_elem_of. tauto. }
  assert (Hdec : StronglySorted Z.gt (tail (targets (plan H R)))).
  { rewrite plan_lower_targets.
    apply StronglySorted_filter, sorted_set_rev_sorted. }
  split_and!; try done.
  - by apply StronglySorted_gt_NoDup.
  - apply Forall_forall. intros t Ht. apply Hlow in Ht. tauto.
  - cbn [plan skipped_resolutions].
    apply StronglySorted_filter, sorted_set_rev_sorted.
  - intros r Hr Hs. apply Hsk in Hs as [_ Hgt].
    change (targets (plan H R)) with (H :: tail (targets (plan H R))) in Hr.
    apply elem_of_cons in Hr as [->|Hr]; [lia|].
    apply Hlow in Hr. lia.
Qed.

(** ** C2, C9: the playlist summary *)

Lemma summarise_loop_found (variants_data : list variant) mv others :
  fold_left summarise_step variants_data (Some mv, others) =
  (Some mv, others ++ map enriched variants_data).
Proof.
  revert others. induction variants_data as [|v vs IH]; intros others; simpl.
  - by rewrite app_nil_r.
  - rewrite IH. by rewrite <- app_assoc.
Qed.

Lemma summarise_loop_unflagged (variants_data : list variant) others :
  Forall (λ v, flagged v = false) variants_data →
  fold_left summarise_step variants_data (None, others) =
  (None, others ++ map enriched variants_data).
Proof.
  intros Hall. revert others.
  induction Hall as [|v vs Hv Hvs IH]; intros others; simpl.
  - by rewrite app_nil_r.
  - unfold flagged in Hv. rewrite Hv, IH. by rewrite <- app_assoc.
Qed.

Lemma summarise_loop_first_flagged (pre post : list variant) (v : variant) :
  Forall (λ u, flagged u = false) pre →
  flagged v = true →
  fold_left summarise_step (pre ++ v :: post) (None, []) =
  (Some (enriched v), map enriched (pre ++ post)).
Proof.
  intros Hpre Hv. rewrite fold_left_app.
  rewrite summarise_loop_unflagged by done. simpl.
  unfold flagged in Hv. rewrite Hv.
  rewrite summarise_loop_found. by rewrite map_app.
Qed.

Lemma sorted_by_rev_descending {A} (key : A → Z) (l : list A) :
  StronglySorted (λ a b, key b ≤ key a) (Py.sorted_by_rev key l).
Proof.
  eapply StronglySorted_mono; [|apply stable_sort_StronglySorted].
  - intros a b Hab. simpl in Hab. lia.
  - intros x y. lia.
  - intros x y z. lia.
Qed.

Lemma sorted_by_rev_stable {A} (key : A → Z) (k : Z) (l : list A) :
  List.filter (λ a, key a =? k) (Py.sorted_by_rev key l) =
  List.filter (λ a, key a =? k) l.
Proof. apply stable_sort_stable. intros y z. lia. Qed.

Lemma summarise_variants_eq (m : manifest) :
  sm_variants (summarise_manifest m) =
  Py.sorted_by_rev height_key
    (fold_left summarise_step (default [] (m_variants m)) (None, [])).2.
Proof.
  unfold summarise_manifest.
  by destruct (fold_left summarise_step _ _) as [master others].
Qed.

Lemma summarise_master_eq (m : manifest) :
  mv_variant <$> sm_master (summarise_manifest m) =
  match (fold_left summarise_step (default [] (m_variants m)) (None, [])).1,
        default [] (m_variants m) with
  | None, fallback :: _ => Some (fallback_master fallback)
  | master_variant, _ => master_variant
  end.
Proof.
  unfold summarise_manifest.
  destruct (fold_left summarise_step _ _) as [[mv|] others]; simpl; [done|].
  by destruct (default [] (m_variants m)).
Qed.

Lemma enriched_is_master (v : variant) : e_is_master (enriched v) = flagged v.
Proof. done. Qed.

(** C9. When several variants are flagged, the first flagged one in storage
    order (no flagged variant in [pre]) is the master; the variants listed are
    exactly the others, so every later flagged variant [w] stays in the list,
    still flagged: it is neither promoted nor dropped. *)
Theorem summarise_first_flagged_is_master
    (m : manifest) (pre post : list variant) (v : variant) :
  m_variants m = Some (pre ++ v :: post) →
  Forall (λ u, flagged u = false) pre →
  flagged v = true →
  mv_variant <$> sm_master (summarise_manifest m) = Some (enriched v) ∧
  sm_variants (summarise_manifest m) ≡ₚ map enriched (pre ++ post) ∧
  (∀ w, w ∈ post → flagged w = true →
        enriched w ∈ sm_variants (summarise_manifest m) ∧
        e_is_master (enriched w) = true).
Proof.
  intros Hvs Hpre Hv.
  rewrite summarise_master_eq, summarise_variants_eq, Hvs. cbn [from_option id].
  rewrite summarise_loop_first_flagged by done. cbn [fst snd].
  split_and!; [done| |].
  - apply stable_sort_perm.
  - intros w Hw Hfl. split; [|done].
    unfold Py.sorted_by_rev. rewrite stable_sort_elem_of.
    apply list_elem_of_fmap. exists w. split; [done|].
    apply elem_of_app. right. done.
Qed.

Lemma summarise_first_flagged_is_master_witness :
  mv_variant <$> sm_master (summarise_manifest two_masters) =
    Some (VariantView "1080p" (Some 1080) None None (Some "v/1080.mp4") [] 0 true None) ∧
  VariantView "720p" (Some 720) None None (Some "v/720.mp4") [] 0 true None
    ∈ sm_variants (summarise_manifest two_masters).
Proof.
  destruct (summarise_first_flagged_is_master two_masters
    [MkVariant (Some "480p") (Some 480) None None (Some "v/480.mp4")
       None (Some false) None None]
    [MkVariant (Some "720p") (Some 720) None None (Some "v/720.mp4")
       None (Some true) None None]
    (MkVariant (Some "1080p") (Some 1080) None None (Some "v/1080.mp4")
       None (Some true) None None)) as (Hmaster & _ & Hlater).
  - reflexivity.
  - repeat constructor.
  - reflexivity.
  - split; [exact Hmaster|].
    destruct (Hlater (MkVariant (Some "720p") (Some 720) None None
                        (Some "v/720.mp4") None (Some true) None None))
      as [Hkept _]; [left|reflexivity|exact Hkept].
Defined.

(** Where a variant is flagged, the master is taken out of the list: with
    exactly one flagged variant the listed variants are the others, equal
    heights keeping their storage order.  And in every case the listed heights
    never increase, a missing height counting as 0. *)
Lemma summarise_flagged_excludes_master (m : manifest) :
  (∀ pre v post,
      m_variants m = Some (pre ++ v :: post) →
      Forall (λ u, flagged u = false) (pre ++ post) →
      flagged v = true →
      mv_variant <$> sm_master (summarise_manifest m) = Some (enriched v) ∧
      sm_variants (summarise_manifest m) ≡ₚ map enriched (pre ++ post) ∧
      (enriched v ∉ sm_variants (summarise_manifest m)) ∧
      (∀ k, List.filter (λ a, default 0 (e_height a) =? k)
              (sm_variants (summarise_manifest m)) =
            List.filter (λ a, default 0 (e_height a) =? k)
              (map enriched (pre ++ post)))) ∧
  StronglySorted (λ a b, default 0 (e_height b) ≤ default 0 (e_height a))
    (sm_variants (summarise_manifest m)).
Proof.
  split.
  - intros pre v post Hvs Hothers Hv.
    apply Forall_app in Hothers as Hpp. destruct Hpp as [Hpre Hpost].
    rewrite summarise_master_eq, summarise_variants_eq, Hvs. cbn [from_option id].
    rewrite summarise_loop_first_flagged by done. cbn [fst snd].
    split_and!; [done|apply stable_sort_perm| |].
    + unfold Py.sorted_by_rev. rewrite stable_sort_elem_of.
      intros (u & Heq & Hu)%list_elem_of_fmap.
      eapply Forall_forall in Hothers; [|exact Hu].
      assert (flagged v = flagged u) as Hsame
        by (rewrite <- !enriched_is_master; by rewrite Heq).
      congruence.
    + intros k. apply (sorted_by_rev_stable height_key).
  - rewrite summarise_variants_eq. apply (sorted_by_rev_descending height_key).
Qed.

Example summarise_one_master :
  mv_variant <$> sm_master (summarise_manifest one_master) =
    Some (VariantView "1080p (master)" (Some 1080) None None
            (Some "v/1080.mp4") [] 0 true None) ∧
  map e_label (sm_variants (summarise_manifest one_master)) = ["480p"; "720p"].
Proof. split; reflexivity. Qed.

(** C2 fails on the code.  On every manifest in which no variant is flagged
    the fallback makes the first variant the master, marked as such, but does
    not take it out of the list, as the flagged path does: the list holds a
    view of every variant of the manifest, the one selected as master
    included, one entry more than the variants that remain. *)
Theorem summarise_fallback_lists_master
    (m : manifest) (v : variant) (rest : list variant) :
  m_variants m = Some (v :: rest) →
  Forall (λ u, flagged u = false) (v :: rest) →
  mv_variant <$> sm_master (summarise_manifest m) = Some (fallback_master v) ∧
  e_is_master (fallback_master v) = true ∧
  e_file (fallback_master v) = e_file (enriched v) ∧
  enriched v ∈ sm_variants (summarise_manifest m) ∧
  sm_variants (summarise_manifest m) ≡ₚ map enriched (v :: rest) ∧
  length (sm_variants (summarise_manifest m)) = S (length rest).
Proof.
  intros Hvs Hall.
  assert (sm_variants (summarise_manifest m) ≡ₚ map enriched (v :: rest))
    as Hperm.
  { rewrite summarise_variants_eq, Hvs. cbn [from_option id].
    rewrite summarise_loop_unflagged by done. cbn [snd app].
    apply stable_sort_perm. }
  split_and!.
  - rewrite summarise_master_eq, Hvs. cbn [from_option id].
    by rewrite summarise_loop_unflagged by done.
  - done.
  - done.
  - rewrite Hperm. left.
  - done.
  - rewrite Hperm. cbn [map length]. by rewrite length_map.
Qed.

Lemma summarise_fallback_lists_master_witness :
  mv_variant <$> sm_master (summarise_manifest legacy_pair) =
    Some (VariantView "Master" (Some 1080) None None (Some "v/a.mp4") [] 0 true
            None) ∧
  sm_variants (summarise_manifest legacy_pair) =
    [VariantView "" (Some 1080) None None (Some "v/a.mp4") [] 0 false None;
     VariantView "" (Some 720) None None (Some "v/b.mp4") [] 0 false None] ∧
  enriched legacy_first ∈ sm_variants (summarise_manifest legacy_pair) ∧
  length (sm_variants (summarise_manifest legacy_pair)) = 2%nat.
Proof.
  destruct (summarise_fallback_lists_master legacy_pair legacy_first
              [legacy_second]) as (Hmaster & _ & _ & Hlisted & _ & Hlength).
  - reflexivity.
  - repeat constructor.
  - split; [exact Hmaster|]. split; [reflexivity|].
    split; [exact Hlisted|exact Hlength].
Defined.

(** ** C7: segment enumeration *)

Lemma strip_dir_Some (dir p q : path) : strip_dir dir p = Some q ↔ p = dir ++ q.
Proof.
  revert p. induction dir as [|d dir IH]; intros p; simpl.
  - split; congruence.
  - destruct p as [|c p]; [done|].
    destruct (String.eqb_spec d c) as [->|Hne].
    + rewrite IH. split; congruence.
    + split; congruence.
Qed.

Lemma elem_of_iterdir (dir : path) (σ : fs) (name : string) (n : node) :
  (name, n) ∈ iterdir dir σ ↔ σ !! (dir ++ [name]) = Some n.
Proof.
  unfold iterdir. rewrite list_elem_of_omap. split.
  - intros ([p n'] & Hin & Hf). simpl in Hf.
    destruct (strip_dir dir p) as [[|c [|]]|] eqn:Hs; simplify_eq.
    apply strip_dir_Some in Hs as ->. by apply elem_of_map_to_list in Hin.
  - intros Hl. exists (dir ++ [name], n). split.
    + by apply elem_of_map_to_list.
    + simpl. by rewrite (proj2 (strip_dir_Some dir _ [name]) eq_refl).
Qed.

Lemma iterdir_NoDup (dir : path) (σ : fs) : NoDup (iterdir dir σ).*1.
Proof.
  unfold iterdir. pose proof (NoDup_fst_map_to_list σ) as Hnd.
  induction (map_to_list σ) as [|[p n] l IH]; [constructor|].
  cbn [fmap list_fmap] in Hnd. apply NoDup_cons in Hnd as [Hp Hnd].
  cbn [omap list_omap fst snd].
  destruct (strip_dir dir p) as [[|c [|]]|] eqn:Hs; try by apply IH.
  cbn [fmap list_fmap fst]. apply NoDup_cons. split; [|by apply IH].
  intros ([c' n'] & -> & Hin)%list_elem_of_fmap.
  apply list_elem_of_omap in Hin as ([p' n''] & Hin & Hf). simpl in Hf.
  destruct (strip_dir dir p') as [[|c'' [|]]|] eqn:Hs'; simplify_eq.
  apply strip_dir_Some in Hs as ->, Hs' as ->.
  apply Hp. apply list_elem_of_fmap. by exists (dir ++ [c'], n').
Qed.

Lemma NoDup_fst_filter {A B} (P : A * B → Prop) `{!∀ x, Decision (P x)}
    (l : list (A * B)) :
  NoDup l.*1 → NoDup (filter P l).*1.
Proof.
  induction l as [|x l IH]; [done|]. cbn [fmap list_fmap].
  intros [Hx Hl]%NoDup_cons. rewrite filter_cons.
  case_decide; [|by apply IH].
  cbn [fmap list_fmap]. apply NoDup_cons. split; [|by apply IH].
  intros (y & Heq & [_ Hy]%list_elem_of_filter)%list_elem_of_fmap.
  apply Hx. apply list_elem_of_fmap. by exists y.
Qed.

Lemma glob_mp4_NoDup (dir : path) (σ : fs) : NoDup (glob_mp4 dir σ).*1.
Proof. apply NoDup_fst_filter, iterdir_NoDup. Qed.

Lemma elem_of_glob_mp4 (dir : path) (σ : fs) (name : string) (n : node) :
  (name, n) ∈ glob_mp4 dir σ ↔
  σ !! (dir ++ [name]) = Some n ∧ ends_with ".mp4" name = true.
Proof.
  unfold glob_mp4. rewrite list_elem_of_filter, elem_of_iterdir. simpl. tauto.
Qed.

Lemma string_leb_trans (a b c : string) :
  String.leb a b = true → String.leb b c = true → String.leb a c = true.
Proof.
  intros Hab Hbc. apply Is_true_true.
  apply Is_true_true in Hab, Hbc.
  exact (transitivity (R := String.le) Hab Hbc).
Qed.

Lemma string_leb_ne_ltb (a b : string) :
  String.leb a b = true → a ≠ b → String.ltb a b = true.
Proof.
  unfold String.leb, String.ltb. intros Hle Hne.
  destruct (String.compare a b) eqn:Hc; [|done|done].
  by apply String.compare_eq_iff in Hc.
Qed.

(** Sorting the names of one directory puts them in strictly increasing
    code-point order. *)
Lemma sorted_by_str_strict {B} (l : list (string * B)) :
  NoDup l.*1 →
  StronglySorted (λ a b, String.ltb a.1 b.1 = true) (Py.sorted_by_str fst l).
Proof.
  intros Hnd.
  assert (NoDup (Py.sorted_by_str fst l).*1) as Hnd'.
  { unfold Py.sorted_by_str. by rewrite stable_sort_perm. }
  assert (StronglySorted (λ a b : string * B, String.leb a.1 b.1 = true)
            (Py.sorted_by_str fst l)) as Hs.
  { apply stable_sort_StronglySorted.
    - intros x y. apply String.leb_total.
    - intros x y z. apply string_leb_trans. }
  induction Hs as [|x k Hk IH Hx]; [constructor|].
  cbn [fmap list_fmap] in Hnd'. apply NoDup_cons in Hnd' as [Hnotin Hnd'].
  constructor; [by apply IH|].
  apply Forall_forall. intros y Hy.
  apply string_leb_ne_ltb.
  - by eapply Forall_forall in Hx.
  - intros Heq. apply Hnotin. rewrite Heq. apply list_elem_of_fmap. by exists y.
Qed.

Lemma enumerate_zip {A} (start : Z) (l : list A) :
  Py.enumerate start l = zip (seqZ start (Z.of_nat (length l))) l.
Proof.
  revert start. induction l as [|x l IH]; intros start; [done|].
  cbn [Py.enumerate length]. rewrite seqZ_cons by lia.
  cbn [zip zip_with]. rewrite IH. do 3 f_equal; lia.
Qed.

Lemma segment_entries_spec (dir : path) (d : Z) (σ : fs) :
  ∃ items,
    items ≡ₚ glob_mp4 dir σ ∧
    StronglySorted (λ a b, String.ltb a.1 b.1 = true) items ∧
    segment_entries dir d σ =
      map (segment_entry dir d) (zip (seqZ 1 (Z.of_nat (length items))) items) ∧
    map seg_index (segment_entries dir d σ) =
      seqZ 1 (Z.of_nat (length (glob_mp4 dir σ))).
Proof.
  exists (Py.sorted_by_str fst (glob_mp4 dir σ)).
  assert (Py.sorted_by_str fst (glob_mp4 dir σ) ≡ₚ glob_mp4 dir σ) as Hperm
    by apply stable_sort_perm.
  split_and!.
  - done.
  - apply sorted_by_str_strict, glob_mp4_NoDup.
  - unfold segment_entries. by rewrite enumerate_zip.
  - unfold segment_entries.
    rewrite enumerate_zip, <- (Permutation_length Hperm).
    generalize (Py.sorted_by_str fst (glob_mp4 dir σ)). intros l.
    generalize 1. induction l as [|x l IH]; intros k; [done|].
    cbn [length]. rewrite seqZ_cons by lia. cbn [zip zip_with map].
    replace (Z.pred (Z.of_nat (S (length l)))) with (Z.of_nat (length l)) by lia.
    f_equal. apply IH.
Qed.

Lemma segment_video_returns
    (e : env) (src dir : path) (d : Z) (σ σ' : fs) (entries : list segment) :
  segment_video e src dir d σ = (Ok entries, σ') →
  entries = segment_entries dir d σ'.
Proof.
  unfold segment_video, mbind, M_bind.
  destruct (mkdir true dir σ) as [[u|exc] σ1]; [|done].
  destruct (ffmpeg_segment e src d) as [msg|sizes]; [done|].
  unfold modify_fs, get_fs, mret, M_ret. by intros [= <- <-].
Qed.

(** ** C5: the recorded bit rate *)

Lemma clamp_segment_duration_range (raw : Z) :
  5 ≤ clamp_segment_duration raw ≤ 600.
Proof. unfold clamp_segment_duration. lia. Qed.

Lemma truthy_Q_spec (q : Q) : Py.truthy_Q q = true ↔ ¬ (q == 0)%Q.
Proof.
  unfold Py.truthy_Q. rewrite negb_true_iff.
  split.
  - intros Hb Heq. apply Qeq_bool_iff in Heq. congruence.
  - intros Hne. destruct (Qeq_bool q 0) eqn:Hb; [|done].
    exfalso. by apply Hne, Qeq_bool_iff.
Qed.

Lemma variant_duration_nonzero (duration : Q) (segment_duration : Z)
    (variant_segments : list segment) :
  5 ≤ segment_duration →
  Py.truthy_Q (variant_duration duration segment_duration variant_segments) = true.
Proof.
  intros Hsd. unfold variant_duration.
  destruct (Py.truthy_Q duration) eqn:Hd; [done|].
  apply truthy_Q_spec. unfold Qeq. simpl. nia.
Qed.

(** C5 fails as stated on a negative measured duration: the code keeps it (it
    is truthy) where the claim takes the nominal length.  With 1000 bytes the
    code records -4.0; the claim's formula gives 0.27. *)
Lemma bitrate_negative_duration_counterexample :
  variant_duration (-2) 30 [] = (-2)%Q ∧
  effective_duration_as_claimed (-2) 30 0 = 30%Q ∧
  (recorded_bitrate sample_env 1000 (-2) 30 [] == -4)%Q ∧
  (py_round2 sample_env
     (py_truediv sample_env (py_truediv sample_env (inject_Z (1000 * 8)) 1000)
        (effective_duration_as_claimed (-2) 30 0)) == binary64 (27 # 100))%Q ∧
  ¬ (recorded_bitrate sample_env 1000 (-2) 30 [] ==
     py_round2 sample_env
       (py_truediv sample_env (py_truediv sample_env (inject_Z (1000 * 8)) 1000)
          (effective_duration_as_claimed (-2) 30 0)))%Q.
Proof.
  split_and!; [reflexivity|reflexivity|by vm_compute|by vm_compute|].
  vm_compute. discriminate.
Qed.

(** The arithmetic of the loop: the recorded value is
    [round(size * 8 / 1000 / effective, 2)], where [effective] is the measured
    duration when it is not zero and [segment_duration * max(count, 1)]
    otherwise; with the clamped segment duration [effective] is never zero, so
    the division is always performed; and on every measured duration that is
    not negative [effective] is the one the claim describes. *)
Lemma recorded_bitrate_formula
    (e : env) (variant_size_bytes : Z) (duration : Q) (raw_segment_duration : Z)
    (variant_segments : list segment) :
  ¬ (variant_duration duration (clamp_segment_duration raw_segment_duration)
       variant_segments == 0)%Q ∧
  variant_duration duration (clamp_segment_duration raw_segment_duration)
    variant_segments =
    (if Qeq_bool duration 0
     then inject_Z (clamp_segment_duration raw_segment_duration *
                    Z.max (Z.of_nat (length variant_segments)) 1)
     else duration) ∧
  recorded_bitrate e variant_size_bytes duration
    (clamp_segment_duration raw_segment_duration) variant_segments =
    py_round2 e
      (py_truediv e (py_truediv e (inject_Z (variant_size_bytes * 8)) 1000)
         (variant_duration duration (clamp_segment_duration raw_segment_duration)
            variant_segments)) ∧
  ((0 <= duration)%Q →
   (variant_duration duration (clamp_segment_duration raw_segment_duration)
      variant_segments ==
    effective_duration_as_claimed duration
      (clamp_segment_duration raw_segment_duration) (length variant_segments))%Q).
Proof.
  pose proof (clamp_segment_duration_range raw_segment_duration) as [Hlo _].
  pose proof (variant_duration_nonzero duration _ variant_segments Hlo) as Hnz.
  split_and!.
  - by apply truthy_Q_spec.
  - unfold variant_duration, Py.truthy_Q. by destruct (Qeq_bool duration 0).
  - unfold recorded_bitrate, bitrate_kbps. by rewrite Hnz.
  - intros Hnonneg. unfold variant_duration, effective_duration_as_claimed.
    destruct (Py.truthy_Q duration) eqn:Hd.
    + apply truthy_Q_spec in Hd.
      destruct (Qle_bool duration 0) eqn:Hle; [|reflexivity].
      apply Qle_bool_iff in Hle. exfalso. apply Hd. by apply Qle_antisym.
    + unfold Py.truthy_Q in Hd. apply negb_false_iff, Qeq_bool_iff in Hd.
      destruct (Qle_bool duration 0) eqn:Hle; [reflexivity|].
      assert (Qle_bool duration 0 = true) as Hle'
        by (apply Qle_bool_iff; rewrite Hd; apply Qle_refl).
      congruence.
Qed.

Example recorded_bitrate_zero_duration :
  (variant_duration 0 (clamp_segment_duration 1) [] ==
   effective_duration_as_claimed 0 (clamp_segment_duration 1) 0)%Q ∧
  (variant_duration 0 (clamp_segment_duration 1) [] == 5)%Q.
Proof.
  destruct (recorded_bitrate_formula sample_env 1000 0 1 [])
    as (_ & _ & _ & Hclaim).
  split; [apply Hclaim; vm_compute; discriminate|reflexivity].
Qed.

(** The arithmetic is the interpreter's, not exact: 2675 bytes over 8 seconds
    are 2.675 kbit/s exactly, but the quotient computed in binary64 lies just
    below, and the value recorded is the float 2.67, not 2.68. *)
Example recorded_bitrate_binary64 :
  (recorded_bitrate sample_env 2675 8 30 [] == binary64 (267 # 100))%Q ∧
  ¬ (recorded_bitrate sample_env 2675 8 30 [] == binary64 (268 # 100))%Q ∧
  (Py.round2 (inject_Z (2675 * 8) / 1000 / 8) == 268 # 100)%Q.
Proof. split_and!; [by vm_compute| |by vm_compute]. vm_compute. discriminate. Qed.

Lemma bind_Ok {A B} (m : M A) (f : A → M B) (σ σ' : fs) (b : B) :
  (m ≫= f) σ = (Ok b, σ') →
  ∃ a σ1, m σ = (Ok a, σ1) ∧ f a σ1 = (Ok b, σ').
Proof.
  unfold mbind, M_bind. destruct (m σ) as [[a|exc] σ1]; [|done].
  intros Hf. by exists a, σ1.
Qed.

(** Every variant dictionary the loop of [upload] appends records the size,
    the measured duration and the segments the bit rate was computed from. *)
Lemma process_target_records
    (e : env) (variants_dir segments_dir original_path : path) (base_stem : string)
    (source_height segment_duration target : Z) (σ σ' : fs) (v : variant) :
  process_target e variants_dir segments_dir original_path base_stem
    source_height segment_duration target σ = (Ok v, σ') →
  ∃ size duration segments,
    v_size_bytes v = Some size ∧
    v_duration v = Some duration ∧
    v_segments v = Some segments ∧
    v_is_master v = Some (target =? source_height) ∧
    v_bitrate_kbps v =
      Some (recorded_bitrate e size duration segment_duration segments).
Proof.
  unfold process_target.
  intros (u & σ1 & _ & Hrun)%bind_Ok.
  apply bind_Ok in Hrun as (info & σ2 & _ & Hrun).
  apply bind_Ok in Hrun as (segments & σ3 & _ & Hrun).
  apply bind_Ok in Hrun as (size & σ4 & _ & Hrun).
  injection Hrun as <- <-.
  by exists size, (vi_duration info), segments.
Qed.

(** C5, amended.  Every variant the pipeline records carries
    [round(size_bytes * 8 / 1000 / effective, 2)] as its bit rate, the two
    divisions and the rounding being the interpreter's float operations, where
    [effective] is the measured duration when that is not zero and
    [segment_duration * max(len(segments), 1)] otherwise; [effective] is never
    zero, the segment duration being clamped to 5..600; and for a measured
    duration that is not negative it is the measured duration when positive
    and the nominal length otherwise. *)
Theorem variant_bitrate_recorded
    (e : env) (variants_dir segments_dir original_path : path) (base_stem : string)
    (source_height raw_segment_duration target : Z) (σ σ' : fs) (v : variant) :
  process_target e variants_dir segments_dir original_path base_stem
    source_height (clamp_segment_duration raw_segment_duration) target σ =
    (Ok v, σ') →
  ∃ size duration segments effective,
    v_size_bytes v = Some size ∧
    v_duration v = Some duration ∧
    v_segments v = Some segments ∧
    effective =
      (if Qeq_bool duration 0
       then inject_Z (clamp_segment_duration raw_segment_duration *
                      Z.max (Z.of_nat (length segments)) 1)
       else duration) ∧
    ¬ (effective == 0)%Q ∧
    v_bitrate_kbps v =
      Some (py_round2 e
              (py_truediv e (py_truediv e (inject_Z (size * 8)) 1000)
                 effective)) ∧
    ((0 <= duration)%Q →
     (effective ==
      effective_duration_as_claimed duration
        (clamp_segment_duration raw_segment_duration) (length segments))%Q).
Proof.
  intros (size & duration & segments & Hsize & Hduration & Hsegments & _ & Hrate)
    %process_target_records.
  destruct (recorded_bitrate_formula e size duration raw_segment_duration
              segments) as (Hnz & Heff & Hrec & Hclaim).
  exists size, duration, segments,
    (variant_duration duration (clamp_segment_duration raw_segment_duration)
       segments).
  split_and!; try done. by rewrite Hrate, Hrec.
Qed.

Lemma variant_bitrate_recorded_witness :
  ∃ v σ',
    process_target sample_env ["clip"; "variants"] ["clip"; "segments"]
      ["clip"; "source"; "clip.mp4"] "clip" 1080 (clamp_segment_duration 30)
      720 ∅ = (Ok v, σ') ∧
    v_size_bytes v = Some 2160000 ∧
    v_duration v = Some 120%Q ∧
    ∃ rate, v_bitrate_kbps v = Some rate ∧ (rate == 144)%Q.
Proof.
  evaluated ((process_target sample_env ["clip"; "variants"] ["clip"; "segments"]
                ["clip"; "source"; "clip.mp4"] "clip" 1080
                (clamp_segment_duration 30) 720 ∅).1) as Hfst.
  destruct (process_target sample_env ["clip"; "variants"] ["clip"; "segments"]
              ["clip"; "source"; "clip.mp4"] "clip" 1080
              (clamp_segment_duration 30) 720 ∅) as [[v|exc] σ'] eqn:Hrun;
    [|discriminate].
  exists v, σ'. split; [reflexivity|].
  destruct (variant_bitrate_recorded _ _ _ _ _ _ _ _ _ _ _ Hrun)
    as (size & duration & segments & effective &
        Hsize & Hduration & Hsegments & Heff & _ & Hrate & _).
  cbn [fst] in Hfst. injection Hfst as ->.
  cbn [v_size_bytes v_duration v_segments] in Hsize, Hduration, Hsegments.
  injection Hsize as <-. injection Hduration as <-. injection Hsegments as <-.
  split; [reflexivity|]. split; [reflexivity|].
  eexists. split; [exact Hrate|]. rewrite Heff. vm_compute. reflexivity.
Defined.

(** ** C10: the submitted resolutions *)

Lemma elem_of_parse_resolutions (e : env) (values : list string) (r : Z) :
  r ∈ parse_resolutions e values ↔
  ∃ value, value ∈ values ∧ py_int e value = Some r ∧ r ∈ RESOLUTION_PRESETS.
Proof.
  induction values as [|value values IH]; simpl.
  - split; [by intros ?%elem_of_nil|]. by intros (v & ?%elem_of_nil & _).
  - destruct (py_int e value) as [resolution|] eqn:Hint.
    + case_bool_decide as Hpre.
      * rewrite elem_of_cons, IH. split.
        -- intros [->|(v & Hv & Hr)].
           ++ exists value. split_and!; [left|done|done].
           ++ exists v. split; [by right|done].
        -- intros (v & [->|Hv]%elem_of_cons & Hr & Hp).
           ++ left. congruence.
           ++ right. by exists v.
      * rewrite IH. split.
        -- intros (v & Hv & Hr). exists v. split; [by right|done].
        -- intros (v & [->|Hv]%elem_of_cons & Hr & Hp).
           ++ congruence.
           ++ by exists v.
    + rewrite IH. split.
      * intros (v & Hv & Hr). exists v. split; [by right|done].
      * intros (v & [->|Hv]%elem_of_cons & Hr & Hp).
        -- congruence.
        -- by exists v.
Qed.

(** A value that does not parse, or parses to a height outside the presets,
    leaves the result as if it had not been submitted. *)
Lemma parse_resolutions_discards (e : env) (before after : list string) (value : string) :
  (py_int e value = None ∨
   ∃ r, py_int e value = Some r ∧ r ∉ RESOLUTION_PRESETS) →
  parse_resolutions e (before ++ value :: after) =
  parse_resolutions e (before ++ after).
Proof.
  intros Hbad. induction before as [|b before IH]; simpl.
  - destruct Hbad as [->|(r & -> & Hr)]; [done|]. by rewrite bool_decide_false.
  - by rewrite IH.
Qed.

Lemma truthy_str_spec (s : string) : Py.truthy_str s = true ↔ s ≠ "".
Proof.
  unfold Py.truthy_str. destruct (String.eqb_spec s ""); naive_solver.
Qed.

(** C10. A submitted value that [int()] rejects, or whose integer is not a
    preset, is dropped without an error: the retained list holds exactly the
    preset values that parse, and dropping such a value from the form changes
    nothing.  The request is rejected for its resolutions exactly when the
    file checks pass and nothing is retained; when a valid preset value is
    present the checks go on to the segment duration and the file name, and an
    accepted request carries the retained list. *)
Theorem upload_resolutions_filtered (e : env) (form : upload_form) :
  (∀ r, r ∈ parse_resolutions e (form_resolutions form) ↔
        ∃ value, value ∈ form_resolutions form ∧
                 py_int e value = Some r ∧ r ∈ RESOLUTION_PRESETS) ∧
  (∀ before value after,
      form_resolutions form = before ++ value :: after →
      (py_int e value = None ∨
       ∃ r, py_int e value = Some r ∧ r ∉ RESOLUTION_PRESETS) →
      parse_resolutions e (form_resolutions form) =
      parse_resolutions e (before ++ after)) ∧
  (validate_upload e form = inl "Select at least one target resolution." ↔
   file_checks_pass form ∧ parse_resolutions e (form_resolutions form) = []) ∧
  (file_checks_pass form →
   parse_resolutions e (form_resolutions form) = [] →
   ∀ σ, upload e form σ =
        (Ok (rejected "Select at least one target resolution."), σ)) ∧
  (file_checks_pass form →
   (∃ value r, value ∈ form_resolutions form ∧
               py_int e value = Some r ∧ r ∈ RESOLUTION_PRESETS) →
   validate_upload e form = inl "Provide a valid segment duration in seconds." ∨
   validate_upload e form =
     inl "Could not determine a safe filename for the upload." ∨
   ∃ a, validate_upload e form = inr a ∧
        acc_requested a = parse_resolutions e (form_resolutions form) ∧
        acc_requested a ≠ []).
Proof.
  assert (Hiff : validate_upload e form =
                   inl "Select at least one target resolution." ↔
                 file_checks_pass form ∧
                 parse_resolutions e (form_resolutions form) = []).
  { unfold validate_upload, file_checks_pass. split.
    - destruct (video_file form) as [filename|]; [|done].
      destruct (Py.truthy_str filename) eqn:Hname; [|done].
      destruct (allowed_file filename) eqn:Hallowed; [|done]. simpl.
      destruct (parse_resolutions e (form_resolutions form)) as [|r rs].
      + intros _. split; [|done]. exists filename.
        by apply truthy_str_spec in Hname.
      + destruct (parse_segment_duration e form); [|done].
        destruct (Py.truthy_str (secure_filename e filename)); simpl;
          intros; discriminate.
    - intros [(filename & -> & Hname & ->) ->].
      apply truthy_str_spec in Hname. by rewrite Hname. }
  split_and!.
  - intros r. apply elem_of_parse_resolutions.
  - intros before value after -> Hbad. by apply parse_resolutions_discards.
  - done.
  - intros Hfile Hnone σ. unfold upload.
    by rewrite (proj2 Hiff (conj Hfile Hnone)).
  - intros (filename & Hf & Hname & Hallowed) (value & r & Hvalid).
    assert (r ∈ parse_resolutions e (form_resolutions form)) as Hr
      by (apply elem_of_parse_resolutions; by exists value).
    unfold validate_upload. rewrite Hf.
    apply truthy_str_spec in Hname. rewrite Hname, Hallowed. simpl.
    destruct (parse_resolutions e (form_resolutions form)) as [|r0 rs] eqn:Hparse.
    { by apply elem_of_nil in Hr. }
    destruct (parse_segment_duration e form); [|by left].
    destruct (Py.truthy_str (secure_filename e filename)); simpl;
      [|by right; left].
    right; right. eexists. split; [done|]. by simpl.
Qed.

Lemma upload_resolutions_filtered_witness :
  parse_resolutions sample_env (form_resolutions sample_form) =
    [2160; 1080; 720; 480] ∧
  ∃ a, validate_upload sample_env sample_form = inr a ∧
       acc_requested a = [2160; 1080; 720; 480].
Proof.
  destruct (upload_resolutions_filtered sample_env sample_form)
    as (_ & Hdrop & _ & _ & Hgo).
  split.
  - rewrite (Hdrop ["2160"; "1080"; "720"; "480"] "abc" ["999"]);
      [|reflexivity|left; reflexivity].
    reflexivity.
  - destruct Hgo as [Hbad|[Hbad|(a & Ha & Hreq & _)]].
    + exists "clip.mp4". split_and!; [reflexivity|discriminate|reflexivity].
    + exists "1080", 1080. split_and!; [|reflexivity|].
      * right; left.
      * unfold RESOLUTION_PRESETS. do 2 right; left.
    + vm_compute in Hbad. discriminate.
    + vm_compute in Hbad. discriminate.
    + exists a. split; [exact Ha|]. rewrite Hreq. reflexivity.
Defined.

(** ** C8: the catalog listing *)

Lemma collect_resolutions_objects (variants : list variant) (resolutions : list string) :
  collect_resolutions (VariantObject <$> variants) resolutions =
  Ok (fold_left
        (λ resolutions variant,
           match v_height variant with
           | Some height =>
               if Py.truthy_Z height then
                 let label := Py.str height +:+ "p" in
                 if bool_decide (label ∈ resolutions) then resolutions
                 else resolutions ++ [label]
               else resolutions
           | None => resolutions
           end)
        variants resolutions).
Proof.
  revert resolutions. induction variants as [|v variants IH]; intros resolutions;
    [done|].
  cbn [fmap list_fmap collect_resolutions fold_left]. apply IH.
Qed.

(** On a manifest that follows the schema the loop body returns the entry of
    the typed manifest. *)
Lemma catalog_entry_of_document_typed (f : manifest_file) (data : manifest) :
  catalog_entry_of_document f (document_of data) = Ok (catalog_entry_of f data).
Proof.
  unfold catalog_entry_of_document, catalog_entry_of, document_of, result_bind.
  cbn [md_playlist_id md_source md_created_at md_created_at_ts md_variants].
  destruct (m_source data) as [source|];
    destruct (m_variants data) as [variants|];
    destruct (m_created_at_ts data) as [ts|]; cbn [fmap option_fmap option_map];
    rewrite ?collect_resolutions_objects; reflexivity.
Qed.

Lemma collect_resolutions_raises (items : list variant_item) (resolutions : list string) :
  (∃ exc, collect_resolutions items resolutions = Raise exc) ↔
  existsb (λ item, match item with
                   | VariantNotObject => true
                   | VariantObject _ => false
                   end) items = true.
Proof.
  revert resolutions.
  induction items as [|[v|] items IH]; intros resolutions; cbn.
  - split; [by intros [exc ?]|done].
  - apply IH.
  - split; [done|]. by eexists.
Qed.

(** The loop body and the sort key of its entry raise on the malformed
    documents, and on no others. *)
Lemma malformed_document_raises (f : manifest_file) (data : manifest_document) :
  malformed_document data = true ↔
  (∃ exc, catalog_entry_of_document f data = Raise exc) ∨
  (∃ entry exc, catalog_entry_of_document f data = Ok entry ∧
                sort_key entry = Raise exc).
Proof.
  unfold malformed_document, catalog_entry_of_document, result_bind.
  destruct (md_source data) as [|source|]; cbn [orb].
  3: { split; [intros _; left; by eexists|done]. }
  all: destruct (md_variants data) as [|items|]; cbn [orb].
  all: try (split; [intros _; left; by eexists|done]).
  all: try (destruct (collect_resolutions items []) as [labels|exc] eqn:Hloop;
    [assert (existsb (λ item, match item with
                              | VariantNotObject => true
                              | VariantObject _ => false
                              end) items = false) as ->
       by (apply not_true_iff_false; intros Hex;
           apply (collect_resolutions_raises items []) in Hex as [? ?];
           congruence)
    |assert (existsb (λ item, match item with
                              | VariantNotObject => true
                              | VariantObject _ => false
                              end) items = true) as ->
       by (apply (collect_resolutions_raises items []); by eexists);
     split; [intros _; left; by eexists|done]]).
  all: cbn [orb]; unfold sort_key; cbn [ce_created_at_ts];
    destruct (md_created_at_ts data) as [[ts|[key|exc]]|]; split;
    try done; try (intros _; right; by eexists _, _);
    intros [[exc' ?]|(entry & exc' & [= <-] & Hkey)]; done.
Qed.

Lemma scan_manifests_Ok (files : list manifest_file) (manifests entries : list catalog_entry) :
  scan_manifests files manifests = Ok entries →
  entries = manifests ++ omap loaded_entry files ∧
  Forall (λ f, match mf_load f with
               | RaisesUnicodeDecodeError | LoadsNonObject => False
               | Loads data => ∃ entry, catalog_entry_of_document f data = Ok entry
               | _ => True
               end) files.
Proof.
  revert manifests. induction files as [|f files IH]; intros manifests; cbn.
  - intros [= <-]. by rewrite app_nil_r.
  - unfold loaded_entry at 1.
    destruct (mf_load f) as [| | | |data] eqn:Hload; try done.
    + intros [-> Hall]%IH. split; [done|]. constructor; [by rewrite Hload|done].
    + intros [-> Hall]%IH. split; [done|]. constructor; [by rewrite Hload|done].
    + unfold result_bind.
      destruct (catalog_entry_of_document f data) as [entry|exc] eqn:Hentry; [|done].
      intros [-> Hall]%IH. rewrite <- app_assoc. split; [done|].
      constructor; [rewrite Hload; by eexists|done].
Qed.

Lemma scan_manifests_Raise (files : list manifest_file) (manifests : list catalog_entry)
    (exc : exn) :
  scan_manifests files manifests = Raise exc →
  Exists (λ f, match mf_load f with
               | RaisesUnicodeDecodeError | LoadsNonObject => True
               | Loads data => ∃ exc, catalog_entry_of_document f data = Raise exc
               | _ => False
               end) files.
Proof.
  revert manifests. induction files as [|f files IH]; intros manifests; cbn;
    [done|].
  destruct (mf_load f) as [| | | |data] eqn:Hload.
  - intros ?%IH. by right.
  - intros ?%IH. by right.
  - intros _. left. by rewrite Hload.
  - intros _. left. by rewrite Hload.
  - unfold result_bind.
    destruct (catalog_entry_of_document f data) as [entry|exc'] eqn:Hentry.
    + intros ?%IH. by right.
    + intros _. left. rewrite Hload. by eexists.
Qed.

Lemma sort_keys_Ok (items : list catalog_entry) (keyed : list (Q * catalog_entry)) :
  sort_keys items = Ok keyed →
  keyed.*2 = items ∧
  Forall (λ pair, sort_key pair.2 = Ok pair.1) keyed.
Proof.
  revert keyed. induction items as [|item items IH]; intros keyed; cbn.
  - by intros [= <-].
  - unfold result_bind. destruct (sort_key item) as [key|exc] eqn:Hkey; [|done].
    destruct (sort_keys items) as [keyed'|exc]; [|done].
    intros [= <-]. destruct (IH keyed' eq_refl) as [Hitems Hkeys].
    cbn. split; [by rewrite Hitems|]. by constructor.
Qed.

Lemma sort_keys_Raise (items : list catalog_entry) (exc : exn) :
  sort_keys items = Raise exc →
  Exists (λ item, ∃ exc, sort_key item = Raise exc) items.
Proof.
  revert exc. induction items as [|item items IH]; intros exc; cbn; [done|].
  unfold result_bind. destruct (sort_key item) as [key|exc'] eqn:Hkey.
  - destruct (sort_keys items) as [keyed'|exc'] eqn:Hrest; [done|].
    intros _. right. by apply (IH exc').
  - intros _. left. by eexists.
Qed.

Lemma sort_keys_total (items : list catalog_entry) :
  Forall (λ item, ∃ key, sort_key item = Ok key) items →
  ∃ keyed, sort_keys items = Ok keyed.
Proof.
  induction 1 as [|item items [key Hkey] Hitems [keyed IH]]; cbn.
  - by eexists.
  - unfold result_bind. rewrite Hkey, IH. by eexists.
Qed.

Lemma Qle_bool_total (a b : Q) : Qle_bool a b = true ∨ Qle_bool b a = true.
Proof.
  destruct (Qlt_le_dec a b) as [Hlt|Hle].
  - left. by apply Qle_bool_iff, Qlt_le_weak.
  - right. by apply Qle_bool_iff.
Qed.

Lemma Qle_bool_trans (a b c : Q) :
  Qle_bool a b = true → Qle_bool b c = true → Qle_bool a c = true.
Proof.
  rewrite !Qle_bool_iff. apply Qle_trans.
Qed.

Lemma sorted_by_rev_Q_descending {A} (key : A → Q) (l : list A) :
  StronglySorted (λ a b, (key b <= key a)%Q) (Py.sorted_by_rev_Q key l).
Proof.
  eapply StronglySorted_mono; [|apply stable_sort_StronglySorted].
  - intros a b Hab. simpl in Hab. by apply Qle_bool_iff.
  - intros x y. apply Qle_bool_total.
  - intros x y z H1 H2. by eapply Qle_bool_trans.
Qed.

Lemma sorted_by_rev_Q_stable {A} (key : A → Q) (k : Q) (l : list A) :
  List.filter (λ a, Qeq_bool (key a) k) (Py.sorted_by_rev_Q key l) =
  List.filter (λ a, Qeq_bool (key a) k) l.
Proof.
  apply stable_sort_stable. intros y z Hy Hz.
  apply Qeq_bool_iff in Hy, Hz. apply Qle_bool_iff. rewrite Hy, Hz. apply Qle_refl.
Qed.

Lemma insert_sorted_fmap {A B} (f : A → B) (le : A → A → bool) (le' : B → B → bool)
    (x : A) (l : list A) :
  (∀ y, y ∈ l → le x y = le' (f x) (f y)) →
  f <$> Py.insert_sorted le x l = Py.insert_sorted le' (f x) (f <$> l).
Proof.
  induction l as [|y l IH]; intros Hle; [done|].
  cbn [Py.insert_sorted fmap list_fmap].
  rewrite <- (Hle y) by left. destruct (le x y); [done|].
  cbn [fmap list_fmap]. f_equal. apply IH. intros z Hz. apply Hle. by right.
Qed.

Lemma stable_sort_fmap {A B} (f : A → B) (le : A → A → bool) (le' : B → B → bool)
    (l : list A) :
  (∀ x y, x ∈ l → y ∈ l → le x y = le' (f x) (f y)) →
  f <$> Py.stable_sort le l = Py.stable_sort le' (f <$> l).
Proof.
  induction l as [|x l IH]; intros Hle; [done|].
  cbn [Py.stable_sort foldr fmap list_fmap].
  fold (Py.stable_sort le l). fold (Py.stable_sort le' (f <$> l)).
  rewrite <- IH.
  - apply insert_sorted_fmap. intros y Hy%stable_sort_elem_of.
    apply Hle; [left|by right].
  - intros y z Hy Hz. apply Hle; by right.
Qed.

(** Sorting the items by their computed keys is sorting them by epoch. *)
Lemma sort_keys_sorted (items : list catalog_entry) (keyed : list (Q * catalog_entry)) :
  sort_keys items = Ok keyed →
  (Py.sorted_by_rev_Q fst keyed).*2 = Py.sorted_by_rev_Q epoch_key items.
Proof.
  intros [<- Hkeys]%sort_keys_Ok. unfold Py.sorted_by_rev_Q.
  apply stable_sort_fmap. rewrite Forall_forall in Hkeys.
  intros a b Ha Hb. unfold epoch_key. by rewrite (Hkeys a Ha), (Hkeys b Hb).
Qed.

(** A listing that returns holds the entries of the manifests that load, by
    epoch descending, in the order of the sorted paths within one epoch. *)
Lemma list_manifests_Ok (files : list manifest_file) (entries : list catalog_entry) :
  list_manifests (Some files) = Ok entries →
  entries = Py.sorted_by_rev_Q epoch_key
              (omap loaded_entry (Py.sorted_by_str mf_parent_name files)).
Proof.
  unfold list_manifests, result_bind.
  destruct (scan_manifests _ _) as [manifests|exc] eqn:Hscan; [|done].
  destruct (sort_keys manifests) as [keyed|exc] eqn:Hkeys; [|done].
  intros [= <-]. apply scan_manifests_Ok in Hscan as [-> _].
  by apply sort_keys_sorted.
Qed.

(** The epoch of an entry: the document's [created_at_ts] when it is there
    and not [null], else the file's modification time, else (no [stat]) 0. *)
Lemma catalog_entry_epoch (f : manifest_file) (data : manifest_document)
    (entry : catalog_entry) :
  catalog_entry_of_document f data = Ok entry →
  ce_created_at_ts entry =
  match md_created_at_ts data, mf_st_mtime f with
  | Some value, _ => value
  | None, Some mtime => EpochNumber mtime
  | None, None => EpochNumber 0%Q
  end.
Proof.
  unfold catalog_entry_of_document, result_bind.
  destruct (md_source data); [| |done];
    (destruct (md_variants data) as [|items|];
      [|destruct (collect_resolutions items []); [|done]|done]);
    intros [= <-]; cbn [ce_created_at_ts];
    by destruct (md_created_at_ts data), (mf_st_mtime f).
Qed.

Example list_manifests_sample :
  (map (λ item, (ce_id item, ce_created_at_ts item)) <$>
   match list_manifests (Some sample_catalog) with
   | Ok entries => Some entries
   | Raise _ => None
   end) =
  Some [("a", EpochNumber 300%Q); ("b", EpochNumber 200%Q);
        ("e", EpochNumber 200%Q)].
Proof. vm_compute. reflexivity. Qed.

(** The listing of a catalog whose manifests are unreadable, not JSON, or
    objects with members of the types the code expects: it returns, with the
    entries of the manifests that load, by epoch descending, entries of one
    epoch staying in the order of their sorted paths. *)
Lemma list_manifests_sorted (files : list manifest_file) :
  Forall (λ f, uncaught f = false) files →
  ∃ entries,
    list_manifests (Some files) = Ok entries ∧
    entries ≡ₚ omap loaded_entry files ∧
    StronglySorted (λ a b, (epoch_key b <= epoch_key a)%Q) entries ∧
    (∀ k, List.filter (λ a, Qeq_bool (epoch_key a) k) entries =
          List.filter (λ a, Qeq_bool (epoch_key a) k)
            (omap loaded_entry (Py.sorted_by_str mf_parent_name files))).
Proof.
  intros Hall.
  assert (Py.sorted_by_str mf_parent_name files ≡ₚ files) as Hperm
    by apply stable_sort_perm.
  destruct (list_manifests (Some files)) as [entries|exc] eqn:Hrun.
  - exists entries. split; [done|]. apply list_manifests_Ok in Hrun as ->.
    split_and!.
    + unfold Py.sorted_by_rev_Q. rewrite stable_sort_perm. by rewrite Hperm.
    + apply sorted_by_rev_Q_descending.
    + intros k. apply sorted_by_rev_Q_stable.
  - exfalso. unfold list_manifests, result_bind in Hrun.
    rewrite <- Hperm in Hall. rewrite Forall_forall in Hall.
    destruct (scan_manifests _ _) as [manifests|exc'] eqn:Hscan.
    + destruct (sort_keys manifests) as [keyed|exc''] eqn:Hkeys; [done|].
      apply scan_manifests_Ok in Hscan as [-> _]. cbn [app] in Hkeys.
      apply sort_keys_Raise, Exists_exists in Hkeys as (item & Hitem & exc3 & Hkey).
      apply list_elem_of_omap in Hitem as (f & Hf & Hentry).
      specialize (Hall f Hf). unfold uncaught in Hall. unfold loaded_entry in Hentry.
      destruct (mf_load f) as [| | | |data]; try done.
      destruct (catalog_entry_of_document f data) as [entry|] eqn:Hdoc; [|done].
      injection Hentry as ->.
      assert (malformed_document data = true) as Hbad; [|congruence].
      apply (malformed_document_raises f). right. by eexists _, _.
    + apply scan_manifests_Raise, Exists_exists in Hscan as (f & Hf & Hraise).
      specialize (Hall f Hf). unfold uncaught in Hall.
      destruct (mf_load f) as [| | | |data]; try done.
      assert (malformed_document data = true) as Hbad; [|congruence].
      apply (malformed_document_raises f). by left.
Qed.

Example list_manifests_malformed_samples :
  list_manifests (Some corrupt_catalog) = Raise UnicodeDecodeError ∧
  list_manifests
    (Some [ManifestFile "a" (Loads (document_of (epoch_manifest (Some 200%Q)))) (Some 1%Q);
           ManifestFile "b" LoadsNonObject (Some 2%Q)]) =
    Raise AttributeError ∧
  list_manifests
    (Some [ManifestFile "a" (Loads (document_of (epoch_manifest (Some 200%Q)))) (Some 1%Q);
           ManifestFile "b"
             (Loads (ManifestDocument None SourceNotObject None None VariantsAbsent))
             (Some 2%Q)]) =
    Raise AttributeError ∧
  list_manifests
    (Some [ManifestFile "a" (Loads (document_of (epoch_manifest (Some 200%Q)))) (Some 1%Q);
           ManifestFile "b"
             (Loads (ManifestDocument None SourceAbsent None None VariantsNotIterable))
             (Some 2%Q)]) =
    Raise TypeError ∧
  list_manifests
    (Some [ManifestFile "a" (Loads (document_of (epoch_manifest (Some 200%Q)))) (Some 1%Q);
           ManifestFile "b"
             (Loads (ManifestDocument None SourceAbsent None
                       (Some (EpochOther (Raise ValueError))) VariantsAbsent))
             (Some 2%Q)]) =
    Raise ValueError.
Proof. repeat split; vm_compute; reflexivity. Qed.

(** C8 fails on the code: one manifest that is not UTF-8 text, is not a JSON
    object, or is an object whose [source] is not an object, whose [variants]
    cannot be iterated over or yield a value that is not an object, or whose
    [created_at_ts] does not convert to a float, makes the whole listing
    raise, whatever the other manifests hold; the listing returns exactly when
    the catalog holds no such manifest.  Only [OSError] and [JSONDecodeError]
    are caught, and only around the load. *)
Theorem list_manifests_fails_on_malformed (files : list manifest_file) :
  (∃ f, f ∈ files ∧ uncaught f = true) ↔
  (∃ exc, list_manifests (Some files) = Raise exc).
Proof.
  assert (Py.sorted_by_str mf_parent_name files ≡ₚ files) as Hperm
    by apply stable_sort_perm.
  split.
  - intros (f & Hf & Hbad).
    destruct (list_manifests (Some files)) as [entries|exc] eqn:Hrun;
      [|by eexists].
    exfalso. unfold list_manifests, result_bind in Hrun.
    destruct (scan_manifests _ _) as [manifests|exc] eqn:Hscan; [|done].
    destruct (sort_keys manifests) as [keyed|exc] eqn:Hkeys; [|done].
    apply scan_manifests_Ok in Hscan as [-> Hall]. cbn [app] in Hkeys.
    apply sort_keys_Ok in Hkeys as [Hitems Hkeys].
    rewrite <- Hperm in Hf. rewrite Forall_forall in Hall.
    rewrite Forall_forall in Hkeys.
    pose proof (Hall f Hf) as Hload. unfold uncaught in Hbad.
    destruct (mf_load f) as [| | | |data] eqn:Hdata; try done.
    destruct Hload as [entry Hentry].
    apply (malformed_document_raises f) in Hbad
      as [[exc Hexc]|(entry' & exc & Hentry' & Hkey)]; [congruence|].
    assert (entry' = entry) as -> by congruence.
    assert (entry ∈ keyed.*2) as Hin.
    { rewrite Hitems. apply list_elem_of_omap. exists f. split; [done|].
      unfold loaded_entry. by rewrite Hdata, Hentry. }
    apply list_elem_of_fmap in Hin as (pair & -> & Hpair).
    specialize (Hkeys pair Hpair). congruence.
  - intros [exc Hrun]. unfold list_manifests, result_bind in Hrun.
    destruct (scan_manifests _ _) as [manifests|exc'] eqn:Hscan.
    + destruct (sort_keys manifests) as [keyed|exc''] eqn:Hkeys; [done|].
      apply scan_manifests_Ok in Hscan as [-> _]. cbn [app] in Hkeys.
      apply sort_keys_Raise, Exists_exists in Hkeys as (item & Hitem & exc3 & Hkey).
      apply list_elem_of_omap in Hitem as (f & Hf & Hentry).
      exists f. split; [by rewrite <- Hperm|].
      unfold uncaught. unfold loaded_entry in Hentry.
      destruct (mf_load f) as [| | | |data]; try done.
      destruct (catalog_entry_of_document f data) as [entry|] eqn:Hdoc; [|done].
      injection Hentry as ->.
      apply (malformed_document_raises f). right. by eexists _, _.
    + apply scan_manifests_Raise, Exists_exists in Hscan as (f & Hf & Hraise).
      exists f. split; [by rewrite <- Hperm|].
      unfold uncaught. destruct (mf_load f) as [| | | |data]; try done.
      apply (malformed_document_raises f). by left.
Qed.

Lemma list_manifests_fails_on_malformed_witness :
  ∃ exc, list_manifests (Some corrupt_catalog) = Raise exc.
Proof.
  apply list_manifests_fails_on_malformed.
  exists (ManifestFile "b" RaisesUnicodeDecodeError (Some 2%Q)).
  split; [|reflexivity]. unfold corrupt_catalog. set_solver.
Defined.

(** ** C4: saving the manifest *)

Lemma string_app_nil_r (s : string) : s +:+ "" = s.
Proof.
  induction s as [|c s IH]; [done|].
  change (String c (s +:+ "") = String c s). by rewrite IH.
Qed.

Lemma string_app_assoc (s t u : string) : (s +:+ t) +:+ u = s +:+ (t +:+ u).
Proof.
  induction s as [|c s IH]; [done|].
  change (String c ((s +:+ t) +:+ u) = String c (s +:+ (t +:+ u))).
  by rewrite IH.
Qed.

Lemma string_concat_cons (chunk : string) (chunks : list string) :
  String.concat "" (chunk :: chunks) = chunk +:+ String.concat "" chunks.
Proof.
  destruct chunks as [|c cs]; cbn [String.concat].
  - by rewrite string_app_nil_r.
  - done.
Qed.

Lemma written_extends (content : string) (chunks : list string) (t : string) :
  t ∈ written content chunks →
  ∃ rest, content +:+ String.concat "" chunks = t +:+ rest.
Proof.
  revert content.
  induction chunks as [|chunk chunks IH]; intros content; cbn [written].
  - by intros ?%elem_of_nil.
  - rewrite string_concat_cons, <- string_app_assoc.
    intros [->|Hin]%elem_of_cons; [by eexists|]. by apply IH.
Qed.

Lemma written_last (content : string) (chunks : list string) :
  last (content :: written content chunks) =
  Some (content +:+ String.concat "" chunks).
Proof.
  revert content. induction chunks as [|chunk chunks IH]; intros content.
  - cbn. by rewrite string_app_nil_r.
  - cbn [written]. rewrite last_cons_cons, IH.
    by rewrite string_concat_cons, string_app_assoc.
Qed.

Lemma handle_write_text (p : path) (chunk content : string) (σ : fs) :
  handle_write p chunk (<[p := Text content]> σ) =
  (Ok (), <[p := Text (content +:+ chunk)]> σ).
Proof.
  unfold handle_write, modify_fs.
  by rewrite lookup_insert_eq, insert_insert_eq.
Qed.

Lemma run_trace_writes (p : path) (chunks : list string) (content : string) (σ : fs) :
  run_trace (map (handle_write p) chunks) (<[p := Text content]> σ) =
  map (λ s, <[p := Text s]> σ) (written content chunks).
Proof.
  revert content. induction chunks as [|chunk chunks IH]; intros content; [done|].
  cbn [map run_trace written]. rewrite handle_write_text. by rewrite IH.
Qed.

Lemma run_steps_writes (p : path) (chunks : list string) (content : string) (σ : fs) :
  run_steps (map (handle_write p) chunks) (<[p := Text content]> σ) =
  (Ok (), <[p := Text (content +:+ String.concat "" chunks)]> σ).
Proof.
  revert content. induction chunks as [|chunk chunks IH]; intros content.
  - cbn. by rewrite string_app_nil_r.
  - cbn [map run_steps]. unfold mbind, M_bind. rewrite handle_write_text.
    rewrite IH. by rewrite string_concat_cons, string_app_assoc.
Qed.

Lemma open_w_creates (p : path) (empty : node) (σ : fs) :
  is_dir (parent p) σ = true →
  lookup_node p σ ≠ Some Dir →
  p ≠ [] →
  open_w p empty σ = (Ok (), <[p := empty]> σ).
Proof.
  unfold open_w, is_dir. intros Hparent Hp _.
  destruct (lookup_node (parent p) σ) as [[| |]|]; try done.
  by destruct (lookup_node p σ) as [[| |]|].
Qed.

(** C4 fails as stated: the save writes the manifest path itself.  Between its
    steps the path holds an empty file and then the opening brace only, which
    is neither the complete new document nor an absent file; and where a
    complete manifest was there before, the first step has already emptied
    it. *)
Lemma save_manifest_partial_counterexample :
  (λ σ : fs, σ !! ["clip"; "manifest.json"]) <$>
    run_trace (save_manifest_steps ["clip"; "manifest.json"] ["{"; "}"])
      playlist_only =
    [Some (Text ""); Some (Text "{"); Some (Text "{}")] ∧
  (λ σ : fs, σ !! ["clip"; "manifest.json"]) <$>
    run_trace (save_manifest_steps ["clip"; "manifest.json"] ["{"; "}"])
      playlist_with_manifest =
    [Some (Text ""); Some (Text "{"); Some (Text "{}")].
Proof. split; vm_compute; reflexivity. Qed.

(** C4, amended.  Saving a manifest opens the manifest path in place, creating
    or truncating it, and appends the chunks of the serialised document to it
    one by one: no other path is written (no temporary file, no rename).  The
    states in between differ from the initial one at the manifest path only,
    where they hold the empty text and then growing prefixes of the document;
    the last state holds the complete document. *)
Theorem save_manifest_in_place (p : path) (chunks : list string) (σ : fs) :
  is_dir (parent p) σ = true →
  lookup_node p σ ≠ Some Dir →
  p ≠ [] →
  run_trace (save_manifest_steps p chunks) σ =
    map (λ s, <[p := Text s]> σ) ("" :: written "" chunks) ∧
  (∀ t, t ∈ "" :: written "" chunks →
        ∃ rest, String.concat "" chunks = t +:+ rest) ∧
  last ("" :: written "" chunks) = Some (String.concat "" chunks) ∧
  save_manifest p chunks σ = (Ok (), <[p := Text (String.concat "" chunks)]> σ).
Proof.
  intros Hparent Hp Hne.
  unfold save_manifest, save_manifest_steps.
  cbn [run_trace run_steps map]. unfold mbind, M_bind.
  rewrite open_w_creates by done.
  split_and!.
  - by rewrite run_trace_writes.
  - intros t [->|Hin]%elem_of_cons; [by eexists|].
    by apply (written_extends "").
  - apply (written_last "").
  - by rewrite run_steps_writes.
Qed.

Lemma save_manifest_in_place_witness :
  save_manifest ["clip"; "manifest.json"] ["{"; "}"] playlist_with_manifest =
    (Ok (), <[ ["clip"; "manifest.json"] := Text "{}" ]> playlist_with_manifest) ∧
  run_trace (save_manifest_steps ["clip"; "manifest.json"] ["{"; "}"])
    playlist_with_manifest =
    map (λ s, <[ ["clip"; "manifest.json"] := Text s ]> playlist_with_manifest)
      [""; "{"; "{}"].
Proof.
  destruct (save_manifest_in_place ["clip"; "manifest.json"] ["{"; "}"]
              playlist_with_manifest) as (Htrace & _ & _ & Hsave).
  - reflexivity.
  - vm_compute. discriminate.
  - discriminate.
  - split; [exact Hsave|exact Htrace].
Defined.

(** ** C3: two runs with one playlist id *)

Lemma mkdir_rev_exclusive_exists (rp : list string) (σ : fs) :
  is_Some (lookup_node (rev rp) σ) →
  mkdir_rev false rp σ = (Raise (FileExistsError (rev rp)), σ).
Proof.
  intros [n Hn].
  destruct rp as [|c rp]; unfold mkdir_rev; fold mkdir_rev; unfold os_mkdir;
    by rewrite Hn.
Qed.

Lemma mkdir_exclusive_exists (p : path) (σ : fs) :
  is_Some (lookup_node p σ) →
  mkdir false p σ = (Raise (FileExistsError p), σ).
Proof.
  intros Hp. unfold mkdir.
  rewrite mkdir_rev_exclusive_exists; by rewrite rev_involutive.
Qed.

(** A run whose [source] directory is already there fails on its first
    [mkdir], and the handler then removes the whole playlist directory: the
    one the earlier run left. *)
Lemma upload_pipeline_collision
    (e : env) (playlist_id safe_filename : string) (requested : list Z)
    (segment_duration : Z) (σ : fs) :
  σ !! [playlist_id] = Some Dir →
  is_Some (σ !! [playlist_id; "source"]) →
  upload_pipeline e playlist_id safe_filename requested segment_duration σ =
    (Ok (Response [FlashUnexpected (FileExistsError [playlist_id; "source"])] None),
     filter (λ kv, ¬ [playlist_id] `prefix_of` kv.1) σ).
Proof.
  intros Hdir Hsource.
  unfold upload_pipeline, try_except, upload_body.
  cbn [app]. unfold mbind at 1, M_bind at 1.
  rewrite mkdir_exclusive_exists by done.
  unfold mbind, M_bind, cleanup_playlist, path_exists, rmtree.
  assert (lookup_node [playlist_id] σ = Some Dir) as -> by exact Hdir.
  done.
Qed.

Lemma rmtree_removes_subtree (p q : path) (σ : fs) :
  p `prefix_of` q →
  filter (λ kv : path * node, ¬ p `prefix_of` kv.1) σ !! q = None.
Proof.
  intros Hpre. apply map_lookup_filter_None. right. intros n _ Hnot. by apply Hnot.
Qed.

(** C3 fails on the code.  The first run of the sample upload succeeds and
    leaves its manifest; a second run that derives the same playlist id is
    refused by the exclusive [mkdir], but its rollback then deletes the
    playlist directory of the first run: nothing of it, manifest included, is
    left. *)
Theorem upload_collision_removes_first_run :
  (upload sample_env sample_form ∅).1 =
    Ok (Response [FlashSuccess "clip.mp4" 3; FlashInfo [2160]]
          (Some "clip-20240101120000")) ∧
  first_run_fs !! ["clip-20240101120000"; "manifest.json"] =
    Some (Text "{playlist_id: clip-20240101120000}") ∧
  upload sample_env sample_form first_run_fs =
    (Ok (Response
           [FlashUnexpected
              (FileExistsError ["clip-20240101120000"; "source"])]
           None),
     ∅).
Proof. split_and!; vm_compute; reflexivity. Qed.

(** The same for every environment and every state of the first run. *)
Lemma upload_collision_in_general
    (e : env) (playlist_id safe_filename : string) (requested : list Z)
    (segment_duration : Z) (σ : fs) (q : path) :
  σ !! [playlist_id] = Some Dir →
  is_Some (σ !! [playlist_id; "source"]) →
  (upload_pipeline e playlist_id safe_filename requested segment_duration σ).2
    !! ([playlist_id] ++ q) = None.
Proof.
  intros Hdir Hsource. rewrite upload_pipeline_collision by done.
  apply rmtree_removes_subtree. by apply prefix_app_r.
Qed.

(** * Part III: further properties of the code *)

(** ** Directories: [Path.mkdir], [cleanup_playlist] *)

Lemma lookup_node_insert_ne (p q : path) (n : node) (σ : fs) :
  p ≠ q → lookup_node q (<[p := n]> σ) = lookup_node q σ.
Proof.
  intros Hne. destruct q as [|c q]; [done|].
  unfold lookup_node. by rewrite lookup_insert_ne.
Qed.

Lemma lookup_node_insert_eq (p : path) (n : node) (σ : fs) :
  p ≠ [] → lookup_node p (<[p := n]> σ) = Some n.
Proof.
  intros Hne. destruct p as [|c p]; [done|].
  unfold lookup_node. by rewrite lookup_insert_eq.
Qed.

(** What [os.mkdir] can do to the file system: nothing, or add the one
    directory, which was not there. *)
Lemma os_mkdir_effect (p : path) (σ σ' : fs) (r : result unit) :
  os_mkdir p σ = (r, σ') →
  σ' = σ ∨ (r = Ok () ∧ lookup_node p σ = None ∧ σ' = <[p := Dir]> σ).
Proof.
  unfold os_mkdir. destruct (lookup_node p σ) as [n|] eqn:Hp.
  - intros [= <- <-]. by left.
  - destruct (lookup_node (parent p) σ) as [[| |]|]; intros [= <- <-];
      [right|left|left|left]; done.
Qed.

Lemma mkdir_leaf_effect (exist_ok : bool) (p : path) (σ σ' : fs) (r : result unit) :
  mkdir_leaf exist_ok p σ = (r, σ') →
  σ' = σ ∨ (r = Ok () ∧ lookup_node p σ = None ∧ σ' = <[p := Dir]> σ).
Proof.
  unfold mkdir_leaf. destruct (os_mkdir p σ) as [[u|exc] σ1] eqn:Hos.
  - intros [= <- <-]. destruct u. by apply os_mkdir_effect in Hos.
  - destruct exc; try (destruct (exist_ok && is_dir p σ));
      intros [= <- <-]; by left.
Qed.

(** [mkdir] only ever adds directories, at paths that were free and lie on
    the way to its argument. *)
Lemma mkdir_rev_effect (exist_ok : bool) (rp : list string) (σ σ' : fs)
    (r : result unit) (q : path) :
  mkdir_rev exist_ok rp σ = (r, σ') →
  lookup_node q σ' = lookup_node q σ ∨
  (lookup_node q σ = None ∧ lookup_node q σ' = Some Dir ∧
   q `prefix_of` rev rp).
Proof.
  revert exist_ok σ σ' r.
  induction rp as [|c rp IH]; intros exist_ok σ σ' r;
    unfold mkdir_rev; fold mkdir_rev.
  - destruct (os_mkdir (rev []) σ) as [[u|exc] σ1] eqn:Hos.
    + intros [= <- <-]. apply os_mkdir_effect in Hos as [->|(_ & Hnone & _)];
        [by left|done].
    + destruct exc; try (destruct (exist_ok && is_dir (rev []) σ));
        intros [= <- <-]; by left.
  - destruct (os_mkdir (rev (c :: rp)) σ) as [[u|exc] σ1] eqn:Hos.
    + intros [= <- <-].
      apply os_mkdir_effect in Hos as [->|(_ & Hnone & ->)]; [by left|].
      destruct (decide (rev (c :: rp) = q)) as [<-|Hne].
      * right. split_and!; [done| |done].
        apply lookup_node_insert_eq. simpl. by destruct (rev rp).
      * left. by apply lookup_node_insert_ne.
    + destruct exc;
        try (destruct (exist_ok && is_dir (rev (c :: rp)) σ);
             intros [= <- <-]; by left).
      destruct (mkdir_rev true rp σ) as [[u|exc2] σ2] eqn:Hparent.
      * intros Hleaf.
        apply IH in Hparent as Hq.
        assert (rev rp `prefix_of` rev (c :: rp)) as Hpre
          by (simpl; by apply prefix_app_r).
        apply mkdir_leaf_effect in Hleaf as [->|(_ & Hnone & ->)].
        -- destruct Hq as [Hq|(? & ? & ?)]; [by left|right].
           split_and!; [done|done|by etrans].
        -- destruct (decide (rev (c :: rp) = q)) as [<-|Hne].
           ++ right.
              assert (lookup_node (rev (c :: rp)) (<[rev (c :: rp):=Dir]> σ2)
                      = Some Dir) as Hnew.
              { apply lookup_node_insert_eq. simpl. by destruct (rev rp). }
              destruct Hq as [Hq|(Hq & Hdir & _)]; [|congruence].
              split_and!; [congruence|done|done].
           ++ rewrite lookup_node_insert_ne by done.
              destruct Hq as [Hq|(? & ? & ?)]; [by left|right].
              split_and!; [done|done|by etrans].
      * intros [= <- <-]. apply IH in Hparent as [Hq|(? & ? & ?)]; [by left|].
        right. split_and!; [done|done|].
        etrans; [done|]. simpl. by apply prefix_app_r.
Qed.

Lemma os_mkdir_Ok (p : path) (σ σ' : fs) (u : unit) :
  os_mkdir p σ = (Ok u, σ') →
  lookup_node p σ = None ∧ σ' = <[p := Dir]> σ ∧ lookup_node p σ' = Some Dir.
Proof.
  unfold os_mkdir. destruct (lookup_node p σ) as [n|] eqn:Hp; [done|].
  destruct (lookup_node (parent p) σ) as [[| |]|]; intros [= <- <-]; try done.
  split_and!; [done|done|]. apply lookup_node_insert_eq. by intros ->.
Qed.

Lemma mkdir_leaf_Ok (exist_ok : bool) (p : path) (σ σ' : fs) (u : unit) :
  mkdir_leaf exist_ok p σ = (Ok u, σ') → is_dir p σ' = true.
Proof.
  unfold mkdir_leaf. destruct (os_mkdir p σ) as [[u'|exc] σ1] eqn:Hos.
  - intros ?; simplify_eq. apply os_mkdir_Ok in Hos as (_ & _ & Hdir).
    unfold is_dir. by rewrite Hdir.
  - destruct exc; try done;
      destruct (exist_ok && is_dir p σ) eqn:Hok; try done;
      intros ?; simplify_eq; by apply andb_true_iff in Hok as [_ ?].
Qed.

Lemma mkdir_rev_Ok (exist_ok : bool) (rp : list string) (σ σ' : fs) (u : unit) :
  mkdir_rev exist_ok rp σ = (Ok u, σ') → is_dir (rev rp) σ' = true.
Proof.
  destruct rp as [|c rp]; unfold mkdir_rev; fold mkdir_rev.
  - destruct (os_mkdir (rev []) σ) as [[u'|exc] σ1] eqn:Hos.
    + by apply os_mkdir_Ok in Hos as (? & _).
    + destruct exc; try done;
        destruct (exist_ok && is_dir (rev []) σ) eqn:Hok; try done;
        intros ?; simplify_eq; by apply andb_true_iff in Hok as [_ ?].
  - destruct (os_mkdir (rev (c :: rp)) σ) as [[u'|exc] σ1] eqn:Hos.
    + intros ?; simplify_eq. apply os_mkdir_Ok in Hos as (_ & _ & Hdir).
      unfold is_dir. by rewrite Hdir.
    + destruct exc;
        try (destruct (exist_ok && is_dir (rev (c :: rp)) σ) eqn:Hok; try done;
             intros ?; simplify_eq; by apply andb_true_iff in Hok as [_ ?]).
      destruct (mkdir_rev true rp σ) as [[u'|exc2] σ2]; [|done].
      apply mkdir_leaf_Ok.
Qed.

(** X1: the contract of [Path.mkdir(parents=True, exist_ok=...)] as the
    pipeline relies on it.  Whatever the outcome, every node that was there is
    still there, unchanged; when it returns, the path is a directory; called
    exclusively on a path that exists it raises [FileExistsError] and changes
    nothing; called with [exist_ok] on a directory it returns and changes
    nothing. *)
Theorem mkdir_contract (exist_ok : bool) (p : path) (σ : fs) :
  (∀ q n, lookup_node q σ = Some n →
          lookup_node q (mkdir exist_ok p σ).2 = Some n) ∧
  (∀ u σ', mkdir exist_ok p σ = (Ok u, σ') → is_dir p σ' = true) ∧
  (is_Some (lookup_node p σ) →
   mkdir false p σ = (Raise (FileExistsError p), σ)) ∧
  (is_dir p σ = true → mkdir true p σ = (Ok (), σ)).
Proof.
  split_and!.
  - intros q n Hq. unfold mkdir.
    destruct (mkdir_rev exist_ok (rev p) σ) as [r σ'] eqn:Hrun.
    apply (mkdir_rev_effect _ _ _ _ _ q) in Hrun as [Hsame|(Hnone & _)];
      simpl; congruence.
  - intros u σ' Hrun. unfold mkdir in Hrun.
    apply mkdir_rev_Ok in Hrun. by rewrite rev_involutive in Hrun.
  - apply mkdir_exclusive_exists.
  - intros Hdir. unfold mkdir.
    assert (is_dir (rev (rev p)) σ = true) as Hdir'
      by (by rewrite rev_involutive).
    unfold is_dir in Hdir'.
    destruct (lookup_node (rev (rev p)) σ) as [[| |]|] eqn:Hp; try done.
    destruct (rev p) as [|c rp]; unfold mkdir_rev; fold mkdir_rev;
      unfold os_mkdir; rewrite Hp; unfold is_dir; by rewrite Hp.
Qed.

Lemma rmtree_outside (p q : path) (σ : fs) :
  ¬ p `prefix_of` q →
  filter (λ kv : path * node, ¬ p `prefix_of` kv.1) σ !! q = σ !! q.
Proof.
  intros Hout. destruct (σ !! q) as [n|] eqn:Hq.
  - by apply map_lookup_filter_Some_2.
  - apply map_lookup_filter_None_2. by left.
Qed.

Lemma lookup_node_rmtree_outside (p q : path) (σ : fs) :
  ¬ p `prefix_of` q →
  lookup_node q (filter (λ kv : path * node, ¬ p `prefix_of` kv.1) σ) =
  lookup_node q σ.
Proof.
  intros Hout. destruct q as [|c q]; [done|].
  unfold lookup_node. by apply rmtree_outside.
Qed.

Lemma lookup_node_rmtree_inside (c : string) (p q : path) (σ : fs) :
  (c :: p) `prefix_of` q →
  lookup_node q (filter (λ kv : path * node, ¬ (c :: p) `prefix_of` kv.1) σ) =
  None.
Proof.
  intros Hin. destruct q as [|c' q]; [by apply prefix_nil_not in Hin|].
  unfold lookup_node. by apply rmtree_removes_subtree.
Qed.

(** X2: the contract of [cleanup_playlist] on a playlist directory [c :: p].
    Where nothing exists at the path it does nothing, so it can be repeated;
    on a directory it removes the path and everything below it and nothing
    else, after which a second call does nothing; on a plain file it raises
    [NotADirectoryError] and changes nothing. *)
Theorem cleanup_playlist_contract (c : string) (p : path) (σ : fs) :
  (lookup_node (c :: p) σ = None →
   cleanup_playlist (c :: p) σ = (Ok (), σ)) ∧
  (lookup_node (c :: p) σ = Some Dir →
   ∃ σ', cleanup_playlist (c :: p) σ = (Ok (), σ') ∧
         (∀ q, (c :: p) `prefix_of` q → lookup_node q σ' = None) ∧
         (∀ q, ¬ (c :: p) `prefix_of` q → lookup_node q σ' = lookup_node q σ) ∧
         cleanup_playlist (c :: p) σ' = (Ok (), σ')) ∧
  (∀ n, lookup_node (c :: p) σ = Some n → n ≠ Dir →
        cleanup_playlist (c :: p) σ = (Raise (NotADirectoryError (c :: p)), σ)).
Proof.
  unfold cleanup_playlist, path_exists, rmtree. split_and!.
  - by intros ->.
  - intros Hdir. rewrite Hdir. eexists. split_and!; [done| | |].
    + intros q Hq. by apply lookup_node_rmtree_inside.
    + intros q Hq. by apply lookup_node_rmtree_outside.
    + by rewrite lookup_node_rmtree_inside.
  - intros n Hn Hnd. rewrite Hn. by destruct n.
Qed.

(** ** Invariants of the pipeline *)

Lemma keeps_ret {A : Type} (I : fs → Prop) (a : A) : keeps I (mret a).
Proof. intros σ r σ' HI [= <- <-]. done. Qed.

Lemma keeps_raise {A : Type} (I : fs → Prop) (exc : exn) : keeps I (raise (A := A) exc).
Proof. intros σ r σ' HI [= <- <-]. done. Qed.

Lemma keeps_bind {A B : Type} (I : fs → Prop) (m : M A) (f : A → M B) :
  keeps I m → (∀ a, keeps I (f a)) → keeps I (m ≫= f).
Proof.
  intros Hm Hf σ r σ' HI. unfold mbind, M_bind.
  destruct (m σ) as [[a|exc] σ1] eqn:Hrun.
  - apply Hf. by eapply Hm.
  - intros [= <- <-]. by eapply Hm.
Qed.

Lemma keeps_mapM {A B : Type} (I : fs → Prop) (f : A → M B) (l : list A) :
  (∀ a, keeps I (f a)) → keeps I (mapM f l).
Proof.
  intros Hf. induction l as [|a l IH]; simpl.
  - apply keeps_ret.
  - apply keeps_bind; [done|]. intros b.
    apply keeps_bind; [done|]. intros bs. apply keeps_ret.
Qed.

Lemma keeps_run_steps (I : fs → Prop) (steps : list (M unit)) :
  Forall (keeps I) steps → keeps I (run_steps steps).
Proof.
  induction 1 as [|step steps Hstep Hsteps IH]; simpl.
  - apply keeps_ret.
  - apply keeps_bind; [done|]. by intros _.
Qed.

Section Inside.
Context (playlist_id : string) (σ0 : fs).

Lemma under_cons (q : path) : [playlist_id] `prefix_of` q ↔ ∃ r, q = playlist_id :: r.
Proof.
  split.
  - intros [r ->]. by exists r.
  - intros [r ->]. by exists r.
Qed.

Lemma prefix_of_under (p q : path) :
  [playlist_id] `prefix_of` p → q `prefix_of` p → q ≠ [] →
  [playlist_id] `prefix_of` q.
Proof.
  intros [r ->]%under_cons [k Hk] Hne.
  destruct q as [|c q]; [done|]. simpl in Hk. injection Hk as <- _.
  apply under_cons. by eexists.
Qed.

Lemma inside_insert (p : path) (n : node) (σ : fs) :
  [playlist_id] `prefix_of` p → p ≠ [playlist_id] →
  inside playlist_id σ0 σ → inside playlist_id σ0 (<[p := n]> σ).
Proof.
  intros Hp Hne [Hdir Hframe]. split.
  - by rewrite lookup_node_insert_ne.
  - intros q Hq. rewrite lookup_node_insert_ne; [by apply Hframe|].
    by intros <-.
Qed.

Lemma keeps_insert (p : path) (n : node) :
  [playlist_id] `prefix_of` p → p ≠ [playlist_id] →
  keeps (inside playlist_id σ0) (modify_fs (<[p := n]>)).
Proof. intros Hp Hne σ r σ' HI [= <- <-]. by apply inside_insert. Qed.

Lemma keeps_mkdir (exist_ok : bool) (p : path) :
  [playlist_id] `prefix_of` p →
  keeps (inside playlist_id σ0) (mkdir exist_ok p).
Proof.
  intros Hp σ r σ' [Hdir Hframe] Hrun. unfold mkdir in Hrun.
  assert (∀ q, lookup_node q σ' = lookup_node q σ ∨
               (lookup_node q σ = None ∧ q `prefix_of` p)) as Heffect.
  { intros q.
    destruct (mkdir_rev_effect _ _ _ _ _ q Hrun) as [?|(? & _ & Hpre)];
      [by left|right]. by rewrite rev_involutive in Hpre. }
  split.
  - destruct (Heffect [playlist_id]) as [->|[? _]]; [done|congruence].
  - intros q Hq. destruct (Heffect q) as [->|[Hnone Hpre]]; [by apply Hframe|].
    destruct q as [|c q]; [done|].
    exfalso. apply Hq. by eapply prefix_of_under.
Qed.

Lemma keeps_open_w (p : path) (empty : node) :
  [playlist_id] `prefix_of` p → p ≠ [playlist_id] →
  keeps (inside playlist_id σ0) (open_w p empty).
Proof.
  intros Hp Hne σ r σ' HI. unfold open_w.
  destruct (lookup_node (parent p) σ) as [[| |]|]; try (intros [= <- <-]; done).
  destruct (lookup_node p σ) as [[| |]|]; intros [= <- <-];
    try done; by apply inside_insert.
Qed.

Lemma keeps_handle_write (p : path) (chunk : string) :
  [playlist_id] `prefix_of` p → p ≠ [playlist_id] →
  keeps (inside playlist_id σ0) (handle_write p chunk).
Proof.
  intros Hp Hne σ r σ' HI. unfold handle_write, modify_fs. intros [= <- <-].
  destruct (σ !! p) as [[| |]|]; try done. by apply inside_insert.
Qed.

Lemma keeps_save_upload (p : path) (size : Z) :
  [playlist_id] `prefix_of` p → p ≠ [playlist_id] →
  keeps (inside playlist_id σ0) (save_upload p size).
Proof.
  intros Hp Hne. unfold save_upload. apply keeps_bind.
  - by apply keeps_open_w.
  - intros _. by apply keeps_insert.
Qed.

Lemma keeps_probe_video (e : env) (p : path) :
  keeps (inside playlist_id σ0) (probe_video e p).
Proof.
  unfold probe_video. destruct (ffprobe e p) as [msg|payload].
  - apply keeps_raise.
  - destruct (_ || _); [apply keeps_raise|apply keeps_ret].
Qed.

Lemma keeps_stat_size (p : path) : keeps (inside playlist_id σ0) (stat_size p).
Proof.
  intros σ r σ' HI. unfold stat_size.
  destruct (lookup_node p σ); by intros [= <- <-].
Qed.

Lemma inside_write_chunks (dir : path) (stem : string) (k : nat) (sizes : list Z)
    (σ : fs) :
  [playlist_id] `prefix_of` dir →
  inside playlist_id σ0 σ →
  inside playlist_id σ0 (write_chunks dir stem k sizes σ).
Proof.
  intros Hdir. revert k σ.
  induction sizes as [|size sizes IH]; intros k σ HI; [done|].
  simpl. apply IH. apply inside_insert; [| |done].
  - apply under_cons in Hdir as [r ->]. apply under_cons. by eexists.
  - apply under_cons in Hdir as [r ->]. by destruct r.
Qed.

Lemma keeps_transcode_variant (e : env) (source_path output_path : path)
    (target_height segment_duration : Z) :
  [playlist_id] `prefix_of` parent output_path →
  [playlist_id] `prefix_of` output_path → output_path ≠ [playlist_id] →
  keeps (inside playlist_id σ0)
    (transcode_variant e source_path output_path target_height segment_duration).
Proof.
  intros Hparent Hp Hne. unfold transcode_variant.
  apply keeps_bind; [by apply keeps_mkdir|]. intros _.
  destruct (ffmpeg_transcode _ _ _ _ _ _) as [msg|size]; [apply keeps_raise|].
  apply keeps_bind; [by apply keeps_insert|]. intros _.
  apply keeps_probe_video.
Qed.

Lemma keeps_segment_video (e : env) (source_path destination_dir : path)
    (segment_duration : Z) :
  [playlist_id] `prefix_of` destination_dir →
  keeps (inside playlist_id σ0)
    (segment_video e source_path destination_dir segment_duration).
Proof.
  intros Hdir. unfold segment_video.
  apply keeps_bind; [by apply keeps_mkdir|]. intros _.
  destruct (ffmpeg_segment _ _ _) as [msg|sizes]; [apply keeps_raise|].
  apply keeps_bind.
  - intros σ r σ' HI [= <- <-]. by apply inside_write_chunks.
  - intros _. apply keeps_bind.
    + intros σ r σ' HI [= <- <-]. done.
    + intros σ. apply keeps_ret.
Qed.

Lemma keeps_save_manifest (p : path) (chunks : list string) :
  [playlist_id] `prefix_of` p → p ≠ [playlist_id] →
  keeps (inside playlist_id σ0) (save_manifest p chunks).
Proof.
  intros Hp Hne. apply keeps_run_steps. constructor.
  - by apply keeps_open_w.
  - apply Forall_forall. intros step (chunk & -> & _)%list_elem_of_fmap.
    by apply keeps_handle_write.
Qed.

End Inside.

Lemma parent_snoc (p : path) (c : string) : parent (p ++ [c]) = p.
Proof.
  unfold parent. rewrite length_app. simpl.
  replace (length p + 1 - 1)%nat with (length p) by lia.
  by rewrite take_app_length.
Qed.

Lemma keeps_process_target
    (playlist_id : string) (σ0 : fs) (e : env)
    (variants_dir segments_dir original_path : path) (base_stem : string)
    (source_height segment_duration target : Z) :
  [playlist_id] `prefix_of` variants_dir →
  [playlist_id] `prefix_of` segments_dir →
  keeps (inside playlist_id σ0)
    (process_target e variants_dir segments_dir original_path base_stem
       source_height segment_duration target).
Proof.
  intros Hv Hs. unfold process_target.
  assert ([playlist_id] `prefix_of` variants_dir ++ [Py.str target +:+ "p"])
    as Hvd by (by apply prefix_app_r).
  apply keeps_bind; [by apply keeps_mkdir|]. intros _.
  apply keeps_bind.
  - apply keeps_transcode_variant.
    + by rewrite parent_snoc.
    + by apply prefix_app_r.
    + apply under_cons in Hv as [r ->]. by destruct r.
  - intros info. apply keeps_bind.
    + apply keeps_segment_video. by apply prefix_app_r.
    + intros segments. apply keeps_bind; [apply keeps_stat_size|].
      intros size. apply keeps_ret.
Qed.

(** The exclusive [mkdir] of the [source] directory, where the playlist path
    is free or a directory: it fails without a trace, or leaves the playlist
    directory in place and everything outside it as it was. *)
Lemma first_mkdir_outcome (playlist_id : string) (σ σ1 : fs) (r : result unit) :
  lookup_node [playlist_id] σ = None ∨ lookup_node [playlist_id] σ = Some Dir →
  mkdir false [playlist_id; "source"] σ = (r, σ1) →
  (∃ exc, r = Raise exc ∧ σ1 = σ) ∨ (r = Ok () ∧ inside playlist_id σ σ1).
Proof.
  intros Hid. unfold mkdir. cbn [rev app].
  unfold mkdir_rev. unfold os_mkdir at 1. cbn [rev app].
  destruct (lookup_node [playlist_id; "source"] σ) as [n|] eqn:Hsrc.
  { intros [= <- <-]. left. by eexists. }
  change (parent [playlist_id; "source"]) with [playlist_id].
  destruct Hid as [Hid|Hid]; rewrite Hid.
  - unfold os_mkdir at 1. rewrite Hid.
    change (parent [playlist_id]) with (@nil string). cbn [lookup_node].
    unfold mkdir_leaf, os_mkdir.
    rewrite lookup_node_insert_ne, Hsrc by done.
    change (parent [playlist_id; "source"]) with [playlist_id].
    rewrite lookup_node_insert_eq by done.
    intros [= <- <-]. right. split; [done|].
    apply inside_insert; [by apply under_cons; eexists|done|].
    split; [by apply lookup_node_insert_eq|].
    intros q Hq. apply lookup_node_insert_ne. by intros <-.
  - intros [= <- <-]. right. split; [done|].
    apply inside_insert; [by apply under_cons; eexists|done|]. by split.
Qed.

Lemma upload_body_outcome
    (e : env) (playlist_id safe_filename : string) (requested : list Z)
    (segment_duration : Z) (σ σ' : fs) (r : result response) :
  lookup_node [playlist_id] σ = None ∨ lookup_node [playlist_id] σ = Some Dir →
  upload_body e playlist_id safe_filename requested segment_duration σ = (r, σ') →
  (∃ exc, r = Raise exc ∧ σ' = σ) ∨ inside playlist_id σ σ'.
Proof.
  intros Hid. unfold upload_body. cbn [app]. unfold mbind at 1, M_bind at 1.
  destruct (mkdir false [playlist_id; "source"] σ) as [r1 σ1] eqn:Hfirst.
  destruct (first_mkdir_outcome _ _ _ _ Hid Hfirst) as [(exc & -> & ->)|[-> Hin]].
  { intros [= <- <-]. left. by eexists. }
  intros Hrest. right.
  match type of Hrest with
  | ?m σ1 = _ => assert (keeps (inside playlist_id σ) m) as Hkeeps
  end; [|by eapply Hkeeps].
  assert (∀ x r, [playlist_id] `prefix_of` playlist_id :: x :: r) as Hunder
    by (intros; apply under_cons; by eexists).
  apply keeps_bind; [by apply keeps_mkdir|]. intros _.
  apply keeps_bind; [by apply keeps_mkdir|]. intros _.
  apply keeps_bind; [by apply keeps_save_upload|]. intros _.
  apply keeps_bind; [apply keeps_probe_video|]. intros info.
  apply keeps_bind.
  { apply keeps_mapM. intros target. by apply keeps_process_target. }
  intros variants.
  apply keeps_bind; [by apply keeps_save_manifest|]. intros _.
  apply keeps_ret.
Qed.

Lemma probe_video_pure (e : env) (p : path) (σ σ' : fs) (r : result video_info) :
  probe_video e p σ = (r, σ') → σ' = σ ∧ ∀ σ2, probe_video e p σ2 = (r, σ2).
Proof.
  unfold probe_video. destruct (ffprobe e p) as [msg|payload].
  - by intros [= <- <-].
  - destruct (_ || _); by intros [= <- <-].
Qed.

(** What a returning [try] block has done: probed the source, processed every
    target of the plan in order, and saved the manifest last. *)
Lemma upload_body_Ok
    (e : env) (playlist_id safe_filename : string) (requested : list Z)
    (segment_duration : Z) (σ σ' : fs) (resp : response) :
  upload_body e playlist_id safe_filename requested segment_duration σ =
    (Ok resp, σ') →
  ∃ source_info variants σa σb,
    probe_video e [playlist_id; "source"; safe_filename] σ =
      (Ok source_info, σ) ∧
    mapM (process_target e [playlist_id; "variants"] [playlist_id; "segments"]
            [playlist_id; "source"; safe_filename] (Py.stem safe_filename)
            (vi_height source_info) segment_duration)
         (targets (plan (vi_height source_info) requested)) σa =
      (Ok variants, σb) ∧
    save_manifest [playlist_id; "manifest.json"]
      (json_dump e (manifest_payload_of e playlist_id safe_filename requested
                      segment_duration source_info variants)) σb = (Ok (), σ') ∧
    last_upload_id resp = Some playlist_id ∧
    flashes resp =
      FlashSuccess safe_filename (length variants) ::
      match skipped_resolutions (plan (vi_height source_info) requested) with
      | [] => []
      | skipped => [FlashInfo skipped]
      end ∧
    lookup_node [playlist_id; "source"; safe_filename] σa =
      Some (Blob (upload_size e)).
Proof.
  unfold upload_body. cbn [app].
  intros (u1 & σ1 & _ & Hrun)%bind_Ok.
  apply bind_Ok in Hrun as (u2 & σ2 & _ & Hrun).
  apply bind_Ok in Hrun as (u3 & σ3 & _ & Hrun).
  apply bind_Ok in Hrun as (u4 & σ4 & Hsaved & Hrun).
  apply bind_Ok in Hrun as (info & σ5 & Hprobe & Hrun).
  apply bind_Ok in Hrun as (variants & σ6 & Hloop & Hrun).
  apply bind_Ok in Hrun as ([] & σ7 & Hsave & Hrun).
  injection Hrun as <- <-.
  exists info, variants, σ5, σ6.
  pose proof (probe_video_pure _ _ _ _ _ Hprobe) as [-> Hpure].
  unfold save_upload in Hsaved.
  apply bind_Ok in Hsaved as (u5 & σ8 & _ & Hwritten).
  unfold modify_fs in Hwritten. injection Hwritten as _ <-.
  split_and!; try done. by apply lookup_node_insert_eq.
Qed.

Lemma cleanup_playlist_dir (playlist_id : string) (σ : fs) :
  lookup_node [playlist_id] σ = Some Dir →
  cleanup_playlist [playlist_id] σ =
    (Ok (), filter (λ kv : path * node, ¬ [playlist_id] `prefix_of` kv.1) σ).
Proof.
  intros Hdir. unfold cleanup_playlist, path_exists, rmtree.
  assert (lookup_node [playlist_id] σ = Some Dir) as -> by exact Hdir. done.
Qed.

Lemma cleanup_playlist_free (playlist_id : string) (σ : fs) :
  lookup_node [playlist_id] σ = None →
  cleanup_playlist [playlist_id] σ = (Ok (), σ).
Proof.
  intros Hfree. unfold cleanup_playlist, path_exists.
  assert (lookup_node [playlist_id] σ = None) as -> by exact Hfree. done.
Qed.

(** X3: the rollback of [upload].  Started where the playlist path is a
    directory, or where nothing exists at or below it, the [try] block with
    its handlers always comes back with a response (no exception leaves it);
    whatever happened inside, every path outside the playlist directory is as
    it was before; and when the response names no playlist (the run failed),
    nothing is left at or below the playlist path. *)
Theorem upload_pipeline_rolls_back
    (e : env) (playlist_id safe_filename : string) (requested : list Z)
    (segment_duration : Z) (σ : fs) :
  lookup_node [playlist_id] σ = Some Dir ∨
  (∀ q, [playlist_id] `prefix_of` q → lookup_node q σ = None) →
  ∃ resp σ',
    upload_pipeline e playlist_id safe_filename requested segment_duration σ =
      (Ok resp, σ') ∧
    (∀ q, ¬ [playlist_id] `prefix_of` q → lookup_node q σ' = lookup_node q σ) ∧
    (last_upload_id resp = None →
     ∀ q, [playlist_id] `prefix_of` q → lookup_node q σ' = None).
Proof.
  intros Hstart.
  assert (lookup_node [playlist_id] σ = None ∨
          lookup_node [playlist_id] σ = Some Dir) as Hid.
  { destruct Hstart as [Hdir|Hfree]; [by right|left]. by apply Hfree. }
  unfold upload_pipeline, try_except.
  destruct (upload_body e playlist_id safe_filename requested segment_duration σ)
    as [[resp|exc] σ1] eqn:Hbody.
  - exists resp, σ1. split; [done|].
    destruct (upload_body_outcome _ _ _ _ _ _ _ _ Hid Hbody)
      as [(exc & ? & _)|[_ Hframe]]; [done|].
    split; [done|]. intros Hnone.
    apply upload_body_Ok in Hbody as (? & ? & ? & ? & _ & _ & _ & Hlast & _).
    congruence.
  - unfold mbind, M_bind.
    destruct (upload_body_outcome _ _ _ _ _ _ _ _ Hid Hbody)
      as [(exc' & _ & ->)|[Hdir Hframe]].
    + destruct Hstart as [Hdir|Hfree].
      * rewrite cleanup_playlist_dir by done. eexists _, _.
        split_and!; [done| |].
        -- intros q Hq. by apply lookup_node_rmtree_outside.
        -- intros _ q Hq. by apply lookup_node_rmtree_inside.
      * rewrite cleanup_playlist_free by (by apply Hfree). eexists _, _.
        split_and!; [done|done|]. intros _. exact Hfree.
    + rewrite cleanup_playlist_dir by done. eexists _, _.
      split_and!; [done| |].
      * intros q Hq. rewrite lookup_node_rmtree_outside by done.
        by apply Hframe.
      * intros _ q Hq. by apply lookup_node_rmtree_inside.
Qed.

Lemma upload_pipeline_rolls_back_witness :
  ∃ σ',
    upload_pipeline failing_env "clip-20240101120000" "clip.mp4" [1080; 720] 30 ∅ =
      (Ok (Response [FlashError "Conversion failed!"] None), σ') ∧
    (∀ q, ¬ ["clip-20240101120000"] `prefix_of` q →
          lookup_node q σ' = lookup_node q ∅) ∧
    (∀ q, ["clip-20240101120000"] `prefix_of` q → lookup_node q σ' = None).
Proof.
  assert (lookup_node ["clip-20240101120000"] ∅ = Some Dir ∨
          ∀ q, ["clip-20240101120000"] `prefix_of` q →
               lookup_node q (∅ : fs) = None) as Hstart.
  { right. intros [|c q] Hq; [by apply prefix_nil_not in Hq|]. reflexivity. }
  evaluated ((upload_pipeline failing_env "clip-20240101120000" "clip.mp4"
                [1080; 720] 30 ∅).1) as Hfst.
  pose proof (upload_pipeline_rolls_back failing_env "clip-20240101120000"
                "clip.mp4" [1080; 720] 30 ∅ Hstart) as Hrolled.
  destruct (upload_pipeline failing_env "clip-20240101120000" "clip.mp4"
              [1080; 720] 30 ∅) as [r σ'].
  cbn [fst] in Hfst. subst r.
  destruct Hrolled as (resp & σ'' & [= <- <-] & Hframe & Hgone).
  exists σ'. split; [reflexivity|]. split; [exact Hframe|].
  apply Hgone. reflexivity.
Defined.

Lemma mapM_Ok {A B : Type} (f : A → M B) (l : list A) (σ σ' : fs) (bs : list B) :
  mapM f l σ = (Ok bs, σ') →
  Forall2 (λ a b, ∃ σa σb, f a σa = (Ok b, σb)) l bs.
Proof.
  revert σ σ' bs. induction l as [|a l IH]; intros σ σ' bs; simpl.
  - intros [= <- _]. constructor.
  - intros (b & σ1 & Hhead & Hrun)%bind_Ok.
    apply bind_Ok in Hrun as (bs' & σ2 & Htail & Hrun).
    injection Hrun as <- _. constructor; [by eexists _, _|by eapply IH].
Qed.

(** What a variant dictionary takes from the target it was made for. *)
Lemma process_target_shape
    (e : env) (variants_dir segments_dir original_path : path) (base_stem : string)
    (source_height segment_duration target : Z) (σ σ' : fs) (v : variant) :
  process_target e variants_dir segments_dir original_path base_stem
    source_height segment_duration target σ = (Ok v, σ') →
  v_label v =
    Some (Py.str target +:+ "p" +:+
          (if target =? source_height then " (master)" else "")) ∧
  v_file v =
    Some (to_relative
            ((variants_dir ++ [Py.str target +:+ "p"]) ++
             [base_stem +:+ "_" +:+ Py.str target +:+ "p.mp4"])) ∧
  v_is_master v = Some (target =? source_height).
Proof.
  unfold process_target.
  intros (u & σ1 & _ & Hrun)%bind_Ok.
  apply bind_Ok in Hrun as (info & σ2 & _ & Hrun).
  apply bind_Ok in Hrun as (segments & σ3 & _ & Hrun).
  apply bind_Ok in Hrun as (size & σ4 & _ & Hrun).
  by injection Hrun as <- <-.
Qed.

Lemma save_manifest_outcome (p : path) (chunks : list string) (σ σ' : fs)
    (r : result unit) :
  save_manifest p chunks σ = (r, σ') →
  (r = Ok () ∧ σ' = <[p := Text (String.concat "" chunks)]> σ ∧
   is_dir (parent p) σ = true ∧ lookup_node p σ ≠ Some Dir) ∨
  (σ' = σ ∧
   (r = Raise (FileNotFoundError p) ∧ lookup_node (parent p) σ = None ∨
    r = Raise (NotADirectoryError p) ∧
      is_Some (lookup_node (parent p) σ) ∧ is_dir (parent p) σ = false ∨
    r = Raise (IsADirectoryError p) ∧
      is_dir (parent p) σ = true ∧ lookup_node p σ = Some Dir)).
Proof.
  unfold save_manifest, save_manifest_steps. cbn [run_steps].
  unfold mbind at 1, M_bind at 1. unfold open_w, is_dir.
  destruct (lookup_node (parent p) σ) as [[| |]|] eqn:Hparent;
    try (intros [= <- <-]; right; split; [done|]; naive_solver).
  destruct (lookup_node p σ) as [[| |]|] eqn:Hp;
    try (intros [= <- <-]; right; split; [done|]; naive_solver);
    rewrite run_steps_writes; intros [= <- <-]; left; by split_and!.
Qed.

(** X4: what saving the manifest does when it fails and when it returns.  It
    raises [FileNotFoundError] where the parent of the path is missing,
    [NotADirectoryError] where the parent is a plain file and
    [IsADirectoryError] where the path is a directory, each time leaving the
    file system untouched; in every other state it returns, and the path then
    holds the chunks of the new document only, whatever it held before. *)
Theorem save_manifest_contract (p : path) (chunks : list string) (σ : fs) :
  (lookup_node (parent p) σ = None →
   save_manifest p chunks σ = (Raise (FileNotFoundError p), σ)) ∧
  (∀ n, lookup_node (parent p) σ = Some n → n ≠ Dir →
        save_manifest p chunks σ = (Raise (NotADirectoryError p), σ)) ∧
  (lookup_node (parent p) σ = Some Dir → lookup_node p σ = Some Dir →
   save_manifest p chunks σ = (Raise (IsADirectoryError p), σ)) ∧
  (lookup_node (parent p) σ = Some Dir → lookup_node p σ ≠ Some Dir →
   ∃ σ', save_manifest p chunks σ = (Ok (), σ') ∧
         σ' !! p = Some (Text (String.concat "" chunks)) ∧
         ∀ q, q ≠ p → σ' !! q = σ !! q).
Proof.
  unfold save_manifest, save_manifest_steps. cbn [run_steps].
  unfold mbind, M_bind, open_w.
  split_and!.
  - by intros ->.
  - intros n -> Hn. by destruct n.
  - by intros -> ->.
  - intros -> Hp. eexists. split.
    + destruct (lookup_node p σ) as [[| |]|]; try done;
        by rewrite run_steps_writes.
    + split; [by rewrite lookup_insert_eq|].
      intros q Hq. by rewrite lookup_insert_ne.
Qed.

Lemma Forall2_with_elem_of {A B : Type} (P : A → B → Prop) (l : list A) (k : list B) :
  Forall2 P l k → Forall2 (λ a b, a ∈ l ∧ P a b) l k.
Proof.
  induction 1 as [|a b l k Hab Hlk IH]; constructor.
  - split; [left|done].
  - eapply Forall2_impl; [done|]. intros a' b' [? ?]. split; [by right|done].
Qed.

(** A run of the pipeline that names a playlist in its response: the probe,
    the manifest it has saved, and what each variant of the manifest takes
    from its target. *)
Lemma upload_success_shape
    (e : env) (playlist_id safe_filename : string) (requested : list Z)
    (segment_duration : Z) (σ σ' : fs) (resp : response) :
  upload_pipeline e playlist_id safe_filename requested segment_duration σ =
    (Ok resp, σ') →
  is_Some (last_upload_id resp) →
  ∃ source_info master others,
    last_upload_id resp = Some playlist_id ∧
    probe_video e [playlist_id; "source"; safe_filename] σ =
      (Ok source_info, σ) ∧
    σ' !! [playlist_id; "manifest.json"] =
      Some (Text (String.concat ""
                    (json_dump e
                       (manifest_payload_of e playlist_id safe_filename requested
                          segment_duration source_info (master :: others))))) ∧
    Forall2 (λ target v,
               v_label v =
                 Some (Py.str target +:+ "p" +:+
                       (if target =? vi_height source_info
                        then " (master)" else "")) ∧
               v_file v =
                 Some (to_relative
                         [playlist_id; "variants"; Py.str target +:+ "p";
                          Py.stem safe_filename +:+ "_" +:+ Py.str target +:+
                          "p.mp4"]) ∧
               v_is_master v = Some (target =? vi_height source_info))
            (vi_height source_info ::
             filter (λ res, res < vi_height source_info)
                    (Py.sorted_set_rev requested))
            (master :: others) ∧
    head (flashes resp) = Some (FlashSuccess safe_filename (S (length others))).
Proof.
  unfold upload_pipeline, try_except.
  destruct (upload_body e playlist_id safe_filename requested segment_duration σ)
    as [[resp'|exc] σ1] eqn:Hbody.
  - intros [= <- <-] _.
    apply upload_body_Ok in Hbody
      as (info & variants & σa & σb & Hprobe & Hloop & Hsave & Hlast & Hflash & _).
    apply mapM_Ok in Hloop.
    change (targets (plan (vi_height info) requested))
      with (vi_height info :: tail (targets (plan (vi_height info) requested)))
      in Hloop.
    rewrite plan_lower_targets in Hloop.
    pose proof Hloop as Hshape.
    apply Forall2_cons_inv_l in Hloop as (master & others & _ & _ & ->).
    exists info, master, others.
    apply save_manifest_outcome in Hsave
      as [(_ & -> & _)|(_ & [[? _]|[[? _]|[? _]]])]; try done.
    split; [done|]. split; [done|].
    split; [by rewrite lookup_insert_eq|].
    split; [|by rewrite Hflash].
    eapply Forall2_impl; [done|].
    intros target v (σv & σv' & Hv). by apply process_target_shape in Hv.
  - unfold mbind, M_bind.
    destruct (cleanup_playlist [playlist_id] σ1) as [[u|exc'] σ2];
      [|done].
    intros [= <- <-] [id' Hid']. done.
Qed.

Lemma below_not_master (source_height : Z) (requested : list Z) (target : Z) :
  target ∈ filter (λ res, res < source_height) (Py.sorted_set_rev requested) →
  (target =? source_height) = false.
Proof. intros [Hlt _]%list_elem_of_filter. simpl in Hlt. apply Z.eqb_neq. lia. Qed.

(** X5: what a successful run of [upload] leaves behind.  When the response
    names a playlist, it is this run's; the source was probed successfully;
    the manifest path holds the complete serialised manifest (every chunk of
    [json.dump], nothing else); the manifest lists one variant per target, in
    target order: the first, for the source height, is the only one flagged
    master and labelled [(master)], the others are the requested heights below
    the source height, largest first, labelled by their height; and the
    success message counts exactly these variants. *)
Theorem upload_success_manifest
    (e : env) (playlist_id safe_filename : string) (requested : list Z)
    (segment_duration : Z) (σ σ' : fs) (resp : response) :
  upload_pipeline e playlist_id safe_filename requested segment_duration σ =
    (Ok resp, σ') →
  is_Some (last_upload_id resp) →
  ∃ source_info master others,
    last_upload_id resp = Some playlist_id ∧
    probe_video e [playlist_id; "source"; safe_filename] σ =
      (Ok source_info, σ) ∧
    σ' !! [playlist_id; "manifest.json"] =
      Some (Text (String.concat ""
                    (json_dump e
                       (manifest_payload_of e playlist_id safe_filename requested
                          segment_duration source_info (master :: others))))) ∧
    v_is_master master = Some true ∧
    v_label master = Some (Py.str (vi_height source_info) +:+ "p (master)") ∧
    Forall2 (λ target v,
               v_is_master v = Some false ∧
               v_label v = Some (Py.str target +:+ "p"))
            (filter (λ res, res < vi_height source_info)
                    (Py.sorted_set_rev requested))
            others ∧
    head (flashes resp) = Some (FlashSuccess safe_filename (S (length others))).
Proof.
  intros Hrun Hnamed.
  destruct (upload_success_shape _ _ _ _ _ _ _ _ Hrun Hnamed)
    as (info & master & others & Hlast & Hprobe & Hmanifest & Hshape & Hflash).
  exists info, master, others.
  apply Forall2_cons_1 in Hshape as [(Hlabel & _ & Hflag) Hothers].
  rewrite Z.eqb_refl in Hlabel, Hflag.
  split; [done|]. split; [done|]. split; [done|]. split; [done|].
  split; [by rewrite Hlabel|]. split; [|done].
  apply Forall2_with_elem_of in Hothers.
  eapply Forall2_impl; [done|].
  intros target v [Hne%below_not_master (Hlabel' & _ & Hflag')].
  rewrite Hne in Hlabel', Hflag'.
  by rewrite string_app_nil_r in Hlabel'.
Qed.

Lemma upload_success_manifest_witness :
  ∃ resp σ' source_info master others,
    upload_pipeline sample_env "clip-20240101120000" "clip.mp4"
      [2160; 1080; 720; 480] 30 ∅ = (Ok resp, σ') ∧
    resp = Response [FlashSuccess "clip.mp4" 3; FlashInfo [2160]]
             (Some "clip-20240101120000") ∧
    last_upload_id resp = Some "clip-20240101120000" ∧
    probe_video sample_env ["clip-20240101120000"; "source"; "clip.mp4"] ∅ =
      (Ok source_info, ∅) ∧
    σ' !! ["clip-20240101120000"; "manifest.json"] =
      Some (Text (String.concat ""
                    (json_dump sample_env
                       (manifest_payload_of sample_env "clip-20240101120000"
                          "clip.mp4" [2160; 1080; 720; 480] 30 source_info
                          (master :: others))))) ∧
    v_is_master master = Some true ∧
    v_label master = Some (Py.str (vi_height source_info) +:+ "p (master)") ∧
    Forall2 (λ target v,
               v_is_master v = Some false ∧
               v_label v = Some (Py.str target +:+ "p"))
            (filter (λ res, res < vi_height source_info)
                    (Py.sorted_set_rev [2160; 1080; 720; 480]))
            others ∧
    head (flashes resp) = Some (FlashSuccess "clip.mp4" (S (length others))).
Proof.
  evaluated ((upload_pipeline sample_env "clip-20240101120000" "clip.mp4"
                [2160; 1080; 720; 480] 30 ∅).1) as Hfst.
  destruct (upload_pipeline sample_env "clip-20240101120000" "clip.mp4"
              [2160; 1080; 720; 480] 30 ∅) as [[resp|exc] σ'] eqn:Hrun;
    [|discriminate].
  cbn [fst] in Hfst. injection Hfst as ->.
  destruct (upload_success_manifest _ _ _ _ _ _ _ _ Hrun)
    as (info & master & others & Hsuccess); [by eexists|].
  eexists _, σ', info, master, others.
  split; [reflexivity|]. split; [reflexivity|]. exact Hsuccess.
Defined.

(** ** [sanitize_basename] *)

Lemma chars_rev_app (s t : string) :
  chars (String.rev_app s t) = rev (chars s) ++ chars t.
Proof.
  revert t. induction s as [|c s IH]; intros t; [done|].
  cbn [String.rev_app]. rewrite IH. cbn [chars String.list_ascii_of_string rev].
  by rewrite <- app_assoc.
Qed.

Lemma chars_rev (s : string) : chars (String.rev s) = rev (chars s).
Proof. unfold String.rev. rewrite chars_rev_app. apply app_nil_r. Qed.

Lemma chars_lower (s : string) : chars (lower s) = lower_ascii <$> chars s.
Proof.
  induction s as [|c s IH]; [done|].
  unfold chars in *. simpl. by rewrite IH.
Qed.

Lemma chars_inj (s t : string) : chars s = chars t → s = t.
Proof.
  intros Heq.
  rewrite <- (String.string_of_list_ascii_of_string s),
          <- (String.string_of_list_ascii_of_string t).
  unfold chars in Heq. by rewrite Heq.
Qed.

Lemma chars_nil (s : string) : chars s = [] ↔ s = "".
Proof. by destruct s. Qed.

Lemma chars_sub_runs (in_run : bool) (s : string) :
  Forall (λ c, is_slug_char c = true) (chars (sub_runs in_run s)).
Proof.
  revert in_run. induction s as [|c s IH]; intros in_run; [constructor|].
  cbn [sub_runs]. destruct (is_slug_char c) eqn:Hc.
  - constructor; [done|apply IH].
  - destruct in_run; [apply IH|]. constructor; [done|apply IH].
Qed.

Lemma chars_lstrip_dash (s : string) :
  head (chars (lstrip_dash s)) ≠ Some "-"%char ∧
  ∃ dashes, chars s = dashes ++ chars (lstrip_dash s).
Proof.
  induction s as [|c s [IHhead [dashes IH]]].
  - split; [done|]. by exists [].
  - cbn [lstrip_dash]. destruct (Ascii.eqb c "-") eqn:Hc.
    + split; [done|]. exists (c :: dashes).
      cbn [chars String.list_ascii_of_string app]. by f_equal.
    + split; [|by exists []].
      cbn. intros [= ->]. by rewrite Ascii.eqb_refl in Hc.
Qed.

Lemma chars_strip_dash (s : string) :
  head (chars (strip_dash s)) ≠ Some "-"%char ∧
  last (chars (strip_dash s)) ≠ Some "-"%char ∧
  ∃ before after, chars s = before ++ chars (strip_dash s) ++ after.
Proof.
  unfold strip_dash. rewrite chars_rev.
  destruct (chars_lstrip_dash s) as [Hhead [before Hbefore]].
  destruct (chars_lstrip_dash (String.rev (lstrip_dash s)))
    as [Hlast [after Hafter]].
  rewrite chars_rev in Hafter.
  apply (f_equal (@rev ascii)) in Hafter.
  rewrite rev_involutive, rev_app_distr in Hafter.
  set (inner := chars (lstrip_dash (String.rev (lstrip_dash s)))) in *.
  split_and!.
  - rewrite Hafter in Hhead. destruct (rev inner); [done|exact Hhead].
  - destruct inner as [|c inner]; [done|].
    cbn [rev]. rewrite last_snoc. exact Hlast.
  - exists before, (rev after). by rewrite <- Hafter.
Qed.

Lemma lower_ascii_slug (c : ascii) :
  is_slug_char c = true →
  is_lower_slug_char (lower_ascii c) = true ∧
  (lower_ascii c = "-"%char → c = "-"%char).
Proof.
  destruct c as [[] [] [] [] [] [] [] []]; vm_compute; intros H;
    try discriminate H; split; try reflexivity; intros H'; discriminate H'.
Qed.

Lemma sanitize_basename_chars (filename : string) :
  sanitize_basename filename ≠ "" ∧
  Forall (λ c, is_lower_slug_char c = true) (chars (sanitize_basename filename)) ∧
  head (chars (sanitize_basename filename)) ≠ Some "-"%char ∧
  last (chars (sanitize_basename filename)) ≠ Some "-"%char.
Proof.
  unfold sanitize_basename.
  set (replaced := sub_runs false (Py.stem filename)).
  destruct (Py.truthy_str (lower (strip_dash replaced))) eqn:Hslug.
  - apply truthy_str_spec in Hslug.
    destruct (chars_strip_dash replaced) as (Hhead & Hlast & before & after & Hin).
    assert (Forall (λ c, is_slug_char c = true) (chars (strip_dash replaced)))
      as Hall.
    { pose proof (chars_sub_runs false (Py.stem filename)) as Hsub.
      fold replaced in Hsub. rewrite Hin in Hsub.
      by apply Forall_app in Hsub as [_ [? _]%Forall_app]. }
    rewrite chars_lower. split_and!.
    + done.
    + apply Forall_fmap. eapply Forall_impl; [done|].
      intros c Hc. by apply lower_ascii_slug.
    + destruct Hall as [|c l Hc Hl]; [done|].
      cbn. intros [= Heq]. apply Hhead. cbn. f_equal.
      by apply lower_ascii_slug.
    + rewrite fmap_last.
      destruct (last (chars (strip_dash replaced))) as [c|] eqn:Hc; [|done].
      cbn. intros [= Heq]. apply Hlast. f_equal.
      apply lower_ascii_slug; [|done].
      apply last_Some_elem_of in Hc. by eapply Forall_forall in Hall.
  - split_and!; [done| |done|done]. by repeat constructor.
Qed.

(** X6: the slug [sanitize_basename] returns, for every file name: it is never
    empty, consists of lower-case letters, digits and dashes only (so it holds
    no dot, slash or space), and neither starts nor ends with a dash. *)
Theorem sanitize_basename_slug (filename : string) :
  sanitize_basename filename ≠ "" ∧
  Forall (λ c, is_lower_slug_char c = true) (chars (sanitize_basename filename)) ∧
  head (chars (sanitize_basename filename)) ≠ Some "-"%char ∧
  last (chars (sanitize_basename filename)) ≠ Some "-"%char.
Proof. apply sanitize_basename_chars. Qed.

(** ** [allowed_file] *)

Lemma rfind_dot_app (s t : string) (pos : nat) (acc : option nat) :
  Py.rfind_dot (s +:+ t) pos acc =
  Py.rfind_dot t (pos + String.length s) (Py.rfind_dot s pos acc).
Proof.
  revert pos acc. induction s as [|c s IH]; intros pos acc.
  - cbn. by rewrite Nat.add_0_r.
  - change (String c s +:+ t) with (String c (s +:+ t)).
    cbn [Py.rfind_dot String.length]. rewrite IH. f_equal. lia.
Qed.

Lemma rfind_dot_no_dot (s : string) (pos : nat) (acc : option nat) :
  "."%char ∉ chars s → Py.rfind_dot s pos acc = acc.
Proof.
  revert pos acc. induction s as [|c s IH]; intros pos acc Hdot; [done|].
  cbn [Py.rfind_dot]. apply not_elem_of_cons in Hdot as [Hc Hs].
  rewrite IH by done.
  destruct (Ascii.eqb_spec c "."); [by subst|done].
Qed.

Lemma substring_all (s : string) : String.substring 0 (String.length s) s = s.
Proof. induction s as [|c s IH]; [done|]. cbn. by rewrite IH. Qed.

Lemma substring_after (s t : string) (c : ascii) :
  String.substring (S (String.length s))
    (String.length (s +:+ String c t) - S (String.length s))
    (s +:+ String c t) = t.
Proof.
  induction s as [|c' s IH].
  - cbn [String.length]. change ("" +:+ String c t) with (String c t).
    cbn [String.substring String.length].
    replace (S (String.length t) - 1)%nat with (String.length t) by lia.
    apply substring_all.
  - change (String c' s +:+ String c t) with (String c' (s +:+ String c t)).
    cbn [String.length String.substring].
    replace (S (String.length (s +:+ String c t)) - S (S (String.length s)))%nat
      with (String.length (s +:+ String c t) - S (String.length s))%nat by lia.
    exact IH.
Qed.

Lemma extension_last (name ext : string) :
  "."%char ∉ chars ext → extension (name +:+ "." +:+ ext) = Some ext.
Proof.
  intros Hdot. unfold extension.
  change ("." +:+ ext) with (String "." ext).
  rewrite rfind_dot_app. cbn [Py.rfind_dot]. rewrite Ascii.eqb_refl.
  rewrite rfind_dot_no_dot by done. simpl "+"%nat.
  by rewrite substring_after.
Qed.

(** X7: [allowed_file] looks at what follows the last dot only, and ignores
    its case.  For an extension [ext] without a dot (in ASCII, where [lower]
    is [str.lower]), [name.ext] is allowed exactly when [ext] in lower case is
    one of [mp4], [mov], [mkv], [webm], whatever [name] is and however many
    other extensions it carries; and [ext] alone, a name without a dot, is
    refused. *)
Theorem allowed_file_last_extension (name ext : string) :
  "."%char ∉ chars ext →
  Forall (λ c, (nat_of_ascii c < 128)%nat) (chars ext) →
  (allowed_file (name +:+ "." +:+ ext) = true ↔
   lower ext ∈ ALLOWED_EXTENSIONS) ∧
  allowed_file ext = false.
Proof.
  intros Hdot _. unfold allowed_file. split.
  - rewrite extension_last by done. apply bool_decide_eq_true.
  - unfold extension. by rewrite rfind_dot_no_dot.
Qed.

Lemma allowed_file_last_extension_witness :
  (allowed_file ("holiday.mp4.exe" +:+ "." +:+ "MoV") = true ↔
   lower "MoV" ∈ ALLOWED_EXTENSIONS) ∧
  allowed_file "MoV" = false.
Proof.
  apply allowed_file_last_extension.
  - vm_compute. intros Hin. repeat (apply elem_of_cons in Hin as [Hin|Hin];
      [discriminate Hin|]). by apply elem_of_nil in Hin.
  - repeat constructor.
Defined.

(** ** The checks of [upload] *)

Lemma chars_app (s t : string) : chars (s +:+ t) = chars s ++ chars t.
Proof.
  induction s as [|c s IH]; [done|].
  change (String c s +:+ t) with (String c (s +:+ t)).
  unfold chars in *. simpl. by rewrite IH.
Qed.

Lemma is_digit_slug (c : ascii) :
  is_digit c = true → is_lower_slug_char c = true.
Proof.
  unfold is_digit, is_lower_slug_char. cbn zeta. intros ->. done.
Qed.

(** X8: what an accepted request carries into the pipeline.  The file name was
    present, not empty and of an allowed type; the safe file name is
    werkzeug's and is not empty; the segment duration lies in 5..600: it is 30
    when the form has none, the submitted number when that lies in 5..600, and
    the nearer bound otherwise; the playlist id is the slug of the safe file
    name, a dash and the time stamp, and with a time stamp of digits it
    consists of lower-case letters, digits and dashes only and does not start
    with a dash, so that it names one entry directly under the upload root. *)
Theorem validate_upload_accepted (e : env) (form : upload_form) (a : accepted) :
  validate_upload e form = inr a →
  (∃ filename,
     video_file form = Some filename ∧ filename ≠ "" ∧
     allowed_file filename = true ∧
     acc_safe_filename a = secure_filename e filename) ∧
  acc_safe_filename a ≠ "" ∧
  5 ≤ acc_segment_duration a ≤ 600 ∧
  (form_segment_duration form = None → acc_segment_duration a = 30) ∧
  (∀ raw d, form_segment_duration form = Some raw → py_int e raw = Some d →
            (5 ≤ d ≤ 600 → acc_segment_duration a = d) ∧
            (d < 5 → acc_segment_duration a = 5) ∧
            (600 < d → acc_segment_duration a = 600)) ∧
  acc_playlist_id a =
    sanitize_basename (acc_safe_filename a) +:+ "-" +:+ utcnow_stamp e ∧
  (Forall (λ c, is_digit c = true) (chars (utcnow_stamp e)) →
   Forall (λ c, is_lower_slug_char c = true) (chars (acc_playlist_id a)) ∧
   head (chars (acc_playlist_id a)) ≠ Some "-"%char ∧
   acc_playlist_id a ≠ "").
Proof.
  unfold validate_upload.
  destruct (video_file form) as [filename|]; [|done].
  destruct (Py.truthy_str filename) eqn:Hname; [|done].
  destruct (allowed_file filename) eqn:Hallowed; [|done]. simpl.
  destruct (parse_resolutions e (form_resolutions form)) as [|r rs]; [done|].
  unfold parse_segment_duration.
  destruct (Py.truthy_str (secure_filename e filename)) eqn:Hsafe.
  2: { destruct (form_segment_duration form) as [raw|];
         [destruct (py_int e raw)|]; simpl; intros; discriminate. }
  apply truthy_str_spec in Hname, Hsafe.
  assert (
    Forall (λ c, is_digit c = true) (chars (utcnow_stamp e)) →
    Forall (λ c, is_lower_slug_char c = true)
      (chars (playlist_id_of e (secure_filename e filename))) ∧
    head (chars (playlist_id_of e (secure_filename e filename))) ≠ Some "-"%char ∧
    playlist_id_of e (secure_filename e filename) ≠ "") as Hid.
  { intros Hstamp. unfold playlist_id_of.
    destruct (sanitize_basename_chars (secure_filename e filename))
      as (Hne & Hall & Hhead & _).
    rewrite !chars_app. split_and!.
    - apply Forall_app. split; [done|]. apply Forall_app. split.
      + by repeat constructor.
      + eapply Forall_impl; [done|]. apply is_digit_slug.
    - revert Hhead.
      destruct (chars (sanitize_basename (secure_filename e filename)))
        as [|c l] eqn:Hchars; [by apply chars_nil in Hchars|done].
    - by destruct (sanitize_basename (secure_filename e filename)). }
  destruct (form_segment_duration form) as [raw|] eqn:Hraw.
  - destruct (py_int e raw) as [d|] eqn:Hd; [|done]. simpl.
    intros [= <-]. cbn [acc_safe_filename acc_segment_duration acc_playlist_id].
    split; [by exists filename|]. split; [done|].
    split; [apply clamp_segment_duration_range|]. split; [done|].
    split; [|done].
    intros raw' d' [= <-] Hd'. rewrite Hd in Hd'. injection Hd' as <-.
    unfold clamp_segment_duration. lia.
  - simpl. intros [= <-].
    cbn [acc_safe_filename acc_segment_duration acc_playlist_id].
    split; [by exists filename|]. split; [done|].
    split; [apply clamp_segment_duration_range|]. done.
Qed.

Lemma validate_upload_accepted_witness :
  ∃ a, validate_upload sample_env sample_form = inr a ∧
       acc_safe_filename a = "clip.mp4" ∧
       acc_segment_duration a = 30 ∧
       acc_playlist_id a = "clip-20240101120000".
Proof.
  evaluated (validate_upload sample_env sample_form) as Hrun.
  eexists. split; [exact Hrun|].
  destruct (validate_upload_accepted _ _ _ Hrun)
    as (_ & _ & _ & _ & Hduration & Hid & _).
  split; [reflexivity|]. split; [|exact Hid].
  by apply (Hduration "30" 30).
Defined.

(** ** [build_player_payload] *)

Lemma elem_of_enumerate {A : Type} (start i : Z) (x : A) (l : list A) :
  (i, x) ∈ Py.enumerate start l →
  ∃ k : nat, l !! k = Some x ∧ i = start + Z.of_nat k.
Proof.
  revert start. induction l as [|y l IH]; intros start; cbn [Py.enumerate].
  - by intros ?%elem_of_nil.
  - intros [[= -> ->]|Hin]%elem_of_cons.
    + exists 0%nat. split; [done|lia].
    + apply IH in Hin as (k & Hk & ->). exists (S k). split; [done|lia].
Qed.

Lemma omap_cons_eq {A B : Type} (f : A → option B) (x : A) (l : list A) :
  omap f (x :: l) =
  match f x with Some y => y :: omap f l | None => omap f l end.
Proof. done. Qed.

Lemma segments_payload_urls
    (url_for : string → string) (manifest_segment_duration : option Z)
    (start : Z) (segments : list segment_doc) :
  sp_url <$> omap (segment_payload_of url_for manifest_segment_duration)
               (Py.enumerate start segments) =
  url_for <$> omap kept_path segments.
Proof.
  revert start. induction segments as [|segment segments IH]; intros start;
    [done|].
  cbn [Py.enumerate]. rewrite !omap_cons_eq. specialize (IH (start + 1)).
  destruct segment as [segment_path|index [segment_path|] label size duration];
    cbn [segment_payload_of kept_path]; [| |done];
    destruct (Py.truthy_str segment_path); rewrite ?fmap_cons;
    cbn [sp_url]; by rewrite ?IH.
Qed.

Lemma variants_payload_files
    (url_for : string → string) (manifest_segment_duration : option Z)
    (start : Z) (variants : list player_variant) :
  vp_file <$> omap (variant_payload_of url_for manifest_segment_duration)
                (Py.enumerate start variants) =
  url_for <$> omap kept_file variants.
Proof.
  revert start. induction variants as [|variant variants IH]; intros start;
    [done|].
  cbn [Py.enumerate]. rewrite !omap_cons_eq. specialize (IH (start + 1)).
  unfold variant_payload_of at 1, kept_file at 1.
  destruct (pv_file variant) as [variant_file|]; [|done].
  destruct (Py.truthy_str variant_file); rewrite ?fmap_cons;
    cbn [vp_file]; by rewrite ?IH.
Qed.

(** X9: what [build_player_payload] hands to the player.  Its variants are
    the manifest's variants that have a non-empty file, and no others: their
    files are the URLs of exactly those files.  They are listed by height,
    largest first, a missing height counting as 0.  Each listed variant takes
    its height, label (empty when missing) and master flag (false when
    missing) from its manifest variant; its key is the height when that is
    present and not 0, else the label when that is not empty, else the
    position of the variant in the manifest, counted from 1 with the dropped
    variants included; and its segments are, in manifest order, the URLs of
    the segment paths that are present and not empty. *)
Theorem build_player_payload_variants
    (url_for : string → string) (manifest : player_manifest) :
  let variants := default [] (pm_variants manifest) in
  let payload := build_player_payload url_for manifest in
  vp_file <$> pp_variants payload ≡ₚ url_for <$> omap kept_file variants ∧
  StronglySorted (λ a b, default 0 (vp_height b) ≤ default 0 (vp_height a))
    (pp_variants payload) ∧
  ∀ item, item ∈ pp_variants payload →
    ∃ (k : nat) variant variant_file,
      variants !! k = Some variant ∧
      pv_file variant = Some variant_file ∧ variant_file ≠ "" ∧
      vp_file item = url_for variant_file ∧
      vp_height item = pv_height variant ∧
      vp_label item = default "" (pv_label variant) ∧
      vp_is_master item = default false (pv_is_master variant) ∧
      vp_key item =
        match pv_height variant, pv_label variant with
        | Some height, _ =>
            if bool_decide (height ≠ 0) then Py.str height
            else match pv_label variant with
                 | Some label =>
                     if bool_decide (label ≠ "") then label
                     else Py.str (Z.of_nat k + 1)
                 | None => Py.str (Z.of_nat k + 1)
                 end
        | None, Some label =>
            if bool_decide (label ≠ "") then label else Py.str (Z.of_nat k + 1)
        | None, None => Py.str (Z.of_nat k + 1)
        end ∧
      sp_url <$> vp_segments item =
        url_for <$> omap kept_path (default [] (pv_segments variant)).
Proof.
  intros variants payload. subst payload. unfold build_player_payload.
  cbn [pp_variants]. fold variants. split_and!.
  - unfold Py.sorted_by_rev. rewrite stable_sort_perm.
    by rewrite variants_payload_files.
  - apply sorted_by_rev_descending.
  - intros item Hitem. apply stable_sort_elem_of in Hitem.
    apply list_elem_of_omap in Hitem as ([i variant] & Hin & Hitem).
    apply elem_of_enumerate in Hin as (k & Hk & ->).
    unfold variant_payload_of in Hitem.
    destruct (pv_file variant) as [variant_file|] eqn:Hfile; [|done].
    destruct (Py.truthy_str variant_file) eqn:Htruthy; [|done].
    injection Hitem as <-. apply truthy_str_spec in Htruthy.
    exists k, variant, variant_file.
    cbn [vp_file vp_height vp_label vp_is_master vp_key vp_segments].
    split_and!; try done.
    + unfold variant_key, Py.or_str, Py.truthy_Z, Py.truthy_str.
      replace (1 + Z.of_nat k) with (Z.of_nat k + 1) by lia.
      destruct (pv_height variant) as [height|];
        destruct (pv_label variant) as [label|];
        repeat case_bool_decide; subst;
        rewrite ?Z.eqb_refl; simpl;
        repeat match goal with
               | H : ?h ≠ 0 |- context [?h =? 0] =>
                   rewrite (proj2 (Z.eqb_neq h 0) H)
               | H : ?l ≠ "" |- context [String.eqb ?l ""] =>
                   rewrite (proj2 (String.eqb_neq l "") H)
               end; done.
    + apply segments_payload_urls.
Qed.

(** ** The manifest of a successful upload, as the pages read it *)

Lemma summarise_master_filename (m : manifest) (mv : master_view) :
  sm_master (summarise_manifest m) = Some mv →
  mv_filename mv =
    match s_filename (default empty_source (m_source m)) with
    | Some f => Some f
    | None => e_file (mv_variant mv)
    end.
Proof.
  unfold summarise_manifest.
  destruct (fold_left summarise_step _ _) as [[found|] others];
    cbn [sm_master]; [by intros [= <-]|].
  destruct (default [] (m_variants m)); [done|]. by intros [= <-].
Qed.

Lemma Forall2_exists_l {A B : Type} (P : A → B → Prop) (l : list A) (k : list B) :
  Forall2 P l k → Forall (λ y, ∃ x, P x y) k.
Proof. induction 1; constructor; [by eexists|done]. Qed.

Lemma string_app_nonempty (s t : string) (c : ascii) : s +:+ String c t ≠ "".
Proof. by destruct s. Qed.

Lemma omap_kept_all {A B : Type} (f : A → option B) (l : list A) :
  Forall (λ x, is_Some (f x)) l → length (omap f l) = length l.
Proof.
  induction 1 as [|x l [y Hy] Hl IH]; [done|].
  rewrite omap_cons_eq, Hy. simpl. by rewrite IH.
Qed.

(** X10: the manifest of a successful upload suits both pages that read it.
    The summary takes the variant of the source height as its master, under
    the uploaded file's name, and lists the other variants, none of them
    flagged master and none twice, so the fallback to the first variant is not
    taken; and the player payload offers every variant of the manifest, each
    having a file: as many as the success message announced. *)
Theorem upload_manifest_views
    (url_for : string → string)
    (e : env) (playlist_id safe_filename : string) (requested : list Z)
    (segment_duration : Z) (σ σ' : fs) (resp : response) :
  upload_pipeline e playlist_id safe_filename requested segment_duration σ =
    (Ok resp, σ') →
  is_Some (last_upload_id resp) →
  ∃ source_info master others,
    let m := manifest_payload_of e playlist_id safe_filename requested
               segment_duration source_info (master :: others) in
    σ' !! [playlist_id; "manifest.json"] =
      Some (Text (String.concat "" (json_dump e m))) ∧
    mv_variant <$> sm_master (summarise_manifest m) = Some (enriched master) ∧
    e_is_master (enriched master) = true ∧
    mv_filename <$> sm_master (summarise_manifest m) =
      Some (Some safe_filename) ∧
    sm_variants (summarise_manifest m) ≡ₚ map enriched others ∧
    Forall (λ item, e_is_master item = false)
      (sm_variants (summarise_manifest m)) ∧
    length (pp_variants (build_player_payload url_for (player_view m))) =
      S (length others) ∧
    head (flashes resp) = Some (FlashSuccess safe_filename (S (length others))).
Proof.
  intros Hrun Hnamed.
  destruct (upload_success_shape _ _ _ _ _ _ _ _ Hrun Hnamed)
    as (info & master & others & Hlast & Hprobe & Hmanifest & Hshape & Hflash).
  exists info, master, others. intros m.
  pose proof Hshape as Hfiles.
  apply Forall2_cons_1 in Hshape as [(_ & _ & Hflag) Hothers].
  rewrite Z.eqb_refl in Hflag.
  assert (e_is_master (enriched master) = true) as Hmaster.
  { rewrite enriched_is_master. unfold flagged. by rewrite Hflag. }
  assert (Forall (λ v, flagged v = false) others) as Hunflagged.
  { apply Forall2_with_elem_of in Hothers.
    apply Forall2_exists_l in Hothers.
    eapply Forall_impl; [done|]. intros v (target & [Hne%below_not_master H]).
    destruct H as (_ & _ & Hv). unfold flagged. by rewrite Hv, Hne. }
  assert (fold_left summarise_step (master :: others) (None, []) =
          (Some (enriched master), map enriched others)) as Hloop.
  { cbn [fold_left summarise_step]. rewrite Hmaster.
    by rewrite summarise_loop_found. }
  assert (mv_variant <$> sm_master (summarise_manifest m) =
          Some (enriched master)) as Hmv.
  { rewrite summarise_master_eq. subst m.
    cbn [manifest_payload_of m_variants from_option id].
    by rewrite Hloop. }
  assert (sm_variants (summarise_manifest m) =
          Py.sorted_by_rev height_key (map enriched others)) as Hlisted.
  { rewrite summarise_variants_eq. subst m.
    cbn [manifest_payload_of m_variants from_option id].
    by rewrite Hloop. }
  split; [done|]. split; [done|]. split; [done|].
  split.
  { destruct (sm_master (summarise_manifest m)) as [mv|] eqn:Hsm; [|done].
    apply summarise_master_filename in Hsm. cbn. f_equal. by rewrite Hsm. }
  split; [rewrite Hlisted; apply stable_sort_perm|].
  split.
  { rewrite Hlisted. apply Forall_forall. intros item Hitem.
    apply stable_sort_elem_of in Hitem.
    apply list_elem_of_fmap in Hitem as (v & -> & Hv).
    rewrite enriched_is_master. by eapply Forall_forall in Hunflagged. }
  split; [|done].
  unfold build_player_payload. cbn [pp_variants].
  unfold Py.sorted_by_rev. rewrite stable_sort_length.
  rewrite <- (length_fmap vp_file), variants_payload_files, length_fmap.
  subst m. cbn [player_view manifest_payload_of m_variants pm_variants fmap
                option_fmap option_map from_option id].
  rewrite omap_kept_all; [by rewrite length_map|].
  apply Forall_forall. intros pv (v & -> & Hv)%list_elem_of_fmap.
  apply Forall2_exists_l in Hfiles. eapply Forall_forall in Hfiles; [|done].
  destruct Hfiles as (target & _ & Hfile & _).
  unfold kept_file. cbn [pv_file]. rewrite Hfile.
  unfold to_relative. cbn [String.concat].
  destruct (Py.truthy_str _) eqn:Htruthy; [done|].
  apply not_true_iff_false in Htruthy. exfalso. apply Htruthy.
  apply truthy_str_spec, string_app_nonempty.
Qed.

Lemma upload_manifest_views_witness :
  ∃ resp σ' source_info master others,
    upload_pipeline sample_env "clip-20240101120000" "clip.mp4"
      [2160; 1080; 720; 480] 30 ∅ = (Ok resp, σ') ∧
    resp = Response [FlashSuccess "clip.mp4" 3; FlashInfo [2160]]
             (Some "clip-20240101120000") ∧
    let m := manifest_payload_of sample_env "clip-20240101120000" "clip.mp4"
               [2160; 1080; 720; 480] 30 source_info (master :: others) in
    σ' !! ["clip-20240101120000"; "manifest.json"] =
      Some (Text (String.concat "" (json_dump sample_env m))) ∧
    mv_variant <$> sm_master (summarise_manifest m) = Some (enriched master) ∧
    e_is_master (enriched master) = true ∧
    mv_filename <$> sm_master (summarise_manifest m) = Some (Some "clip.mp4") ∧
    sm_variants (summarise_manifest m) ≡ₚ map enriched others ∧
    Forall (λ item, e_is_master item = false)
      (sm_variants (summarise_manifest m)) ∧
    length (pp_variants
              (build_player_payload (String.append "/media/") (player_view m))) =
      S (length others) ∧
    head (flashes resp) = Some (FlashSuccess "clip.mp4" (S (length others))).
Proof.
  evaluated ((upload_pipeline sample_env "clip-20240101120000" "clip.mp4"
                [2160; 1080; 720; 480] 30 ∅).1) as Hfst.
  destruct (upload_pipeline sample_env "clip-20240101120000" "clip.mp4"
              [2160; 1080; 720; 480] 30 ∅) as [[resp|exc] σ'] eqn:Hrun;
    [|discriminate].
  cbn [fst] in Hfst. injection Hfst as ->.
  destruct (upload_manifest_views (String.append "/media/")
              _ _ _ _ _ _ _ _ Hrun)
    as (info & master & others & Hviews); [by eexists|].
  eexists _, σ', info, master, others.
  split; [reflexivity|]. split; [reflexivity|]. exact Hviews.
Defined.

(** ** The resolutions of a catalog entry *)

Lemma resolution_labels_step (resolutions : list string) (variant : variant) :
  match v_height variant with
  | Some height =>
      if Py.truthy_Z height then
        let label := Py.str height +:+ "p" in
        if bool_decide (label ∈ resolutions) then resolutions
        else resolutions ++ [label]
      else resolutions
  | None => resolutions
  end =
  match resolution_label variant with
  | Some label =>
      if bool_decide (label ∈ resolutions) then resolutions
      else resolutions ++ [label]
  | None => resolutions
  end.
Proof.
  unfold resolution_label, Py.truthy_Z.
  destruct (v_height variant) as [height|]; [|done].
  by destruct (height =? 0).
Qed.

Lemma resolution_labels_loop (variants : list variant) (resolutions : list string) :
  let result :=
    fold_left
      (λ resolutions variant,
         match v_height variant with
         | Some height =>
             if Py.truthy_Z height then
               let label := Py.str height +:+ "p" in
               if bool_decide (label ∈ resolutions) then resolutions
               else resolutions ++ [label]
             else resolutions
         | None => resolutions
         end)
      variants resolutions in
  (NoDup resolutions → NoDup result) ∧
  (∀ label, label ∈ result ↔
            label ∈ resolutions ∨
            ∃ variant, variant ∈ variants ∧ resolution_label variant = Some label) ∧
  resolutions `prefix_of` result.
Proof.
  revert resolutions.
  induction variants as [|variant variants IH]; intros resolutions; cbn zeta.
  - cbn [fold_left]. split_and!; [done| |done].
    intros label. split; [by left|]. intros [?|(v & ?%elem_of_nil & _)]; done.
  - cbn [fold_left]. rewrite resolution_labels_step.
    destruct (resolution_label variant) as [label|] eqn:Hlabel.
    + case_bool_decide as Hin.
      * destruct (IH resolutions) as (Hnodup & Hmem & Hpre).
        split_and!; [done| |done].
        intros l. rewrite Hmem. split.
        -- intros [?|(v & Hv & Hl)]; [by left|right].
           exists v. split; [by right|done].
        -- intros [?|(v & [->|Hv]%elem_of_cons & Hl)]; [by left| |].
           ++ left. congruence.
           ++ right. by exists v.
      * destruct (IH (resolutions ++ [label])) as (Hnodup & Hmem & Hpre).
        split_and!.
        -- intros Hres. apply Hnodup. apply NoDup_app. split_and!; [done| |].
           ++ intros x Hx ->%list_elem_of_singleton. done.
           ++ apply NoDup_singleton.
        -- intros l. rewrite Hmem, elem_of_app, list_elem_of_singleton. split.
           ++ intros [[?| ->]|(v & Hv & Hl)]; [by left| |].
              ** right. exists variant. split; [by left|done].
              ** right. exists v. split; [by right|done].
           ++ intros [?|(v & [->|Hv]%elem_of_cons & Hl)].
              ** by left; left.
              ** left; right. congruence.
              ** right. by exists v.
        -- etrans; [|done]. by apply prefix_app_r.
    + destruct (IH resolutions) as (Hnodup & Hmem & Hpre).
      split_and!; [done| |done].
      intros l. rewrite Hmem. split.
      * intros [?|(v & Hv & Hl)]; [by left|right].
        exists v. split; [by right|done].
      * intros [?|(v & [->|Hv]%elem_of_cons & Hl)]; [by left| |].
        -- congruence.
        -- right. by exists v.
Qed.

(** X11: the resolutions [list_manifests] shows for a playlist.  Each label
    is listed once, however many variants share a height; a label is listed
    exactly when some variant of the manifest has that height, present and
    not 0; and the labels stand in the order in which the manifest first
    mentions them: the labels of a shorter manifest are a prefix of the labels
    of any manifest that extends it. *)
Theorem catalog_resolutions_distinct
    (f : manifest_file) (data : manifest) :
  NoDup (ce_resolutions (catalog_entry_of f data)) ∧
  (∀ label,
     label ∈ ce_resolutions (catalog_entry_of f data) ↔
     ∃ variant height,
       variant ∈ default [] (m_variants data) ∧
       v_height variant = Some height ∧ height ≠ 0 ∧
       label = Py.str height +:+ "p") ∧
  (∀ variants more,
     resolution_labels variants `prefix_of` resolution_labels (variants ++ more)).
Proof.
  cbn [catalog_entry_of ce_resolutions]. unfold resolution_labels.
  split_and!.
  - by apply resolution_labels_loop, NoDup_nil.
  - intros label.
    destruct (resolution_labels_loop (default [] (m_variants data)) [])
      as (_ & Hmem & _).
    rewrite Hmem. split.
    + intros [?%elem_of_nil|(v & Hv & Hl)]; [done|].
      unfold resolution_label in Hl.
      destruct (v_height v) as [height|] eqn:Hheight; [|done].
      destruct (Z.eqb_spec height 0); [done|].
      injection Hl as <-. by exists v, height.
    + intros (v & height & Hv & Hheight & Hne & ->). right.
      exists v. split; [done|]. unfold resolution_label.
      rewrite Hheight. by destruct (Z.eqb_spec height 0).
  - intros variants more. rewrite fold_left_app.
    apply resolution_labels_loop.
Qed.

(** ** [segment_video]: the chunks in playback order *)

Lemma ascii_compare_refl (c : ascii) : Ascii.compare c c = Eq.
Proof.
  pose proof (Ascii.compare_antisym c c) as H.
  by destruct (Ascii.compare c c).
Qed.

Lemma string_compare_app (p a b : string) :
  String.compare (p +:+ a) (p +:+ b) = String.compare a b.
Proof.
  induction p as [|c p IH]; [done|].
  change (String c p +:+ a) with (String c (p +:+ a)).
  change (String c p +:+ b) with (String c (p +:+ b)).
  cbn [String.compare]. by rewrite ascii_compare_refl.
Qed.

Lemma string_ltb_app (p a b : string) :
  String.ltb (p +:+ a) (p +:+ b) = String.ltb a b.
Proof. unfold String.ltb. by rewrite string_compare_app. Qed.

Lemma string_ltb_leb (a b : string) :
  String.ltb a b = true → String.leb a b = true ∧ a ≠ b.
Proof.
  unfold String.ltb, String.leb.
  destruct (String.compare a b) eqn:Hc; try done.
  intros _. split; [done|]. intros ->.
  pose proof (String.compare_antisym b b) as H. rewrite Hc in H. done.
Qed.

Lemma string_ltb_trans (a b c : string) :
  String.ltb a b = true → String.ltb b c = true → String.ltb a c = true.
Proof.
  intros [Hab Hne]%string_ltb_leb [Hbc Hne']%string_ltb_leb.
  apply string_leb_ne_ltb; [by eapply string_leb_trans|].
  intros ->. apply Hne. by apply String.leb_antisym.
Qed.

(** Up to 999 the three-digit numbers of the chunk names sort as numbers. *)
Lemma pad3_adjacent :
  forallb (λ k, String.ltb (pad3 k +:+ ".mp4") (pad3 (S k) +:+ ".mp4"))
    (seq 0 999) = true.
Proof. vm_compute. reflexivity. Qed.

Lemma chunk_name_lt (stem : string) (j k : nat) :
  (j < k)%nat → (k < 1000)%nat →
  String.ltb (chunk_name stem j) (chunk_name stem k) = true.
Proof.
  intros Hjk Hk. unfold chunk_name. rewrite !string_ltb_app.
  assert (∀ m, (m < 999)%nat →
               String.ltb (pad3 m +:+ ".mp4") (pad3 (S m) +:+ ".mp4") = true)
    as Hadjacent.
  { intros m Hm. pose proof pad3_adjacent as Hall.
    rewrite forallb_forall in Hall. apply Hall. apply in_seq. lia. }
  induction Hjk as [|m Hjm IH].
  - apply Hadjacent. lia.
  - eapply string_ltb_trans; [apply IH; lia|]. apply Hadjacent. lia.
Qed.

Lemma chunk_name_inj (stem : string) (j k : nat) :
  (j < 1000)%nat → (k < 1000)%nat →
  chunk_name stem j = chunk_name stem k → j = k.
Proof.
  intros Hj Hk Heq.
  destruct (Nat.lt_trichotomy j k) as [Hlt|[->|Hlt]]; [|done|].
  - apply (chunk_name_lt stem) in Hlt; [|done].
    apply string_ltb_leb in Hlt as [_ Hne]. done.
  - apply (chunk_name_lt stem) in Hlt; [|done].
    apply string_ltb_leb in Hlt as [_ Hne]. done.
Qed.

Lemma string_rev_app_app (s t acc : string) :
  String.rev_app (s +:+ t) acc = String.rev_app t (String.rev_app s acc).
Proof.
  revert acc. induction s as [|c s IH]; intros acc; [done|].
  change (String c s +:+ t) with (String c (s +:+ t)).
  cbn [String.rev_app]. apply IH.
Qed.

Lemma string_rev_app_acc (t acc : string) :
  String.rev_app t acc = String.rev_app t "" +:+ acc.
Proof.
  revert acc. induction t as [|c t IH]; intros acc; [done|].
  cbn [String.rev_app]. rewrite (IH (String c acc)), (IH (String c "")).
  by rewrite string_app_assoc.
Qed.

Lemma string_prefix_app (x y : string) : String.prefix x (x +:+ y) = true.
Proof.
  induction x as [|c x IH]; [by destruct y|].
  change (String c x +:+ y) with (String c (x +:+ y)).
  cbn [String.prefix]. by destruct (ascii_dec c c).
Qed.

Lemma ends_with_app (s t : string) : ends_with t (s +:+ t) = true.
Proof.
  unfold ends_with, String.rev.
  rewrite string_rev_app_app, (string_rev_app_acc t (String.rev_app s "")).
  apply string_prefix_app.
Qed.

Lemma chunk_name_mp4 (stem : string) (k : nat) :
  ends_with ".mp4" (chunk_name stem k) = true.
Proof.
  unfold chunk_name.
  rewrite <- (string_app_assoc "_part_"), <- string_app_assoc.
  apply ends_with_app.
Qed.

Lemma write_chunks_frame (dir : path) (stem : string) (k : nat) (sizes : list Z)
    (σ : fs) (p : path) :
  (∀ j, (j < length sizes)%nat → p ≠ dir ++ [chunk_name stem (k + j)]) →
  write_chunks dir stem k sizes σ !! p = σ !! p.
Proof.
  revert k σ. induction sizes as [|size sizes IH]; intros k σ Hp; [done|].
  cbn [write_chunks]. rewrite IH.
  - apply lookup_insert_ne. intros Heq. apply (Hp 0%nat); [simpl; lia|].
    by rewrite Nat.add_0_r.
  - intros j Hj. replace (S k + j)%nat with (k + S j)%nat by lia.
    apply Hp. simpl. lia.
Qed.

Lemma write_chunks_written (dir : path) (stem : string) (k : nat)
    (sizes : list Z) (σ : fs) (j : nat) (size : Z) :
  sizes !! j = Some size →
  (∀ j', (j < j' < length sizes)%nat →
         chunk_name stem (k + j') ≠ chunk_name stem (k + j)) →
  write_chunks dir stem k sizes σ !! (dir ++ [chunk_name stem (k + j)]) =
    Some (Blob size).
Proof.
  revert k σ j. induction sizes as [|s sizes IH]; intros k σ j Hj Hlater;
    [done|].
  cbn [write_chunks]. destruct j as [|j].
  - injection Hj as ->. rewrite write_chunks_frame.
    + rewrite Nat.add_0_r. apply lookup_insert_eq.
    + intros j' Hj' Heq. apply app_inv_head in Heq. injection Heq as Heq.
      apply (Hlater (S j')); [simpl; lia|].
      replace (k + S j')%nat with (S k + j')%nat by lia. done.
  - replace (k + S j)%nat with (S k + j)%nat by lia.
    apply IH; [done|]. intros j' Hj'.
    replace (S k + j')%nat with (k + S j')%nat by lia.
    replace (S k + j)%nat with (k + S j)%nat by lia.
    apply Hlater. simpl. lia.
Qed.

Lemma elem_of_chunk_files (stem : string) (k : nat) (sizes : list Z)
    (name : string) (n : node) :
  (name, n) ∈ chunk_files stem k sizes ↔
  ∃ j size, sizes !! j = Some size ∧
            name = chunk_name stem (k + j) ∧ n = Blob size.
Proof.
  revert k. induction sizes as [|s sizes IH]; intros k; cbn [chunk_files].
  - split; [by intros ?%elem_of_nil|]. by intros (j & size & ? & _).
  - rewrite elem_of_cons, IH. split.
    + intros [[= -> ->]|(j & size & Hj & -> & ->)].
      * exists 0%nat, s. by rewrite Nat.add_0_r.
      * exists (S j), size. split; [done|]. split; [f_equal; lia|done].
    + intros ([|j] & size & Hj & -> & ->).
      * left. injection Hj as ->. by rewrite Nat.add_0_r.
      * right. exists j, size. split; [done|]. split; [f_equal; lia|done].
Qed.

Lemma chunk_files_sorted (stem : string) (k : nat) (sizes : list Z) :
  (k + length sizes ≤ 1000)%nat →
  StronglySorted (λ a b : string * node, String.ltb a.1 b.1 = true)
    (chunk_files stem k sizes).
Proof.
  revert k. induction sizes as [|s sizes IH]; intros k Hk; cbn [chunk_files];
    [constructor|].
  cbn [length] in Hk. constructor; [apply IH; lia|].
  apply Forall_forall. intros [name n] (j & size & Hj & -> & ->)%elem_of_chunk_files.
  apply lookup_lt_Some in Hj. cbn [fst]. apply chunk_name_lt; lia.
Qed.

Lemma chunk_entries_enumerate (dir : path) (stem : string) (d : Z) (k : nat)
    (sizes : list Z) :
  map (segment_entry dir d)
      (Py.enumerate (Z.of_nat k + 1) (chunk_files stem k sizes)) =
  imap (λ j, chunk_entry dir stem d (k + j)) sizes.
Proof.
  revert k. induction sizes as [|s sizes IH]; intros k; [done|].
  cbn [chunk_files Py.enumerate map]. rewrite imap_cons. f_equal.
  - unfold segment_entry, chunk_entry. cbn [fst snd st_size].
    by rewrite Nat.add_0_r.
  - replace (Z.of_nat k + 1 + 1) with (Z.of_nat (S k) + 1) by lia.
    rewrite IH. apply imap_ext. intros j x _. cbn. f_equal. lia.
Qed.

Lemma lookup_node_nonempty (q : path) (σ : fs) :
  q ≠ [] → lookup_node q σ = σ !! q.
Proof. by destruct q. Qed.

Lemma mkdir_keeps_entries (exist_ok : bool) (dir : path) (name : string)
    (σ σ1 : fs) (r : result unit) :
  mkdir exist_ok dir σ = (r, σ1) →
  σ1 !! (dir ++ [name]) = σ !! (dir ++ [name]).
Proof.
  unfold mkdir. intros Hrun.
  apply (mkdir_rev_effect _ _ _ _ _ (dir ++ [name])) in Hrun
    as [Heq|(_ & _ & Hpre)].
  - by rewrite !lookup_node_nonempty in Heq by (by destruct dir).
  - rewrite rev_involutive in Hpre. apply prefix_length in Hpre.
    rewrite length_app in Hpre. simpl in Hpre. lia.
Qed.

Lemma strictly_sorted_NoDup {B : Type} (l : list (string * B)) :
  StronglySorted (λ a b, String.ltb a.1 b.1 = true) l → NoDup l.
Proof.
  induction 1 as [|x l Hl IH Hx]; constructor; [|done].
  intros Hin. eapply Forall_forall in Hx; [|done].
  by apply string_ltb_leb in Hx as [_ ?].
Qed.

(** The chunk names are pairwise distinct, past 999 too, where [%03d] prints
    the number unpadded. *)
Lemma pad3_small_length :
  forallb (λ k, (String.length (pad3 k) =? 3)%nat) (seq 0 1000) = true.
Proof. vm_compute. reflexivity. Qed.

Lemma pretty_N_go_length (x : N) (s : string) :
  (String.length s ≤ String.length (pretty_N_go x s))%nat.
Proof.
  revert s. induction (N.lt_wf_0 x) as [x _ IH]; intros s.
  destruct (decide (x = 0)%N) as [->|Hx]; [by rewrite pretty_N_go_0|].
  rewrite pretty_N_go_step by lia.
  etrans; [|apply IH; apply N.div_lt; lia]. simpl. lia.
Qed.

Lemma pretty_large_length (k : nat) :
  (1000 ≤ k)%nat → (4 ≤ String.length (pretty (Z.of_nat k)))%nat.
Proof.
  intros Hk. destruct (Z.of_nat k) as [|p|p] eqn:Hz; [lia| |lia].
  assert (1000 ≤ N.pos p)%N as Hp by lia.
  change (pretty (Z.pos p)) with (pretty (N.pos p)).
  unfold pretty, pretty_N. rewrite decide_False by done.
  generalize dependent (N.pos p). clear. intros x Hx.
  assert (100 ≤ x `div` 10)%N as H1
    by (apply N.div_le_lower_bound; lia).
  assert (10 ≤ (x `div` 10) `div` 10)%N as H2
    by (apply N.div_le_lower_bound; lia).
  assert (1 ≤ ((x `div` 10) `div` 10) `div` 10)%N as H3
    by (apply N.div_le_lower_bound; lia).
  rewrite 4!pretty_N_go_step by lia.
  etrans; [|apply pretty_N_go_length]. simpl. lia.
Qed.

Lemma pad3_large (k : nat) :
  (1000 ≤ k)%nat → pad3 k = pretty (Z.of_nat k).
Proof.
  intros Hk. apply pretty_large_length in Hk. unfold pad3.
  by replace (3 - String.length (pretty (Z.of_nat k)))%nat with 0%nat by lia.
Qed.

Lemma string_length_app (s t : string) :
  String.length (s +:+ t) = (String.length s + String.length t)%nat.
Proof.
  induction s as [|c s IH]; [done|].
  change (String c s +:+ t) with (String c (s +:+ t)). simpl. by rewrite IH.
Qed.

Lemma string_app_inj_r (s s' t : string) : s +:+ t = s' +:+ t → s = s'.
Proof.
  intros Heq. apply chars_inj. apply (f_equal chars) in Heq.
  rewrite !chars_app in Heq. by apply app_inj_2 in Heq as [? _].
Qed.

Lemma pad3_inj (j k : nat) : pad3 j = pad3 k → j = k.
Proof.
  intros Heq.
  assert (∀ m, (m < 1000)%nat → String.length (pad3 m) = 3%nat) as Hsmall.
  { intros m Hm. pose proof pad3_small_length as Hall.
    rewrite forallb_forall in Hall. apply Nat.eqb_eq, Hall, in_seq. lia. }
  destruct (Nat.lt_ge_cases j 1000) as [Hj|Hj],
           (Nat.lt_ge_cases k 1000) as [Hk|Hk].
  - apply (chunk_name_inj "" j k); [done|done|].
    unfold chunk_name. by rewrite Heq.
  - apply (f_equal String.length) in Heq.
    rewrite Hsmall, pad3_large in Heq by done.
    apply pretty_large_length in Hk. lia.
  - apply (f_equal String.length) in Heq.
    rewrite (Hsmall k), pad3_large in Heq by done.
    apply pretty_large_length in Hj. lia.
  - rewrite !pad3_large in Heq by done.
    apply (inj pretty) in Heq. lia.
Qed.

Lemma chunk_name_inj_all (stem : string) (j k : nat) :
  chunk_name stem j = chunk_name stem k → j = k.
Proof.
  unfold chunk_name. intros Heq.
  apply (inj (String.app stem)), (inj (String.app "_part_")) in Heq.
  by apply string_app_inj_r, pad3_inj in Heq.
Qed.

Lemma chunk_files_NoDup (stem : string) (k : nat) (sizes : list Z) :
  NoDup (chunk_files stem k sizes).
Proof.
  revert k. induction sizes as [|s sizes IH]; intros k; cbn [chunk_files];
    [constructor|].
  apply NoDup_cons. split; [|apply IH].
  intros (j & size & _ & Heq & _)%elem_of_chunk_files.
  apply chunk_name_inj_all in Heq. lia.
Qed.

(** The [*.mp4] entries of the destination after the segmenter has run on a
    directory that held none: the chunks, and nothing else. *)
Lemma glob_mp4_chunks (dir : path) (stem : string) (sizes : list Z) (σ : fs) :
  glob_mp4 dir σ = [] →
  glob_mp4 dir (write_chunks dir stem 0 sizes σ) ≡ₚ chunk_files stem 0 sizes.
Proof.
  intros Hempty.
  assert (∀ j j', (j < length sizes)%nat → (j' < length sizes)%nat →
                  chunk_name stem (0 + j') = chunk_name stem (0 + j) → j' = j)
    as Hinj.
  { intros j j' Hj Hj' Heq. by apply chunk_name_inj_all in Heq. }
  apply NoDup_Permutation.
  - eapply NoDup_fmap_1, glob_mp4_NoDup.
  - apply chunk_files_NoDup.
  - intros [name n]. rewrite elem_of_glob_mp4, elem_of_chunk_files. split.
    + intros [Hlook Hmp4].
      destruct (decide (name ∈ chunk_name stem <$> seq 0 (length sizes)))
        as [Hin|Hnin].
      * apply list_elem_of_fmap in Hin as (j & -> & Hj).
        apply elem_of_seq in Hj.
        destruct (lookup_lt_is_Some_2 sizes j) as [size Hsize]; [lia|].
        exists j, size. split; [done|]. split; [done|].
        assert (write_chunks dir stem 0 sizes σ !! (dir ++ [chunk_name stem j]) =
                Some (Blob size)) as Hwritten.
        { apply (write_chunks_written dir stem 0 sizes σ j size); [done|].
          intros j' Hj' Heq. apply Hinj in Heq; lia. }
        rewrite Hwritten in Hlook. by injection Hlook.
      * exfalso. rewrite write_chunks_frame in Hlook.
        -- assert ((name, n) ∈ glob_mp4 dir σ) as Hin
             by (by apply elem_of_glob_mp4).
           rewrite Hempty in Hin. by apply elem_of_nil in Hin.
        -- intros j Hj Heq. apply app_inv_head in Heq. injection Heq as ->.
           apply Hnin. apply list_elem_of_fmap. exists j.
           split; [done|]. apply elem_of_seq. lia.
    + intros (j & size & Hj & -> & ->). split; [|apply chunk_name_mp4].
      apply (write_chunks_written dir stem 0); [done|].
      intros j' Hj' Heq. apply lookup_lt_Some in Hj.
      apply Hinj in Heq; lia.
Qed.

(** X12: the segments [segment_video] records are the chunks the segmenter
    wrote, in playback order.  Run on a destination that holds no [*.mp4]
    entry yet, and for up to 1000 chunks (the range in which the three-digit
    numbers of the chunk names sort as numbers), the entry of index [k + 1] is
    the [k]-th chunk: it carries that chunk's path and size, the nominal
    segment duration and the label [Segment k+1]. *)
Theorem segment_video_chunks
    (e : env) (source_path destination_dir : path) (segment_duration : Z)
    (σ σ' : fs) (entries : list segment) :
  glob_mp4 destination_dir σ = [] →
  segment_video e source_path destination_dir segment_duration σ =
    (Ok entries, σ') →
  ∃ sizes,
    ffmpeg_segment e source_path segment_duration = inr sizes ∧
    ((length sizes ≤ 1000)%nat →
     entries =
       imap (chunk_entry destination_dir
               (Py.stem (default "" (last source_path))) segment_duration)
            sizes).
Proof.
  intros Hempty Hrun.
  unfold segment_video, mbind, M_bind in Hrun.
  destruct (mkdir true destination_dir σ) as [[u|exc] σ1] eqn:Hmkdir; [|done].
  destruct (ffmpeg_segment e source_path segment_duration) as [msg|sizes];
    [done|].
  unfold modify_fs, get_fs, mret, M_ret in Hrun. injection Hrun as <- <-.
  exists sizes. split; [done|]. intros Hlen.
  set (stem := Py.stem (default "" (last source_path))).
  assert (glob_mp4 destination_dir σ1 = []) as Hempty1.
  { destruct (glob_mp4 destination_dir σ1) as [|[name n] l] eqn:Hglob; [done|].
    assert ((name, n) ∈ glob_mp4 destination_dir σ1) as Hin
      by (rewrite Hglob; left).
    apply elem_of_glob_mp4 in Hin as [Hlook Hmp4].
    rewrite (mkdir_keeps_entries _ _ _ _ _ _ Hmkdir) in Hlook.
    assert ((name, n) ∈ glob_mp4 destination_dir σ) as Hin
      by (by apply elem_of_glob_mp4).
    rewrite Hempty in Hin. by apply elem_of_nil in Hin. }
  assert (Py.sorted_by_str fst
            (glob_mp4 destination_dir
               (write_chunks destination_dir stem 0 sizes σ1)) =
          chunk_files stem 0 sizes) as Hsorted.
  { apply (StronglySorted_unique_strong
             (λ a b : string * node, String.ltb a.1 b.1 = true)).
    - intros x1 x2 _ _ H12 H21. exfalso.
      pose proof (string_ltb_trans _ _ _ H12 H21) as Hxx.
      by apply string_ltb_leb in Hxx as [_ ?].
    - apply sorted_by_str_strict, glob_mp4_NoDup.
    - apply chunk_files_sorted. simpl. lia.
    - unfold Py.sorted_by_str. rewrite stable_sort_perm.
      by apply glob_mp4_chunks. }
  unfold segment_entries. rewrite Hsorted.
  apply (chunk_entries_enumerate destination_dir stem segment_duration 0).
Qed.

Lemma segment_video_chunks_witness :
  ∃ entries σ',
    segment_video sample_env sample_variant_path sample_segments_dir 30 ∅ =
      (Ok entries, σ') ∧
    entries =
      imap (chunk_entry sample_segments_dir
              (Py.stem (default "" (last sample_variant_path))) 30)
           [400; 400; 400; 300].
Proof.
  evaluated ((segment_video sample_env sample_variant_path sample_segments_dir
                30 ∅).1) as Hfst.
  destruct (segment_video sample_env sample_variant_path sample_segments_dir
              30 ∅) as [[entries|exc] σ'] eqn:Hrun; [|discriminate].
  exists entries, σ'. split; [reflexivity|].
  assert (glob_mp4 sample_segments_dir ∅ = []) as Hempty
    by (vm_compute; reflexivity).
  destruct (segment_video_chunks _ _ _ _ _ _ _ Hempty Hrun)
    as (sizes & Hsizes & Hentries).
  injection Hsizes as <-. apply Hentries. simpl. lia.
Defined.

Lemma length_chunk_files (stem : string) (k : nat) (sizes : list Z) :
  length (chunk_files stem k sizes) = length sizes.
Proof.
  revert k. induction sizes as [|s sizes IH]; intros k; [done|].
  cbn [chunk_files length]. by rewrite IH.
Qed.

(** C7.  When [segment_video] returns, on a destination that held no [*.mp4]
    entry before (as in [upload], where the run has just created the segment
    directory), its entries carry the indices [1, 2, ..., N] without a gap,
    [N] being the number of chunk files the segmenter produced; the files
    listed are exactly these chunk files, each in place in the destination;
    and the entry of index [k] is the one of the [k]-th chunk file name in
    strictly increasing code-point order. *)
Theorem segment_video_indices
    (e : env) (source_path destination_dir : path) (segment_duration : Z)
    (σ σ' : fs) (entries : list segment) :
  glob_mp4 destination_dir σ = [] →
  segment_video e source_path destination_dir segment_duration σ =
    (Ok entries, σ') →
  ∃ sizes items,
    ffmpeg_segment e source_path segment_duration = inr sizes ∧
    length entries = length sizes ∧
    map seg_index entries = seqZ 1 (Z.of_nat (length sizes)) ∧
    items ≡ₚ chunk_files (Py.stem (default "" (last source_path))) 0 sizes ∧
    Forall (λ item, σ' !! (destination_dir ++ [item.1]) = Some item.2) items ∧
    StronglySorted (λ a b, String.ltb a.1 b.1 = true) items ∧
    entries =
      map (segment_entry destination_dir segment_duration)
          (zip (seqZ 1 (Z.of_nat (length sizes))) items).
Proof.
  intros Hempty Hrun.
  pose proof (segment_video_returns _ _ _ _ _ _ _ Hrun) as Hentries.
  unfold segment_video, mbind, M_bind in Hrun.
  destruct (mkdir true destination_dir σ) as [[u|exc] σ1] eqn:Hmkdir; [|done].
  destruct (ffmpeg_segment e source_path segment_duration) as [msg|sizes];
    [done|].
  unfold modify_fs, get_fs, mret, M_ret in Hrun. injection Hrun as _ <-.
  set (stem := Py.stem (default "" (last source_path))) in *.
  set (σ2 := write_chunks destination_dir stem 0 sizes σ1) in *.
  assert (glob_mp4 destination_dir σ1 = []) as Hempty1.
  { destruct (glob_mp4 destination_dir σ1) as [|[name n] l] eqn:Hglob; [done|].
    assert ((name, n) ∈ glob_mp4 destination_dir σ1) as Hin
      by (rewrite Hglob; left).
    apply elem_of_glob_mp4 in Hin as [Hlook Hmp4].
    rewrite (mkdir_keeps_entries _ _ _ _ _ _ Hmkdir) in Hlook.
    assert ((name, n) ∈ glob_mp4 destination_dir σ) as Hin
      by (by apply elem_of_glob_mp4).
    rewrite Hempty in Hin. by apply elem_of_nil in Hin. }
  pose proof (glob_mp4_chunks destination_dir stem sizes σ1 Hempty1) as Hglob.
  fold σ2 in Hglob.
  assert (length (glob_mp4 destination_dir σ2) = length sizes) as Hlength
    by (by rewrite Hglob, length_chunk_files).
  destruct (segment_entries_spec destination_dir segment_duration σ2)
    as (items & Hperm & Hsorted & Heq & Hidx).
  assert (length items = length sizes) as Hitems
    by (by rewrite Hperm).
  exists sizes, items. rewrite Hentries.
  split; [done|]. split.
  { rewrite <- (length_map seg_index), Hidx, length_seqZ. lia. }
  split; [by rewrite Hidx, Hlength|].
  split; [by rewrite Hperm|].
  split.
  { apply Forall_forall. intros [name n] Hin. rewrite Hperm in Hin.
    by apply elem_of_glob_mp4 in Hin as [? _]. }
  split; [done|]. by rewrite Heq, Hitems.
Qed.

Lemma segment_video_indices_witness :
  ∃ entries σ',
    segment_video sample_env sample_variant_path sample_segments_dir 30 ∅ =
      (Ok entries, σ') ∧
    ffmpeg_segment sample_env sample_variant_path 30 = inr [400; 400; 400; 300] ∧
    length entries = 4%nat ∧
    map seg_index entries = [1; 2; 3; 4] ∧
    map seg_path entries =
      ["clip/segments/720p/clip_720p_part_000.mp4";
       "clip/segments/720p/clip_720p_part_001.mp4";
       "clip/segments/720p/clip_720p_part_002.mp4";
       "clip/segments/720p/clip_720p_part_003.mp4"].
Proof.
  assert (glob_mp4 sample_segments_dir ∅ = []) as Hempty
    by (vm_compute; reflexivity).
  evaluated ((segment_video sample_env sample_variant_path sample_segments_dir
                30 ∅).1) as Hfst.
  destruct (segment_video sample_env sample_variant_path sample_segments_dir
              30 ∅) as [[entries|exc] σ'] eqn:Hrun; [|discriminate].
  exists entries, σ'. split; [reflexivity|].
  destruct (segment_video_indices _ _ _ _ _ _ _ Hempty Hrun)
    as (sizes & items & Hsizes & Hlength & Hidx & _).
  injection Hsizes as <-.
  split; [reflexivity|]. split; [exact Hlength|]. split; [exact Hidx|].
  cbn [fst] in Hfst. injection Hfst as ->. reflexivity.
Defined.

(** ** One target of the loop: the files it leaves *)

Lemma transcode_variant_Ok
    (e : env) (source_path output_path : path) (target_height segment_duration : Z)
    (σ σ' : fs) (info : video_info) :
  transcode_variant e source_path output_path target_height segment_duration σ =
    (Ok info, σ') →
  ∃ size σ1,
    mkdir true (parent output_path) σ = (Ok (), σ1) ∧
    ffmpeg_transcode e source_path output_path target_height
      (crf_for_height target_height) segment_duration = inr size ∧
    σ' = <[output_path := Blob size]> σ1.
Proof.
  unfold transcode_variant.
  intros ([] & σ1 & Hmkdir & Hrun)%bind_Ok.
  destruct (ffmpeg_transcode _ _ _ _ _ _) as [msg|size]; [done|].
  apply bind_Ok in Hrun as ([] & σ2 & [= <-] & Hprobe).
  apply probe_video_pure in Hprobe as [-> _].
  by exists size, σ1.
Qed.

Lemma segment_video_Ok
    (e : env) (source_path destination_dir : path) (segment_duration : Z)
    (σ σ' : fs) (entries : list segment) :
  segment_video e source_path destination_dir segment_duration σ =
    (Ok entries, σ') →
  ∃ sizes σ1,
    mkdir true destination_dir σ = (Ok (), σ1) ∧
    ffmpeg_segment e source_path segment_duration = inr sizes ∧
    σ' = write_chunks destination_dir
           (Py.stem (default "" (last source_path))) 0 sizes σ1.
Proof.
  unfold segment_video.
  intros ([] & σ1 & Hmkdir & Hrun)%bind_Ok.
  destruct (ffmpeg_segment _ _ _) as [msg|sizes]; [done|].
  apply bind_Ok in Hrun as ([] & σ2 & [= <-] & Hrun).
  apply bind_Ok in Hrun as (σ3 & σ4 & [= <- <-] & [= _ <-]).
  by exists sizes, σ1.
Qed.

Lemma mkdir_keeps_nodes (exist_ok : bool) (p q : path) (n : node)
    (σ σ1 : fs) (r : result unit) :
  mkdir exist_ok p σ = (r, σ1) →
  lookup_node q σ = Some n → lookup_node q σ1 = Some n.
Proof.
  unfold mkdir. intros Hrun Hq.
  apply (mkdir_rev_effect _ _ _ _ _ q) in Hrun as [Heq|(Hnone & _)];
    congruence.
Qed.

(** X13: the file behind a variant of the manifest.  When a turn of the loop
    of [upload] returns, with the variant and segment directories distinct as
    [upload] has them, the transcoder was run with the CRF of the target
    height, the file it wrote is in place at the variant path, untouched by
    the segmenting that followed, and the variant records that file's path and
    its size. *)
Theorem process_target_file
    (e : env) (variants_dir segments_dir original_path : path) (base_stem : string)
    (source_height segment_duration target : Z) (σ σ' : fs) (v : variant) :
  variants_dir ≠ segments_dir →
  process_target e variants_dir segments_dir original_path base_stem
    source_height segment_duration target σ = (Ok v, σ') →
  let variant_path :=
    variants_dir ++
    [Py.str target +:+ "p"; base_stem +:+ "_" +:+ Py.str target +:+ "p.mp4"] in
  ∃ size,
    ffmpeg_transcode e original_path variant_path target
      (crf_for_height target) segment_duration = inr size ∧
    σ' !! variant_path = Some (Blob size) ∧
    v_size_bytes v = Some size ∧
    v_file v = Some (to_relative variant_path).
Proof.
  intros Hdirs Hrun variant_path.
  assert (variant_path =
          (variants_dir ++ [Py.str target +:+ "p"]) ++
          [base_stem +:+ "_" +:+ Py.str target +:+ "p.mp4"]) as Hpath
    by (subst variant_path; by rewrite <- app_assoc).
  unfold process_target in Hrun. rewrite <- Hpath in Hrun.
  apply bind_Ok in Hrun as ([] & σ1 & _ & Hrun).
  apply bind_Ok in Hrun as (info & σ2 & Htranscode & Hrun).
  apply bind_Ok in Hrun as (segments & σ3 & Hsegment & Hrun).
  apply bind_Ok in Hrun as (recorded & σ4 & Hstat & Hrun).
  injection Hrun as <- ->.
  apply transcode_variant_Ok in Htranscode as (size & σ1' & _ & Hsize & ->).
  apply segment_video_Ok in Hsegment as (sizes & σ2' & Hmkdir & _ & ->).
  exists size.
  assert (variant_path ≠ []) as Hne
    by (subst variant_path; by destruct variants_dir).
  assert (lookup_node variant_path
            (write_chunks (segments_dir ++ [Py.str target +:+ "p"])
               (Py.stem (default "" (last variant_path))) 0 sizes σ2') =
          Some (Blob size)) as Hkept.
  { rewrite lookup_node_nonempty by done. rewrite write_chunks_frame.
    - rewrite <- lookup_node_nonempty by done.
      eapply mkdir_keeps_nodes; [done|].
      by apply lookup_node_insert_eq.
    - intros j _ Heq. apply Hdirs. rewrite Hpath in Heq.
      apply app_inj_2 in Heq as [Heq _]; [|done].
      by apply app_inj_2 in Heq as [? _]. }
  unfold stat_size in Hstat. rewrite Hkept in Hstat.
  injection Hstat as <- <-. cbn [v_size_bytes v_file st_size].
  split; [done|]. split; [|by rewrite Hpath].
  rewrite <- Hkept. symmetry. by apply lookup_node_nonempty.
Qed.

Lemma process_target_file_witness :
  ∃ v σ',
    process_target sample_env ["clip"; "variants"] ["clip"; "segments"]
      ["clip"; "source"; "clip.mp4"] "clip" 1080 30 720 ∅ = (Ok v, σ') ∧
    ∃ size,
      ffmpeg_transcode sample_env ["clip"; "source"; "clip.mp4"]
        ["clip"; "variants"; "720p"; "clip_720p.mp4"] 720 (crf_for_height 720)
        30 = inr size ∧
      σ' !! ["clip"; "variants"; "720p"; "clip_720p.mp4"] = Some (Blob size) ∧
      v_size_bytes v = Some size ∧
      v_file v = Some "clip/variants/720p/clip_720p.mp4".
Proof.
  evaluated ((process_target sample_env ["clip"; "variants"] ["clip"; "segments"]
                ["clip"; "source"; "clip.mp4"] "clip" 1080 30 720 ∅).1) as Hfst.
  destruct (process_target sample_env ["clip"; "variants"] ["clip"; "segments"]
              ["clip"; "source"; "clip.mp4"] "clip" 1080 30 720 ∅)
    as [[v|exc] σ'] eqn:Hrun; [|discriminate].
  exists v, σ'. split; [reflexivity|].
  apply (process_target_file sample_env ["clip"; "variants"] ["clip"; "segments"]
           ["clip"; "source"; "clip.mp4"] "clip" 1080 30 720 ∅ σ' v);
    [discriminate|exact Hrun].
Defined.

(** ** The files behind the manifest of a successful upload *)

Lemma keeps_probe_video_any (I : fs → Prop) (e : env) (p : path) :
  keeps I (probe_video e p).
Proof.
  intros σ r σ' HI Hrun. by apply probe_video_pure in Hrun as [-> _].
Qed.

Lemma keeps_stat_size_any (I : fs → Prop) (p : path) : keeps I (stat_size p).
Proof.
  intros σ r σ' HI. unfold stat_size.
  destruct (lookup_node p σ); by intros [= <- <-].
Qed.

Section Kept.
Context (A B : path) (σ0 : fs).

Lemma kept_insert (p : path) (n : node) (σ : fs) :
  A `prefix_of` p ∨ B `prefix_of` p →
  kept A B σ0 σ → kept A B σ0 (<[p := n]> σ).
Proof.
  intros Hp HI q m Hq HA HB.
  rewrite lookup_node_insert_ne; [by apply HI|].
  intros <-. by destruct Hp.
Qed.

Lemma keeps_kept_mkdir (exist_ok : bool) (p : path) :
  keeps (kept A B σ0) (mkdir exist_ok p).
Proof.
  intros σ r σ' HI Hrun q n Hq HA HB.
  eapply mkdir_keeps_nodes; [done|]. by apply HI.
Qed.

Lemma kept_write_chunks (dir : path) (stem : string) (k : nat) (sizes : list Z)
    (σ : fs) :
  B `prefix_of` dir →
  kept A B σ0 σ → kept A B σ0 (write_chunks dir stem k sizes σ).
Proof.
  intros Hdir. revert k σ.
  induction sizes as [|size sizes IH]; intros k σ HI; [done|].
  cbn [write_chunks]. apply IH. apply kept_insert; [|done].
  right. by apply prefix_app_r.
Qed.

Lemma keeps_kept_transcode_variant (e : env) (source_path output_path : path)
    (target_height segment_duration : Z) :
  A `prefix_of` output_path →
  keeps (kept A B σ0)
    (transcode_variant e source_path output_path target_height segment_duration).
Proof.
  intros Hout. unfold transcode_variant.
  apply keeps_bind; [apply keeps_kept_mkdir|]. intros _.
  destruct (ffmpeg_transcode _ _ _ _ _ _) as [msg|size]; [apply keeps_raise|].
  apply keeps_bind; [|intros _; apply keeps_probe_video_any].
  intros σ r σ' HI [= <- <-]. apply kept_insert; [by left|done].
Qed.

Lemma keeps_kept_segment_video (e : env) (source_path destination_dir : path)
    (segment_duration : Z) :
  B `prefix_of` destination_dir →
  keeps (kept A B σ0)
    (segment_video e source_path destination_dir segment_duration).
Proof.
  intros Hdir. unfold segment_video.
  apply keeps_bind; [apply keeps_kept_mkdir|]. intros _.
  destruct (ffmpeg_segment _ _ _) as [msg|sizes]; [apply keeps_raise|].
  apply keeps_bind.
  - intros σ r σ' HI [= <- <-]. by apply kept_write_chunks.
  - intros _. apply keeps_bind.
    + intros σ r σ' HI [= <- <-]. done.
    + intros σ. apply keeps_ret.
Qed.

End Kept.

(** One turn of the loop leaves what was there alone, outside the variant
    directory and the segment directory of its target. *)
Lemma process_target_kept
    (e : env) (variants_dir segments_dir original_path : path) (base_stem : string)
    (source_height segment_duration target : Z) (σ σ' : fs) (r : result variant) :
  process_target e variants_dir segments_dir original_path base_stem
    source_height segment_duration target σ = (r, σ') →
  kept (variants_dir ++ [Py.str target +:+ "p"])
       (segments_dir ++ [Py.str target +:+ "p"]) σ σ'.
Proof.
  intros Hrun.
  assert (keeps (kept (variants_dir ++ [Py.str target +:+ "p"])
                   (segments_dir ++ [Py.str target +:+ "p"]) σ)
            (process_target e variants_dir segments_dir original_path base_stem
               source_height segment_duration target)) as Hkeeps.
  { unfold process_target.
    apply keeps_bind; [apply keeps_kept_mkdir|]. intros _.
    apply keeps_bind; [by apply keeps_kept_transcode_variant, prefix_app_r|].
    intros info.
    apply keeps_bind; [by apply keeps_kept_segment_video|]. intros segments.
    apply keeps_bind; [apply keeps_stat_size_any|]. intros size.
    apply keeps_ret. }
  eapply Hkeeps; [|done]. by intros q n Hq _ _.
Qed.

Lemma target_dir_inj (t t' : Z) :
  Py.str t +:+ "p" = Py.str t' +:+ "p" → t = t'.
Proof.
  intros Heq. apply (f_equal chars) in Heq. rewrite !chars_app in Heq.
  apply app_inj_2 in Heq as [Heq _]; [|done].
  apply chars_inj in Heq. by apply (inj pretty) in Heq.
Qed.

Lemma plan_targets_NoDup (H : Z) (R : list Z) : NoDup (targets (plan H R)).
Proof.
  change (targets (plan H R)) with (H :: tail (targets (plan H R))).
  rewrite plan_lower_targets. apply NoDup_cons. split.
  - intros [Hlt _]%list_elem_of_filter. simpl in Hlt. lia.
  - apply StronglySorted_gt_NoDup, StronglySorted_filter, sorted_set_rev_sorted.
Qed.

(** The loop of [upload] leaves alone what lies under no directory of its
    targets. *)
Lemma loop_keeps_node
    (e : env) (playlist_id : string) (original_path : path) (base_stem : string)
    (source_height segment_duration : Z) (ts : list Z) (σ σ' : fs)
    (vs : list variant) (q : path) (n : node) :
  mapM (process_target e [playlist_id; "variants"] [playlist_id; "segments"]
          original_path base_stem source_height segment_duration) ts σ =
    (Ok vs, σ') →
  lookup_node q σ = Some n →
  (∀ t, t ∈ ts →
        ¬ [playlist_id; "variants"; Py.str t +:+ "p"] `prefix_of` q ∧
        ¬ [playlist_id; "segments"; Py.str t +:+ "p"] `prefix_of` q) →
  lookup_node q σ' = Some n.
Proof.
  revert σ vs. induction ts as [|t ts IH]; intros σ vs; simpl.
  - by intros [= _ <-].
  - intros (v & σ1 & Hhead & Hrun)%bind_Ok Hq Hout.
    apply bind_Ok in Hrun as (vs' & σ2 & Htail & [= _ <-]).
    eapply IH; [done| |].
    + apply process_target_kept in Hhead.
      apply Hhead; [done|apply Hout; left|apply Hout; left].
    + intros t' Ht'. apply Hout. by right.
Qed.

(** Every variant the loop returns has its file in place when the loop is
    done, with the size the variant records. *)
Lemma loop_files
    (e : env) (playlist_id : string) (original_path : path) (base_stem : string)
    (source_height segment_duration : Z) (ts : list Z) (σ σ' : fs)
    (vs : list variant) :
  NoDup ts →
  mapM (process_target e [playlist_id; "variants"] [playlist_id; "segments"]
          original_path base_stem source_height segment_duration) ts σ =
    (Ok vs, σ') →
  Forall (λ v, ∃ (p : path) (size : Z),
               [playlist_id; "variants"] `prefix_of` p ∧
               v_file v = Some (to_relative p) ∧
               v_size_bytes v = Some size ∧
               lookup_node p σ' = Some (Blob size)) vs.
Proof.
  intros Hnodup. revert σ vs.
  induction Hnodup as [|t ts Ht Hts IH]; intros σ vs; simpl.
  - intros [= <- _]. constructor.
  - intros (v & σ1 & Hhead & Hrun)%bind_Ok.
    apply bind_Ok in Hrun as (vs' & σ2 & Htail & [= <- <-]).
    constructor; [|by eapply IH].
    apply process_target_file in Hhead as (size & _ & Hfile & Hsize & Hpath);
      [|done].
    eexists _, size. split_and!; [|done|done|].
    + by apply prefix_app_r.
    + eapply loop_keeps_node; [done|by rewrite lookup_node_nonempty|].
      intros t' Ht'. split.
      * intros Hpre. apply prefix_cons_inv_2, prefix_cons_inv_2 in Hpre.
        apply prefix_cons_inv_1, target_dir_inj in Hpre. by subst.
      * intros Hpre. apply prefix_cons_inv_2 in Hpre.
        by apply prefix_cons_inv_1 in Hpre.
Qed.

(** X14: a successful upload leaves every file its manifest names.  When the
    response names a playlist, the manifest path holds the complete manifest,
    the uploaded source is in place under [source/] with the size received,
    and every variant of the manifest has its file in place under
    [variants/], at the path and with the size the variant records: no
    rendition has overwritten another one's file or the source. *)
Theorem upload_manifest_files
    (e : env) (playlist_id safe_filename : string) (requested : list Z)
    (segment_duration : Z) (σ σ' : fs) (resp : response) :
  upload_pipeline e playlist_id safe_filename requested segment_duration σ =
    (Ok resp, σ') →
  is_Some (last_upload_id resp) →
  ∃ source_info variants,
    σ' !! [playlist_id; "manifest.json"] =
      Some (Text (String.concat ""
                    (json_dump e
                       (manifest_payload_of e playlist_id safe_filename requested
                          segment_duration source_info variants)))) ∧
    σ' !! [playlist_id; "source"; safe_filename] =
      Some (Blob (upload_size e)) ∧
    Forall (λ v, ∃ (p : path) (size : Z),
                 [playlist_id; "variants"] `prefix_of` p ∧
                 v_file v = Some (to_relative p) ∧
                 v_size_bytes v = Some size ∧
                 σ' !! p = Some (Blob size)) variants.
Proof.
  unfold upload_pipeline, try_except.
  destruct (upload_body e playlist_id safe_filename requested segment_duration σ)
    as [[resp'|exc] σ1] eqn:Hbody.
  - intros [= <- <-] _.
    apply upload_body_Ok in Hbody
      as (info & variants & σa & σb & _ & Hloop & Hsave & _ & _ & Hsource).
    exists info, variants.
    apply save_manifest_outcome in Hsave
      as [(_ & -> & _)|(_ & [[? _]|[[? _]|[? _]]])]; try done.
    split; [by rewrite lookup_insert_eq|]. split.
    + rewrite lookup_insert_ne by done.
      rewrite <- lookup_node_nonempty by done.
      eapply loop_keeps_node; [done|done|].
      intros t _. split; intros Hpre;
        apply prefix_cons_inv_2 in Hpre; by apply prefix_cons_inv_1 in Hpre.
    + apply loop_files in Hloop; [|apply plan_targets_NoDup].
      eapply Forall_impl; [done|].
      intros v (p & size & Hunder & Hfile & Hsize & Hlook).
      exists p, size. split_and!; [done|done|done|].
      rewrite lookup_insert_ne.
      * rewrite <- lookup_node_nonempty; [done|].
        intros ->. by apply prefix_nil_not in Hunder.
      * intros <-. apply prefix_cons_inv_2 in Hunder.
        by apply prefix_cons_inv_1 in Hunder.
  - unfold mbind, M_bind.
    destruct (cleanup_playlist [playlist_id] σ1) as [[u|exc'] σ2];
      [|done].
    intros [= <- <-] [id' Hid']. done.
Qed.


Lemma upload_manifest_files_witness :
  ∃ resp σ' source_info variants,
    upload_pipeline sample_env "clip-20240101120000" "clip.mp4"
      [2160; 1080; 720; 480] 30 ∅ = (Ok resp, σ') ∧
    resp = Response [FlashSuccess "clip.mp4" 3; FlashInfo [2160]]
             (Some "clip-20240101120000") ∧
    σ' !! ["clip-20240101120000"; "manifest.json"] =
      Some (Text (String.concat ""
                    (json_dump sample_env
                       (manifest_payload_of sample_env "clip-20240101120000"
                          "clip.mp4" [2160; 1080; 720; 480] 30 source_info
                          variants)))) ∧
    σ' !! ["clip-20240101120000"; "source"; "clip.mp4"] =
      Some (Blob (upload_size sample_env)) ∧
    Forall (λ v, ∃ (p : path) (size : Z),
                 ["clip-20240101120000"; "variants"] `prefix_of` p ∧
                 v_file v = Some (to_relative p) ∧
                 v_size_bytes v = Some size ∧
                 σ' !! p = Some (Blob size)) variants.
Proof.
  evaluated ((upload_pipeline sample_env "clip-20240101120000" "clip.mp4"
                [2160; 1080; 720; 480] 30 ∅).1) as Hfst.
  destruct (upload_pipeline sample_env "clip-20240101120000" "clip.mp4"
              [2160; 1080; 720; 480] 30 ∅) as [[resp|exc] σ'] eqn:Hrun;
    [|discriminate].
  cbn [fst] in Hfst. injection Hfst as ->.
  destruct (upload_manifest_files _ _ _ _ _ _ _ _ Hrun)
    as (info & variants & Hfiles); [by eexists|].
  eexists _, σ', info, variants.
  split; [reflexivity|]. split; [reflexivity|]. exact Hfiles.
Defined.

(** ** The segment directories of an upload are new *)

Example rooted_empty : rooted ∅.
Proof. intros p [|c q] Hpre Hp; [|done]. by apply prefix_nil_inv in Hpre as ->. Qed.

Lemma vacant_under (D D' : path) (σ : fs) :
  D `prefix_of` D' → vacant D σ → vacant D' σ.
Proof. intros Hpre HI q Hq. apply HI. by etrans. Qed.

Lemma vacant_glob_mp4 (D : path) (σ : fs) : vacant D σ → glob_mp4 D σ = [].
Proof.
  intros HI. destruct (glob_mp4 D σ) as [|[name n] l] eqn:Hglob; [done|].
  assert ((name, n) ∈ glob_mp4 D σ) as Hin by (rewrite Hglob; left).
  apply list_elem_of_filter in Hin as [_ Hin].
  apply elem_of_iterdir in Hin.
  rewrite <- lookup_node_nonempty in Hin by (by destruct D).
  rewrite HI in Hin; [done|]. by apply prefix_app_r.
Qed.

Section Vacant.
Context (D : path).

Lemma vacant_insert (p : path) (n : node) (σ : fs) :
  ¬ D `prefix_of` p → vacant D σ → vacant D (<[p := n]> σ).
Proof.
  intros Hp HI q Hq. rewrite lookup_node_insert_ne; [by apply HI|].
  by intros <-.
Qed.

Lemma keeps_vacant_mkdir (exist_ok : bool) (p : path) :
  ¬ D `prefix_of` p → keeps (vacant D) (mkdir exist_ok p).
Proof.
  intros Hp σ r σ' HI Hrun q Hq. unfold mkdir in Hrun.
  destruct (mkdir_rev_effect _ _ _ _ _ q Hrun) as [Hsame|(_ & _ & Hpre)];
    [rewrite Hsame; by apply HI|].
  rewrite rev_involutive in Hpre. destruct Hp. by etrans.
Qed.

Lemma keeps_vacant_open_w (p : path) (empty : node) :
  ¬ D `prefix_of` p → keeps (vacant D) (open_w p empty).
Proof.
  intros Hp σ r σ' HI. unfold open_w.
  destruct (lookup_node (parent p) σ) as [[| |]|];
    try (intros [= <- <-]; done).
  destruct (lookup_node p σ) as [[| |]|]; intros [= <- <-];
    try done; by apply vacant_insert.
Qed.

Lemma keeps_vacant_save_upload (p : path) (size : Z) :
  ¬ D `prefix_of` p → keeps (vacant D) (save_upload p size).
Proof.
  intros Hp. unfold save_upload.
  apply keeps_bind; [by apply keeps_vacant_open_w|]. intros _.
  intros σ r σ' HI [= <- <-]. by apply vacant_insert.
Qed.

Lemma vacant_write_chunks (dir : path) (stem : string) (k : nat) (sizes : list Z)
    (σ : fs) :
  (∀ name, ¬ D `prefix_of` dir ++ [name]) →
  vacant D σ → vacant D (write_chunks dir stem k sizes σ).
Proof.
  intros Hdir. revert k σ.
  induction sizes as [|size sizes IH]; intros k σ HI; [done|].
  cbn [write_chunks]. apply IH. by apply vacant_insert.
Qed.

Lemma keeps_vacant_transcode_variant (e : env) (source_path dir : path)
    (name : string) (target_height segment_duration : Z) :
  ¬ D `prefix_of` dir ++ [name] →
  keeps (vacant D)
    (transcode_variant e source_path (dir ++ [name]) target_height
       segment_duration).
Proof.
  intros Hout. unfold transcode_variant. rewrite parent_snoc.
  apply keeps_bind.
  { apply keeps_vacant_mkdir. intros Hpre. apply Hout. by apply prefix_app_r. }
  intros _.
  destruct (ffmpeg_transcode _ _ _ _ _ _) as [msg|size]; [apply keeps_raise|].
  apply keeps_bind; [|intros _; apply keeps_probe_video_any].
  intros σ r σ' HI [= <- <-]. by apply vacant_insert.
Qed.

Lemma keeps_vacant_segment_video (e : env) (source_path destination_dir : path)
    (segment_duration : Z) :
  (∀ name, ¬ D `prefix_of` destination_dir ++ [name]) →
  keeps (vacant D)
    (segment_video e source_path destination_dir segment_duration).
Proof.
  intros Hdir. unfold segment_video.
  apply keeps_bind.
  { apply keeps_vacant_mkdir. intros Hpre.
    apply (Hdir ""). by apply prefix_app_r. }
  intros _.
  destruct (ffmpeg_segment _ _ _) as [msg|sizes]; [apply keeps_raise|].
  apply keeps_bind.
  - intros σ r σ' HI [= <- <-]. by apply vacant_write_chunks.
  - intros _. apply keeps_bind.
    + intros σ r σ' HI [= <- <-]. done.
    + intros σ. apply keeps_ret.
Qed.

End Vacant.

(** One turn of the loop puts nothing into the segment directory of another
    target. *)
Lemma process_target_vacant
    (e : env) (playlist_id : string) (original_path : path) (base_stem : string)
    (source_height segment_duration target other : Z) :
  target ≠ other →
  keeps (vacant [playlist_id; "segments"; Py.str other +:+ "p"])
    (process_target e [playlist_id; "variants"] [playlist_id; "segments"]
       original_path base_stem source_height segment_duration target).
Proof.
  intros Hne. unfold process_target. cbn [app].
  apply keeps_bind.
  { apply keeps_vacant_mkdir. intros Hpre.
    apply prefix_cons_inv_2 in Hpre. by apply prefix_cons_inv_1 in Hpre. }
  intros _. apply keeps_bind.
  { apply (keeps_vacant_transcode_variant _ e original_path
             [playlist_id; "variants"; Py.str target +:+ "p"]).
    intros Hpre. apply prefix_cons_inv_2 in Hpre.
    by apply prefix_cons_inv_1 in Hpre. }
  intros info. apply keeps_bind.
  { apply keeps_vacant_segment_video. intros name Hpre.
    apply prefix_cons_inv_2, prefix_cons_inv_2 in Hpre.
    apply prefix_cons_inv_1, target_dir_inj in Hpre. by subst. }
  intros segments. apply keeps_bind; [apply keeps_stat_size_any|].
  intros size. apply keeps_ret.
Qed.

(** One turn of the loop, started where the segment directory of its target
    is not there yet, calls [segment_video] on a destination holding no
    [*.mp4] entry. *)
Lemma process_target_fresh
    (e : env) (playlist_id : string) (original_path : path) (base_stem : string)
    (source_height segment_duration target : Z) (σ σ' : fs) (v : variant) :
  vacant [playlist_id; "segments"; Py.str target +:+ "p"] σ →
  process_target e [playlist_id; "variants"] [playlist_id; "segments"]
    original_path base_stem source_height segment_duration target σ =
    (Ok v, σ') →
  ∃ (σ2 σ3 : fs) (segments : list segment),
    segment_video e
      [playlist_id; "variants"; Py.str target +:+ "p";
       base_stem +:+ "_" +:+ Py.str target +:+ "p.mp4"]
      [playlist_id; "segments"; Py.str target +:+ "p"] segment_duration σ2 =
      (Ok segments, σ3) ∧
    v_segments v = Some segments ∧
    glob_mp4 [playlist_id; "segments"; Py.str target +:+ "p"] σ2 = [].
Proof.
  intros HI. unfold process_target. cbn [app].
  intros (u & σ1 & Hmkdir & Hrun)%bind_Ok.
  apply bind_Ok in Hrun as (info & σ2 & Htranscode & Hrun).
  apply bind_Ok in Hrun as (segments & σ3 & Hsegment & Hrun).
  apply bind_Ok in Hrun as (size & σ4 & _ & Hrun).
  injection Hrun as <- <-.
  exists σ2, σ3, segments. split_and!; [done|done|].
  apply vacant_glob_mp4.
  eapply (keeps_vacant_transcode_variant _ e original_path
            [playlist_id; "variants"; Py.str target +:+ "p"]);
    [|eapply keeps_vacant_mkdir; [|exact HI|exact Hmkdir]|exact Htranscode].
  - intros Hpre. apply prefix_cons_inv_2 in Hpre.
    by apply prefix_cons_inv_1 in Hpre.
  - intros Hpre. apply prefix_cons_inv_2 in Hpre.
    by apply prefix_cons_inv_1 in Hpre.
Qed.

(** In the loop of [upload], started where no segment directory of a target
    is there yet, every call of [segment_video] is on a destination holding
    no [*.mp4] entry. *)
Lemma loop_segment_dirs_fresh
    (e : env) (playlist_id : string) (original_path : path) (base_stem : string)
    (source_height segment_duration : Z) (ts : list Z) (σ σ' : fs)
    (vs : list variant) :
  NoDup ts →
  (∀ t, t ∈ ts → vacant [playlist_id; "segments"; Py.str t +:+ "p"] σ) →
  mapM (process_target e [playlist_id; "variants"] [playlist_id; "segments"]
          original_path base_stem source_height segment_duration) ts σ =
    (Ok vs, σ') →
  Forall2 (λ t v, ∃ (σ2 σ3 : fs) (segments : list segment),
             segment_video e
               [playlist_id; "variants"; Py.str t +:+ "p";
                base_stem +:+ "_" +:+ Py.str t +:+ "p.mp4"]
               [playlist_id; "segments"; Py.str t +:+ "p"] segment_duration σ2 =
               (Ok segments, σ3) ∧
             v_segments v = Some segments ∧
             glob_mp4 [playlist_id; "segments"; Py.str t +:+ "p"] σ2 = [])
          ts vs.
Proof.
  intros Hnodup. revert σ vs.
  induction Hnodup as [|t ts Ht Hts IH]; intros σ vs HI; simpl.
  - intros [= <- _]. constructor.
  - intros (v & σ1 & Hhead & Hrun)%bind_Ok.
    apply bind_Ok in Hrun as (vs' & σ2 & Htail & [= <- <-]).
    constructor.
    + eapply process_target_fresh; [|done]. apply HI. left.
    + eapply IH; [|done]. intros t' Ht'.
      eapply process_target_vacant; [|apply HI; by right|done].
      intros ->. done.
Qed.

(** An upload that succeeds, on a file system in which whatever is there lies
    in directories that are there, has called [segment_video] for every
    variant of its manifest on a destination that held no [*.mp4] entry: the
    three exclusive [mkdir] have returned, so the [segments] directory of the
    playlist was not there before the run. *)
Lemma upload_segment_dirs_fresh
    (e : env) (playlist_id safe_filename : string) (requested : list Z)
    (segment_duration : Z) (σ σ' : fs) (resp : response) :
  rooted σ →
  upload_body e playlist_id safe_filename requested segment_duration σ =
    (Ok resp, σ') →
  ∃ source_info variants,
    σ' !! [playlist_id; "manifest.json"] =
      Some (Text (String.concat ""
                    (json_dump e
                       (manifest_payload_of e playlist_id safe_filename requested
                          segment_duration source_info variants)))) ∧
    Forall2 (λ t v, ∃ (σ2 σ3 : fs) (segments : list segment),
               segment_video e
                 [playlist_id; "variants"; Py.str t +:+ "p";
                  Py.stem safe_filename +:+ "_" +:+ Py.str t +:+ "p.mp4"]
                 [playlist_id; "segments"; Py.str t +:+ "p"] segment_duration σ2 =
                 (Ok segments, σ3) ∧
               v_segments v = Some segments ∧
               glob_mp4 [playlist_id; "segments"; Py.str t +:+ "p"] σ2 = [])
            (targets (plan (vi_height source_info) requested)) variants.
Proof.
  intros Hrooted Hbody. pose proof Hbody as Hrun.
  unfold upload_body in Hrun. cbn [app] in Hrun.
  apply bind_Ok in Hrun as (u1 & σ1 & Hm1 & Hrun).
  apply bind_Ok in Hrun as (u2 & σ2 & Hm2 & Hrun).
  apply bind_Ok in Hrun as (u3 & σ3 & Hm3 & Hrun).
  apply bind_Ok in Hrun as (u4 & σ4 & Hsaved & Hrun).
  apply bind_Ok in Hrun as (info & σ5 & Hprobe & Hrun).
  apply bind_Ok in Hrun as (variants & σ6 & Hloop & Hrun).
  apply bind_Ok in Hrun as ([] & σ7 & Hsave & Hrun).
  injection Hrun as _ <-.
  apply probe_video_pure in Hprobe as [-> _].
  exists info, variants. split.
  { apply save_manifest_outcome in Hsave
      as [(_ & -> & _)|(_ & [[? _]|[[? _]|[? _]]])]; try done.
    by rewrite lookup_insert_eq. }
  assert (vacant [playlist_id; "segments"] σ) as Hfree.
  { intros q Hq. apply (Hrooted [playlist_id; "segments"]); [done|].
    destruct (lookup_node [playlist_id; "segments"] σ) as [n|] eqn:Hn; [|done].
    eapply mkdir_keeps_nodes in Hn; [|exact Hm1].
    eapply mkdir_keeps_nodes in Hn; [|exact Hm2].
    rewrite mkdir_exclusive_exists in Hm3 by (by rewrite Hn). done. }
  assert (∀ x, ¬ [playlist_id; "segments"] `prefix_of` [playlist_id; x]
               ∨ x = "segments") as Hdirs.
  { intros x. destruct (decide (x = "segments")) as [->|Hx]; [by right|left].
    intros Hpre. apply prefix_cons_inv_2 in Hpre.
    by apply prefix_cons_inv_1 in Hpre. }
  assert (vacant [playlist_id; "segments"] σ2) as Hfree2.
  { eapply keeps_vacant_mkdir; [| |exact Hm2].
    - by destruct (Hdirs "variants").
    - eapply keeps_vacant_mkdir; [|exact Hfree|exact Hm1].
      by destruct (Hdirs "source"). }
  eapply loop_segment_dirs_fresh; [apply plan_targets_NoDup| |exact Hloop].
  intros t _.
  eapply keeps_vacant_save_upload; [| |exact Hsaved].
  - intros Hpre. apply prefix_cons_inv_2 in Hpre.
    by apply prefix_cons_inv_1 in Hpre.
  - eapply keeps_vacant_mkdir; [| |exact Hm3].
    + intros Hpre%prefix_length. simpl in Hpre. lia.
    + eapply vacant_under; [|exact Hfree2]. by exists [Py.str t +:+ "p"].
Qed.
